(** * The trigger stage of [TriggerGenericMaker.hpp]

    A shallow embedding of the three worker specialisations of
    [TriggerGenericMaker<IN, OUT, MAKER>] and of the lifecycle code around
    them ([do_start], [do_work], [receive], [send]).

    - The algorithm ([MAKER]), the two time-slice buffers and the channels
      are collaborators: the algorithm and the buffers are interfaces
      (classes below), the channels are scripts held in the state.
    - Every interaction with a collaborator is appended to a [trace], so that
      statements about what the stage reports, invokes and sends are
      statements about that trace.
    - [while] loops take fuel; a loop that needs more iterations than the
      fuel it is given yields [None]. *)

From Stdlib Require Import NArith List Bool Lia PeanoNat Sorted.
Import ListNotations.

Set Implicit Arguments.

(** ** Data model *)

(** [daqdataformats::timestamp_t]: an unsigned 64-bit tick counter.  Only
    comparisons are made on ticks in the driver. *)
Definition timestamp_t := N.

(** [size_t] counters ([m_received_count], [m_sent_count]) are 64 bits wide;
    [++] wraps around. *)
Definition size_t_modulus : N := (2 ^ 64)%N.

Definition size_t_incr (n : N) : N := ((n + 1) mod size_t_modulus)%N.

Inductive SetType : Type := kUnknown | kPayload | kHeartbeat.

Inductive Subsystem : Type := kUnknownSubsystem | kTrigger.

Record SourceID : Type := mkSourceID { subsystem : Subsystem; id : N }.

(** Modelled from the spec: the envelope [Set<T>] ([trigger/Set.hpp] is not
    among the sources).  Section 3 of the specification lists its fields; the
    sequence number is held at the width of the counter it is assigned
    from. *)
Record SetOf (T : Type) : Type := mkSet {
  type : SetType;
  start_time : timestamp_t;
  end_time : timestamp_t;
  origin : SourceID;
  seqno : N;
  objects : list T
}.

(** A default-constructed [Set<T>]. *)
Definition empty_set (T : Type) : SetOf T :=
  mkSet kUnknown 0%N 0%N (mkSourceID kUnknownSubsystem 0%N) 0%N (@nil T).

Definition set_seqno {T} (n : N) (s : SetOf T) : SetOf T :=
  mkSet (type s) (start_time s) (end_time s) (origin s) n (objects s).

Definition set_origin {T} (o : SourceID) (s : SetOf T) : SetOf T :=
  mkSet (type s) (start_time s) (end_time s) o (seqno s) (objects s).

Definition is_heartbeat {T} (s : SetOf T) : bool :=
  match type s with kHeartbeat => true | _ => false end.

Definition is_payload {T} (s : SetOf T) : bool :=
  match type s with kPayload => true | _ => false end.

(** ** Issues and events *)

Inductive Severity : Type := Warning | Error | Fatal.

Inductive Issue : Type :=
| OutOfOrderSets (previous current : timestamp_t)
| AlgorithmFatalError
| AlgorithmFailedToSend
| UnknownSetError
| TimeoutExpired.

(** How a call into the algorithm ends: it returns, or an exception leaves
    it. *)
Inductive Signal : Type := Completed | Raised.

(** What one call of the algorithm does: its state afterwards, the elements
    it appended to the output vector it was handed (by reference, so they
    stay there when the call raises), and how the call ended. *)
Record Invocation (M B : Type) : Type := mkInvocation {
  after : M;
  pushed : list B;
  signal : Signal
}.

(** The [MAKER] template parameter: [operator()(x, out_vec)] and
    [flush(end_time, out_vec)]. *)
Class Maker (M X B : Type) : Type := {
  maker_apply : M -> X -> Invocation M B;
  maker_flush : M -> timestamp_t -> Invocation M B
}.

(** Statement-level control inside a function body: fall out of the
    [switch], [return], or an exception on its way out. *)
Inductive Flow : Type := Break | Return | Throw.

Inductive Event (X B OUT : Type) : Type :=
| Ers (sev : Severity) (i : Issue)
| Invoke (x : X) (outs : list B) (sg : Signal)
| InvokeFlush (t : timestamp_t) (outs : list B) (sg : Signal)
| Popped (out : OUT)
| Send (out : OUT) (accepted : bool).

Arguments Ers {X B OUT} sev i.
Arguments Invoke {X B OUT} x outs sg.
Arguments InvokeFlush {X B OUT} t outs sg.
Arguments Popped {X B OUT} out.
Arguments Send {X B OUT} out accepted.

(** ** Vectors and loops *)

(** [std::vector::back]. *)
Fixpoint back {T} (v : list T) : option T :=
  match v with
  | [] => None
  | [x] => Some x
  | _ :: v' => back v'
  end.

(** [std::vector::pop_back]. *)
Definition pop_back {T} (v : list T) : list T := removelast v.

Definition nonempty {T} (v : list T) : bool :=
  match v with [] => false | _ => true end.

(** [while (cond) body]: [None] when the fuel does not cover the
    iterations. *)
Fixpoint while_loop {S} (fuel : nat) (cond : S -> bool) (body : S -> S)
  (s : S) : option S :=
  match fuel with
  | O => None
  | Datatypes.S fuel' =>
      if cond s then while_loop fuel' cond body (body s) else Some s
  end.

(** A computation that takes fuel settles to [r]: from some amount of fuel
    on it returns, and always [r]. *)
Definition SettlesTo {R} (f : nat -> option R) (r : R) : Prop :=
  exists fuel0, forall fuel, fuel0 <= fuel -> f fuel = Some r.

(** ** The stage: members of [TriggerGenericMaker] *)

Section Stage.

Context {M X B OUT : Type} {maker : Maker M X B}.

(** The members the workers touch, together with the two collaborators the
    stage talks to: [output_queue] scripts the outcome of the coming
    [m_output_queue->send] calls ([false]: [TimeoutExpired]; an exhausted
    script accepts), [trace] is the log of interactions so far. *)
Record Parent : Type := mkParent {
  m_received_count : N;
  m_sent_count : N;
  m_maker : M;
  m_sourceid : N;
  m_buffer_time : timestamp_t;
  m_window_time : timestamp_t;
  output_queue : list bool;
  trace : list (Event X B OUT)
}.

Definition set_received_count (n : N) (p : Parent) : Parent :=
  mkParent n (m_sent_count p) (m_maker p) (m_sourceid p) (m_buffer_time p)
    (m_window_time p) (output_queue p) (trace p).

Definition set_sent_count (n : N) (p : Parent) : Parent :=
  mkParent (m_received_count p) n (m_maker p) (m_sourceid p)
    (m_buffer_time p) (m_window_time p) (output_queue p) (trace p).

Definition set_maker (m : M) (p : Parent) : Parent :=
  mkParent (m_received_count p) (m_sent_count p) m (m_sourceid p)
    (m_buffer_time p) (m_window_time p) (output_queue p) (trace p).

Definition set_output_queue (q : list bool) (p : Parent) : Parent :=
  mkParent (m_received_count p) (m_sent_count p) (m_maker p) (m_sourceid p)
    (m_buffer_time p) (m_window_time p) q (trace p).

Definition log (e : Event X B OUT) (p : Parent) : Parent :=
  mkParent (m_received_count p) (m_sent_count p) (m_maker p) (m_sourceid p)
    (m_buffer_time p) (m_window_time p) (output_queue p) (trace p ++ [e]).

(** [ers::warning], [ers::error], [ers::fatal]. *)
Definition ers (sev : Severity) (i : Issue) (p : Parent) : Parent :=
  log (Ers sev i) p.

(** [TriggerGenericMaker::send]: a timeout of the output channel is caught,
    warned about and reported as [false]; only a successful send advances
    [m_sent_count]. *)
Definition send (out : OUT) (p : Parent) : bool * Parent :=
  match output_queue p with
  | false :: q =>
      (false, ers Warning TimeoutExpired (log (Send out false) (set_output_queue q p)))
  | true :: q =>
      let p1 := log (Send out true) (set_output_queue q p) in
      (true, set_sent_count (size_t_incr (m_sent_count p1)) p1)
  | [] =>
      let p1 := log (Send out true) p in
      (true, set_sent_count (size_t_incr (m_sent_count p1)) p1)
  end.

(** [m_parent.m_maker->operator()(x, out_vec)]. *)
Definition invoke_apply (x : X) (out_vec : list B) (p : Parent)
  : Signal * (list B * Parent) :=
  let r := maker_apply (m_maker p) x in
  (signal r,
   (out_vec ++ pushed r,
    log (Invoke x (pushed r) (signal r)) (set_maker (after r) p))).

(** [m_parent.m_maker->flush(end_time, out_vec)]. *)
Definition invoke_flush (t : timestamp_t) (out_vec : list B) (p : Parent)
  : Signal * (list B * Parent) :=
  let r := maker_flush (m_maker p) t in
  (signal r,
   (out_vec ++ pushed r,
    log (InvokeFlush t (pushed r) (signal r)) (set_maker (after r) p))).

(** [process_slice], the same text in both [Set<A>] specialisations: the
    algorithm is applied to the elements of the slice in turn; the first
    call that raises is reported and ends the function. *)
Fixpoint process_slice (time_slice : list X) (out_vec : list B) (p : Parent)
  : Signal * (list B * Parent) :=
  match time_slice with
  | [] => (Completed, (out_vec, p))
  | x :: rest =>
      match invoke_apply x out_vec p with
      | (Raised, (out_vec', p')) =>
          (* catch (...) { ers::fatal(...); return; } *)
          (Completed, (out_vec', ers Fatal AlgorithmFatalError p'))
      | (Completed, (out_vec', p')) => process_slice rest out_vec' p'
      end
  end.

(** [if (!m_parent.send(std::move(out))) ers::error(AlgorithmFailedToSend)]:
    the output is dropped when the send fails. *)
Definition forward (out : OUT) (p : Parent) : Parent :=
  let (ok, p1) := send out p in
  if ok then p1 else ers Error AlgorithmFailedToSend p1.

(** One iteration of [while (out_vec.size())], the loop that the base
    template and the [Set<A>] specialisation use to empty [out_vec]: send
    the last element, report a failed send, drop the element. *)
Definition send_back (s : list OUT * Parent) : list OUT * Parent :=
  match back (fst s) with
  | Some o => (pop_back (fst s), forward o (snd s))
  | None => s
  end.

End Stage.

Arguments Parent : clear implicits.

(** ** The time-slice buffers, as the workers use them *)

(** [TimeSliceInputBuffer<A>]: [buffer(in, time_slice, start_time, end_time)]
    and [flush(time_slice, start_time, end_time)].  The [bool] result and the
    three out-parameters are one [option]. *)
Class TimeSliceInputBuffer (IB A : Type) : Type := {
  in_buffer : SetOf A -> IB -> option (list A * timestamp_t * timestamp_t) * IB;
  in_flush : IB -> option (list A * timestamp_t * timestamp_t) * IB
}.

(** [TimeSliceOutputBuffer<B>]. *)
Class TimeSliceOutputBuffer (OB B : Type) : Type := {
  out_buffer : list B -> OB -> OB;
  out_buffer_heartbeat : SetOf B -> OB -> OB;
  out_ready : OB -> bool;
  out_empty : OB -> bool;
  out_flush : OB -> SetOf B * OB;
  out_reset : OB -> OB;
  out_set_window_time : timestamp_t -> OB -> OB;
  out_set_buffer_time : timestamp_t -> OB -> OB
}.

(** An output buffer whose [flush] makes progress, as counted by [pending]:
    every call on a buffer that is not empty leaves less in it, and a buffer
    that is ready is not empty. *)
Record Drains {OB B : Type} {ob : TimeSliceOutputBuffer OB B}
  (pending : OB -> nat) : Prop := {
  flush_progress :
    forall b, out_empty b = false -> pending (snd (out_flush b)) < pending b;
  ready_not_empty : forall b, out_ready b = true -> out_empty b = false
}.

(** ** Mode 1: the base template, [IN] in, [OUT] out *)

Module Mode1.
Section Worker.

Context {M IN OUT : Type} {maker : Maker M IN OUT}.

Record Worker : Type := mkWorker { m_parent : Parent M IN OUT OUT }.

Definition reconfigure (w : Worker) : Worker := w.

Definition reset (w : Worker) : Worker := w.

Definition process (fuel : nat) (in_ : IN) (w : Worker)
  : option (Signal * Worker) :=
  match invoke_apply in_ [] (m_parent w) with
  | (Raised, (_, p)) =>
      (* catch (...) { ers::fatal(...); return; } *)
      Some (Completed, mkWorker (ers Fatal AlgorithmFatalError p))
  | (Completed, (out_vec, p)) =>
      match while_loop fuel (fun s => nonempty (fst s)) send_back (out_vec, p) with
      | Some (_, p') => Some (Completed, mkWorker p')
      | None => None
      end
  end.

Definition drain (fuel : nat) (drop : bool) (w : Worker)
  : option (Signal * Worker) :=
  Some (Completed, w).

End Worker.
Arguments Worker : clear implicits.
End Mode1.

(** ** Mode 2: [Set<A>] in, [OUT] out *)

Module Mode2.
Section Worker.

Context {M A OUT IB : Type} {maker : Maker M A OUT}
        {ibuf : TimeSliceInputBuffer IB A}.

Record Worker : Type := mkWorker {
  m_parent : Parent M A OUT OUT;
  m_in_buffer : IB
}.

Definition reconfigure (w : Worker) : Worker := w.

Definition reset (w : Worker) : Worker := w.

(** The [switch (in.type)] of [process]: the control it ends with, the
    local [out_vec], and the worker. *)
Definition dispatch (in_ : SetOf A) (w : Worker)
  : Flow * list OUT * Worker :=
  match type in_ with
  | kPayload =>
      match in_buffer in_ (m_in_buffer w) with
      | (None, b) =>
          (* no complete time slice yet *)
          (Return, [], mkWorker (m_parent w) b)
      | (Some (time_slice, _, _), b) =>
          match process_slice time_slice [] (m_parent w) with
          | (Completed, (out_vec, p)) => (Break, out_vec, mkWorker p b)
          | (Raised, (out_vec, p)) => (Throw, out_vec, mkWorker p b)
          end
      end
  | kHeartbeat =>
      (* try { ... } *)
      let '(sg, (out_vec, p), b) :=
        match in_flush (m_in_buffer w) with
        | (Some (time_slice, _, slice_end), b) =>
            let p0 :=
              if (start_time in_ <? slice_end)%N
              then ers Fatal (OutOfOrderSets slice_end (start_time in_)) (m_parent w)
              else m_parent w in
            match process_slice time_slice [] p0 with
            | (Completed, (out_vec, p)) =>
                (invoke_flush (end_time in_) out_vec p, b)
            | (Raised, s) => (Raised, s, b)
            end
        | (None, b) => (invoke_flush (end_time in_) [] (m_parent w), b)
        end in
      match sg with
      | Raised =>
          (* catch (...) { ers::fatal(...); return; } *)
          (Return, out_vec, mkWorker (ers Fatal AlgorithmFatalError p) b)
      | Completed => (Break, out_vec, mkWorker p b)
      end
  | kUnknown =>
      (Break, [], mkWorker (ers Error UnknownSetError (m_parent w)) (m_in_buffer w))
  end.

Definition process (fuel : nat) (in_ : SetOf A) (w : Worker)
  : option (Signal * Worker) :=
  match dispatch in_ w with
  | (Return, _, w1) => Some (Completed, w1)
  | (Throw, _, w1) => Some (Raised, w1)
  | (Break, out_vec, w1) =>
      match while_loop fuel (fun s => nonempty (fst s)) send_back
              (out_vec, m_parent w1) with
      | Some (_, p) => Some (Completed, mkWorker p (m_in_buffer w1))
      | None => None
      end
  end.

(** One iteration of [while (out_vec.size())] in [drain]: the send and the
    [pop_back] are both inside [if (!drop)]. *)
Definition drain_back (drop : bool) (s : list OUT * Parent M A OUT OUT)
  : list OUT * Parent M A OUT OUT :=
  if negb drop then send_back s else s.

Definition drain (fuel : nat) (drop : bool) (w : Worker)
  : option (Signal * Worker) :=
  match in_flush (m_in_buffer w) with
  | (Some (time_slice, _, _), b) =>
      match process_slice time_slice [] (m_parent w) with
      | (Completed, (out_vec, p)) =>
          match while_loop fuel (fun s => nonempty (fst s)) (drain_back drop)
                  (out_vec, p) with
          | Some (_, p') => Some (Completed, mkWorker p' b)
          | None => None
          end
      | (Raised, (_, p)) => Some (Raised, mkWorker p b)
      end
  | (None, b) => Some (Completed, mkWorker (m_parent w) b)
  end.

End Worker.
Arguments Worker : clear implicits.
End Mode2.

(** ** Mode 3: [Set<A>] in, [Set<B>] out *)

Module Mode3.
Section Worker.

Context {M A B IB OB : Type} {maker : Maker M A B}
        {ibuf : TimeSliceInputBuffer IB A}
        {obuf : TimeSliceOutputBuffer OB B}.

Record Worker : Type := mkWorker {
  m_parent : Parent M A B (SetOf B);
  m_in_buffer : IB;
  m_out_buffer : OB;
  m_prev_start_time : timestamp_t
}.

Definition reconfigure (w : Worker) : Worker :=
  mkWorker (m_parent w) (m_in_buffer w)
    (out_set_buffer_time (m_buffer_time (m_parent w))
       (out_set_window_time (m_window_time (m_parent w)) (m_out_buffer w)))
    (m_prev_start_time w).

Definition reset (w : Worker) : Worker :=
  mkWorker (m_parent w) (m_in_buffer w) (out_reset (m_out_buffer w)) 0%N.

(** [if (elems.size() > 0) m_out_buffer.buffer(elems)]. *)
Definition buffer_elems (elems : list B) (ob : OB) : OB :=
  if nonempty elems then out_buffer elems ob else ob.

(** The [switch (in.type)] of [process]: the control it ends with, the
    local [elems], and the worker. *)
Definition dispatch (in_ : SetOf A) (w : Worker) : Flow * list B * Worker :=
  match type in_ with
  | kPayload =>
      let p0 :=
        if negb (m_prev_start_time w =? 0)%N
           && (start_time in_ <? m_prev_start_time w)%N
        then ers Warning (OutOfOrderSets (m_prev_start_time w) (start_time in_))
               (m_parent w)
        else m_parent w in
      match in_buffer in_ (m_in_buffer w) with
      | (None, b) =>
          (* no complete time slice yet *)
          (Return, [], mkWorker p0 b (m_out_buffer w) (start_time in_))
      | (Some (time_slice, _, _), b) =>
          match process_slice time_slice [] p0 with
          | (Completed, (elems, p)) =>
              (Break, elems, mkWorker p b (m_out_buffer w) (start_time in_))
          | (Raised, (elems, p)) =>
              (Throw, elems, mkWorker p b (m_out_buffer w) (start_time in_))
          end
      end
  | kHeartbeat =>
      let '(sg, (elems, p), b) :=
        match in_flush (m_in_buffer w) with
        | (Some (time_slice, _, slice_end), b) =>
            let p0 :=
              if (start_time in_ <? slice_end)%N
              then ers Fatal (OutOfOrderSets slice_end (start_time in_)) (m_parent w)
              else m_parent w in
            (process_slice time_slice [] p0, b)
        | (None, b) => (Completed, ([], m_parent w), b)
        end in
      match sg with
      | Raised => (Throw, elems, mkWorker p b (m_out_buffer w) (m_prev_start_time w))
      | Completed =>
          let heartbeat :=
            mkSet kHeartbeat (start_time in_) (end_time in_)
              (mkSourceID kTrigger (m_sourceid p)) 0%N (@nil B) in
          let ob := out_buffer_heartbeat heartbeat (m_out_buffer w) in
          (* flush the maker: try { ... } *)
          match invoke_flush (end_time in_) elems p with
          | (Raised, (elems', p')) =>
              (* catch (...) { ers::fatal(...); return; } *)
              (Return, elems',
               mkWorker (ers Fatal AlgorithmFatalError p') b ob (m_prev_start_time w))
          | (Completed, (elems', p')) =>
              (Break, elems', mkWorker p' b ob (m_prev_start_time w))
          end
      end
  | kUnknown =>
      (Break, [],
       mkWorker (ers Error UnknownSetError (m_parent w)) (m_in_buffer w)
         (m_out_buffer w) (m_prev_start_time w))
  end.

(** [out.seqno = m_parent.m_sent_count; out.origin = SourceID(kTrigger, m_sourceid)]. *)
Definition stamp (p : Parent M A B (SetOf B)) (out : SetOf B) : SetOf B :=
  set_origin (mkSourceID kTrigger (m_sourceid p)) (set_seqno (m_sent_count p) out).

(** One iteration of [while (m_out_buffer.ready())] in [process]. *)
Definition emit_step (w : Worker) : Worker :=
  let (popped, ob) := out_flush (m_out_buffer w) in
  let p0 := log (Popped popped) (m_parent w) in
  let out := stamp p0 popped in
  let p1 :=
    if is_heartbeat out then forward out p0
    else if is_payload out && nonempty (objects out) then forward out p0
    else p0 in
  mkWorker p1 (m_in_buffer w) ob (m_prev_start_time w).

Definition process (fuel : nat) (in_ : SetOf A) (w : Worker)
  : option (Signal * Worker) :=
  match dispatch in_ w with
  | (Return, _, w1) => Some (Completed, w1)
  | (Throw, _, w1) => Some (Raised, w1)
  | (Break, elems, w1) =>
      let w2 :=
        mkWorker (m_parent w1) (m_in_buffer w1)
          (buffer_elems elems (m_out_buffer w1)) (m_prev_start_time w1) in
      match while_loop fuel (fun w' => out_ready (m_out_buffer w')) emit_step w2 with
      | Some w3 => Some (Completed, w3)
      | None => None
      end
  end.

(** One iteration of [while (!m_out_buffer.empty())] in [drain]. *)
Definition drain_step (drop : bool) (w : Worker) : Worker :=
  let (popped, ob) := out_flush (m_out_buffer w) in
  let p0 := log (Popped popped) (m_parent w) in
  let out := stamp p0 popped in
  let p1 :=
    if is_heartbeat out then (if negb drop then forward out p0 else p0)
    else if is_payload out && nonempty (objects out)
         then (if negb drop then forward out p0 else p0)
    else p0 in
  mkWorker p1 (m_in_buffer w) ob (m_prev_start_time w).

Definition drain (fuel : nat) (drop : bool) (w : Worker)
  : option (Signal * Worker) :=
  let '(sg, w1) :=
    match in_flush (m_in_buffer w) with
    | (Some (time_slice, _, _), b) =>
        match process_slice time_slice [] (m_parent w) with
        | (sg, (elems, p)) =>
            (sg, mkWorker p b (buffer_elems elems (m_out_buffer w))
                   (m_prev_start_time w))
        end
    | (None, b) =>
        (Completed, mkWorker (m_parent w) b (m_out_buffer w) (m_prev_start_time w))
    end in
  match sg with
  | Raised => Some (Raised, w1)
  | Completed =>
      match while_loop fuel (fun w' => negb (out_empty (m_out_buffer w')))
              (drain_step drop) w1 with
      | Some w2 => Some (Completed, w2)
      | None => None
      end
  end.

End Worker.
Arguments Worker : clear implicits.
End Mode3.

(** ** Lifecycle: [do_start], [receive], [do_work] *)

(** What [TriggerGenericMaker] needs of its [worker] member. *)
Class WorkerOps (W IN M X B OUT : Type) : Type := {
  parent : W -> Parent M X B OUT;
  with_parent : Parent M X B OUT -> W -> W;
  worker_process : nat -> IN -> W -> option (Signal * W);
  worker_drain : nat -> bool -> W -> option (Signal * W);
  worker_reset : W -> W;
  worker_reconfigure : W -> W
}.

#[global] Instance Mode1_ops {M IN OUT} {maker : Maker M IN OUT}
  : WorkerOps (Mode1.Worker M IN OUT) IN M IN OUT OUT := {
  parent := @Mode1.m_parent M IN OUT;
  with_parent := fun p _ => Mode1.mkWorker p;
  worker_process := Mode1.process;
  worker_drain := Mode1.drain;
  worker_reset := @Mode1.reset M IN OUT;
  worker_reconfigure := @Mode1.reconfigure M IN OUT
}.

#[global] Instance Mode2_ops {M A OUT IB} {maker : Maker M A OUT}
  {ibuf : TimeSliceInputBuffer IB A}
  : WorkerOps (Mode2.Worker M A OUT IB) (SetOf A) M A OUT OUT := {
  parent := @Mode2.m_parent M A OUT IB;
  with_parent := fun p w => Mode2.mkWorker p (Mode2.m_in_buffer w);
  worker_process := Mode2.process;
  worker_drain := Mode2.drain;
  worker_reset := @Mode2.reset M A OUT IB;
  worker_reconfigure := @Mode2.reconfigure M A OUT IB
}.

#[global] Instance Mode3_ops {M A B IB OB} {maker : Maker M A B}
  {ibuf : TimeSliceInputBuffer IB A} {obuf : TimeSliceOutputBuffer OB B}
  : WorkerOps (Mode3.Worker M A B IB OB) (SetOf A) M A B (SetOf B) := {
  parent := @Mode3.m_parent M A B IB OB;
  with_parent := fun p w =>
    Mode3.mkWorker p (Mode3.m_in_buffer w) (Mode3.m_out_buffer w)
      (Mode3.m_prev_start_time w);
  worker_process := Mode3.process;
  worker_drain := Mode3.drain;
  worker_reset := Mode3.reset;
  worker_reconfigure := Mode3.reconfigure
}.

Section Lifecycle.

Context {W IN M X B OUT : Type} {ops : WorkerOps W IN M X B OUT}.

(** [do_start]: the counters restart from zero, the algorithm is the one
    [make_maker(m_maker_conf)] has just built, the worker is reconfigured. *)
Definition do_start (fresh : M) (w : W) : W :=
  worker_reconfigure
    (with_parent
       (set_maker fresh (set_sent_count 0%N (set_received_count 0%N (parent w))))
       w).

(** [receive]: [answer] is what [m_input_queue->receive(m_queue_timeout)]
    gives, [None] for [TimeoutExpired]. *)
Definition receive (answer : option IN) (w : W) : option IN * W :=
  match answer with
  | None => (None, w)
  | Some in_ =>
      (Some in_,
       with_parent
         (set_received_count (size_t_incr (m_received_count (parent w))) (parent w))
         w)
  end.

(** [while (receive(in)) worker.process(in)] against the answers [rx] the
    input channel gives to the coming receives (once the script is used up
    the channel only times out).  The answers not consumed are returned. *)
Fixpoint receive_loop (fuel : nat) (rx : list (option IN)) (w : W)
  : option (Signal * W * list (option IN)) :=
  match rx with
  | [] => Some (Completed, w, [])
  | answer :: rx' =>
      match receive answer w with
      | (None, w1) => Some (Completed, w1, rx')
      | (Some in_, w1) =>
          match worker_process fuel in_ w1 with
          | Some (Completed, w2) => receive_loop fuel rx' w2
          | Some (Raised, w2) => Some (Raised, w2, rx')
          | None => None
          end
      end
  end.

(** The end of [do_work]: [worker.drain(true); worker.reset()]. *)
Definition exit_work (fuel : nat) (rx : list (option IN)) (w : W)
  : option (Signal * W * list (option IN)) :=
  match worker_drain fuel true w with
  | Some (Completed, w') => Some (Completed, worker_reset w', rx)
  | Some (Raised, w') => Some (Raised, w', rx)
  | None => None
  end.

(** [do_work]: [running_flag] lists what the successive
    [running_flag.load()] see; a script used up reads [false]. *)
Fixpoint do_work (fuel : nat) (running_flag : list bool)
  (rx : list (option IN)) (w : W) : option (Signal * W * list (option IN)) :=
  match running_flag with
  | true :: later =>
      match receive_loop fuel rx w with
      | Some (Completed, w', rx') => do_work fuel later rx' w'
      | other => other
      end
  | _ => exit_work fuel rx w
  end.

End Lifecycle.

(** ** The buffers of the specification *)

(** Element types carry the tick that places them on the timeline. *)
Class Timed (T : Type) : Type := time_start : T -> timestamp_t.

Section SortByTime.

Context {T : Type} {timed : Timed T}.

Fixpoint insert_by_time (x : T) (l : list T) : list T :=
  match l with
  | [] => [x]
  | y :: l' =>
      if (time_start x <=? time_start y)%N then x :: l
      else y :: insert_by_time x l'
  end.

Definition sort_by_time (l : list T) : list T :=
  fold_right insert_by_time [] l.

Definition time_le (a b : T) : Prop := (time_start a <= time_start b)%N.

End SortByTime.

Module SpecInput.
Section Buffer.

Context {A : Type} {timed : Timed A}.

(** Modelled from the spec: [TimeSliceInputBuffer]
    ([trigger/TimeSliceInputBuffer.hpp] is not among the sources).  Section
    4.1: the buffer holds the slice in progress, keyed by
    [(start_time, end_time)]; a set with the same key is absorbed; a set with
    another key completes the slice, which is returned sorted by
    [time_start], and becomes the new slice in progress; [flush] hands out
    whatever is buffered and reports [false] on an empty buffer.  The
    [OutOfOrderSets] warning that section 4.1 mentions is the one the
    Mode 3 worker emits before it calls [buffer]. *)
Record Slice : Type := mkSlice {
  key_start : timestamp_t;
  key_end : timestamp_t;
  elems : list A
}.

Definition Buffer : Type := option Slice.

Definition flush (b : Buffer)
  : option (list A * timestamp_t * timestamp_t) * Buffer :=
  match b with
  | None => (None, None)
  | Some s => (Some (sort_by_time (elems s), key_start s, key_end s), None)
  end.

Definition buffer (in_ : SetOf A) (b : Buffer)
  : option (list A * timestamp_t * timestamp_t) * Buffer :=
  match b with
  | None => (None, Some (mkSlice (start_time in_) (end_time in_) (objects in_)))
  | Some s =>
      if (key_start s =? start_time in_)%N && (key_end s =? end_time in_)%N
      then (None, Some (mkSlice (key_start s) (key_end s) (elems s ++ objects in_)))
      else (fst (flush b),
            Some (mkSlice (start_time in_) (end_time in_) (objects in_)))
  end.

End Buffer.
Arguments Slice : clear implicits.
Arguments Buffer : clear implicits.

#[global] Instance ops {A} {timed : Timed A} : TimeSliceInputBuffer (Buffer A) A := {
  in_buffer := buffer;
  in_flush := flush
}.

End SpecInput.

Module SpecOutput.
Section Buffer.

Context {B : Type} {timed : Timed B}.

(** Modelled from the spec: [TimeSliceOutputBuffer]
    ([trigger/TimeSliceOutputBuffer.hpp] is not among the sources).  Section
    4.2: elements wait in the window [time_start / window_time] of the grid,
    heartbeat markers wait in a queue, and the watermark is the largest
    [start_time] seen by [buffer] or [buffer_heartbeat].  A window
    [[k w, (k+1) w)] is closed once the watermark has reached
    [(k+1) w + buffer_time], a marker once it has reached its
    [start_time + buffer_time].  [flush] pops what comes first in time order,
    the earliest window that holds elements or the next marker, a window
    before a marker of the same [start_time]; [ready] tells whether what
    [flush] would pop is closed. *)
Record Buffer : Type := mkBuffer {
  window_time : timestamp_t;
  buffer_time : timestamp_t;
  pending : list B;
  heartbeats : list (SetOf B);
  watermark : timestamp_t
}.

Definition window_of (b : Buffer) (x : B) : N := (time_start x / window_time b)%N.

Definition earliest_window (b : Buffer) : option N :=
  match pending b with
  | [] => None
  | x :: l => Some (fold_right N.min (window_of b x) (map (window_of b) l))
  end.

Inductive Item : Type := Window (k : N) | Marker (hb : SetOf B).

Definition next_item (b : Buffer) : option Item :=
  match earliest_window b, heartbeats b with
  | Some k, hb :: _ =>
      if (k * window_time b <=? start_time hb)%N then Some (Window k)
      else Some (Marker hb)
  | Some k, [] => Some (Window k)
  | None, hb :: _ => Some (Marker hb)
  | None, [] => None
  end.

Definition closed (b : Buffer) (i : Item) : bool :=
  match i with
  | Window k => ((k + 1) * window_time b + buffer_time b <=? watermark b)%N
  | Marker hb => (start_time hb + buffer_time b <=? watermark b)%N
  end.

Definition in_window (b : Buffer) (k : N) (x : B) : bool := (window_of b x =? k)%N.

Definition buffer (elems : list B) (b : Buffer) : Buffer :=
  mkBuffer (window_time b) (buffer_time b) (pending b ++ elems) (heartbeats b)
    (fold_right N.max (watermark b) (map time_start elems)).

Definition buffer_heartbeat (hb : SetOf B) (b : Buffer) : Buffer :=
  mkBuffer (window_time b) (buffer_time b) (pending b) (heartbeats b ++ [hb])
    (N.max (watermark b) (start_time hb)).

Definition ready (b : Buffer) : bool :=
  match next_item b with
  | Some i => closed b i
  | None => false
  end.

Definition empty (b : Buffer) : bool :=
  negb (nonempty (pending b)) && negb (nonempty (heartbeats b)).

Definition flush (b : Buffer) : SetOf B * Buffer :=
  match next_item b with
  | Some (Window k) =>
      (mkSet kPayload (k * window_time b)%N ((k + 1) * window_time b)%N
         (mkSourceID kUnknownSubsystem 0%N) 0%N
         (sort_by_time (filter (in_window b k) (pending b))),
       mkBuffer (window_time b) (buffer_time b)
         (filter (fun x => negb (in_window b k x)) (pending b))
         (heartbeats b) (watermark b))
  | Some (Marker hb) =>
      (hb,
       mkBuffer (window_time b) (buffer_time b) (pending b)
         (tl (heartbeats b)) (watermark b))
  | None => (empty_set B, b)
  end.

Definition reset (b : Buffer) : Buffer :=
  mkBuffer (window_time b) (buffer_time b) [] [] 0%N.

(** What the buffer holds: elements and markers. *)
Definition size (b : Buffer) : nat := length (pending b) + length (heartbeats b).

Definition set_window_time (w : timestamp_t) (b : Buffer) : Buffer :=
  mkBuffer w (buffer_time b) (pending b) (heartbeats b) (watermark b).

Definition set_buffer_time (t : timestamp_t) (b : Buffer) : Buffer :=
  mkBuffer (window_time b) t (pending b) (heartbeats b) (watermark b).

End Buffer.
Arguments Buffer : clear implicits.

#[global] Instance ops {B} {timed : Timed B} : TimeSliceOutputBuffer (Buffer B) B := {
  out_buffer := buffer;
  out_buffer_heartbeat := buffer_heartbeat;
  out_ready := ready;
  out_empty := empty;
  out_flush := flush;
  out_reset := reset;
  out_set_window_time := set_window_time;
  out_set_buffer_time := set_buffer_time
}.

End SpecOutput.

(** ** A small algorithm to run the stage on

    Elements are ticks.  [Echo] answers every input [x] with [x] and [x + 1];
    the input [13] makes it raise, after it has pushed [13]; flushing at [13]
    raises as well.  Its state counts the calls it has completed. *)
Module Echo.

Definition apply (m : nat) (x : N) : Invocation nat N :=
  if (x =? 13)%N then mkInvocation m [13%N] Raised
  else mkInvocation (S m) [x; (x + 1)%N] Completed.

Definition flush (m : nat) (t : timestamp_t) : Invocation nat N :=
  if (t =? 13)%N then mkInvocation m [] Raised
  else mkInvocation (S m) [] Completed.

#[global] Instance maker : Maker nat N N := {
  maker_apply := apply;
  maker_flush := flush
}.

#[global] Instance timed : Timed N := fun x => x.

End Echo.

(** ** Reading a trace *)

Section Traces.

Context {X B OUT : Type}.

(** The send attempts, in order, each with its outcome. *)
Definition sends (t : list (Event X B OUT)) : list (OUT * bool) :=
  flat_map (fun e => match e with Send o b => [(o, b)] | _ => [] end) t.

(** What was handed to [send], and what the output channel took. *)
Definition offered (t : list (Event X B OUT)) : list OUT := map fst (sends t).

Definition delivered (t : list (Event X B OUT)) : list OUT :=
  map fst (filter snd (sends t)).

(** The inputs the algorithm was applied to, and everything it pushed. *)
Definition invoked (t : list (Event X B OUT)) : list X :=
  flat_map (fun e => match e with Invoke x _ _ => [x] | _ => [] end) t.

Definition produced (t : list (Event X B OUT)) : list B :=
  flat_map
    (fun e =>
       match e with
       | Invoke _ outs _ => outs
       | InvokeFlush _ outs _ => outs
       | _ => []
       end) t.

(** The sets popped from the output buffer. *)
Definition pops (t : list (Event X B OUT)) : list OUT :=
  flat_map (fun e => match e with Popped o => [o] | _ => [] end) t.

(** Every call of the algorithm that raised is followed at once by the
    report of an [AlgorithmFatalError]. *)
Fixpoint reported (t : list (Event X B OUT)) : bool :=
  match t with
  | [] => true
  | Invoke _ _ Raised :: rest =>
      match rest with
      | Ers Fatal AlgorithmFatalError :: _ => reported rest
      | _ => false
      end
  | InvokeFlush _ _ Raised :: rest =>
      match rest with
      | Ers Fatal AlgorithmFatalError :: _ => reported rest
      | _ => false
      end
  | _ :: rest => reported rest
  end.

Context {M : Type} {maker : Maker M X B}.

(** What [process_slice] does with the algorithm on a slice: the calls it
    makes, up to and with the first one that raises, and the report that
    follows that one. *)
Fixpoint slice_events (m : M) (xs : list X) : list (Event X B OUT) :=
  match xs with
  | [] => []
  | x :: rest =>
      let r := maker_apply m x in
      Invoke x (pushed r) (signal r)
        :: match signal r with
           | Raised => [Ers Fatal AlgorithmFatalError]
           | Completed => slice_events (after r) rest
           end
  end.

(** Whether the algorithm gets through the whole slice. *)
Fixpoint slice_completes (m : M) (xs : list X) : bool :=
  match xs with
  | [] => true
  | x :: rest =>
      let r := maker_apply m x in
      match signal r with
      | Raised => false
      | Completed => slice_completes (after r) rest
      end
  end.

(** A property [Q n t n'] of a stretch [t] of the trace, with the value of
    [m_sent_count] at its two ends, that holds of the empty stretch, of the
    reports, and of the calls of the algorithm followed by what their
    [catch] does, and that composes. *)
Record Closed (Q : N -> list (Event X B OUT) -> N -> Prop) : Prop := {
  closed_nil : forall n, Q n [] n;
  closed_app : forall n m k t1 t2, Q n t1 m -> Q m t2 k -> Q n (t1 ++ t2) k;
  closed_ers : forall n sev i, Q n [Ers sev i] n;
  closed_apply : forall n x outs, Q n [Invoke x outs Completed] n;
  closed_apply_raised :
    forall n x outs, Q n [Invoke x outs Raised; Ers Fatal AlgorithmFatalError] n;
  closed_flush : forall n t outs, Q n [InvokeFlush t outs Completed] n;
  closed_flush_raised :
    forall n t outs, Q n [InvokeFlush t outs Raised; Ers Fatal AlgorithmFatalError] n
}.

(** [p'] comes after [p], and the stretch of trace in between has [Q]. *)
Definition Step (Q : N -> list (Event X B OUT) -> N -> Prop)
  (p p' : Parent M X B OUT) : Prop :=
  exists t, trace p' = trace p ++ t /\ Q (m_sent_count p) t (m_sent_count p').

(** [Q] of the stretches of trace a [send] leaves, accepted or timed
    out and then reported by the caller. *)
Definition Sending (Q : N -> list (Event X B OUT) -> N -> Prop) : Prop :=
  forall n o,
    Q n [Send o true] (size_t_incr n)
    /\ Q n [Send o false; Ers Warning TimeoutExpired; Ers Error AlgorithmFailedToSend] n.

End Traces.

(** Stretches of a Mode 3 trace. *)
Section SetTraces.

Context {X B : Type}.

(** Sequence numbers follow the counter: each attempt carries the current
    value, which only an accepted send advances. *)
Fixpoint numbered (n : N) (l : list (SetOf B * bool)) : Prop :=
  match l with
  | [] => True
  | (o, ok) :: l' =>
      seqno o = n /\ numbered (if ok then size_t_incr n else n) l'
  end.

Fixpoint advance (n : N) (l : list (SetOf B * bool)) : N :=
  match l with
  | [] => n
  | (_, ok) :: l' => advance (if ok then size_t_incr n else n) l'
  end.

Definition Numbered (n : N) (t : list (Event X B (SetOf B))) (n' : N) : Prop :=
  numbered n (sends t) /\ n' = advance n (sends t).

(** No payload set without objects is handed to [send]. *)
Definition payload_nonempty (e : Event X B (SetOf B)) : Prop :=
  match e with
  | Send o _ => is_payload o = true -> objects o <> []
  | _ => True
  end.

(** [o'] is [o] with its sequence number and origin written. *)
Definition stamped_from (o o' : SetOf B) : Prop :=
  type o' = type o /\ start_time o' = start_time o
  /\ end_time o' = end_time o /\ objects o' = objects o.

(** Every heartbeat popped from the output buffer is handed to [send] at
    once. *)
Fixpoint heartbeats_forwarded (t : list (Event X B (SetOf B))) : Prop :=
  match t with
  | [] => True
  | Popped o :: rest =>
      (is_heartbeat o = true ->
       match rest with
       | Send o' _ :: _ => stamped_from o o'
       | _ => False
       end)
      /\ heartbeats_forwarded rest
  | _ :: rest => heartbeats_forwarded rest
  end.

End SetTraces.

(** ** Stages to run

    Stages built on [Echo] and on the buffers of the specification, with a
    window of 100 ticks, no release lag and source 7. *)
Module Examples.

Definition payload (s e : timestamp_t) (xs : list N) : SetOf N :=
  mkSet kPayload s e (mkSourceID kUnknownSubsystem 0%N) 0%N xs.

Definition heartbeat (s e : timestamp_t) : SetOf N :=
  mkSet kHeartbeat s e (mkSourceID kUnknownSubsystem 0%N) 0%N [].

Definition parent0 (OUT : Type) (queue : list bool) : Parent nat N N OUT :=
  mkParent 0%N 0%N 0 7%N 0%N 100%N queue [].

(** A Mode 2 stage before its first input. *)
Definition idle2 : Mode2.Worker nat N N (SpecInput.Buffer N) :=
  Mode2.mkWorker (parent0 N []) None.

(** A Mode 2 stage that holds the slice [[0, 100)] with the elements 30
    and 5. *)
Definition loaded2 : Mode2.Worker nat N N (SpecInput.Buffer N) :=
  Mode2.mkWorker (parent0 N []) (Some (SpecInput.mkSlice 0%N 100%N [30%N; 5%N])).

End Examples.

(** What the two loops of the Mode 3 worker hand to [send]: a heartbeat, or
    a payload set that holds objects. *)
Definition sendable {T} (out : SetOf T) : bool :=
  is_heartbeat out || (is_payload out && nonempty (objects out)).

(** Mode 3 stages to run: idle, and holding the slice [[0, 100)] with the
    element 5 while the output buffer holds the heartbeat of tick 50 and the
    element 30.  [queue] scripts the output channel. *)
Module Examples3.

Definition idle (queue : list bool)
  : Mode3.Worker nat N N (SpecInput.Buffer N) (SpecOutput.Buffer N) :=
  Mode3.mkWorker (Examples.parent0 (SetOf N) queue) None
    (SpecOutput.mkBuffer 100%N 0%N [] [] 0%N) 0%N.

Definition loaded (queue : list bool)
  : Mode3.Worker nat N N (SpecInput.Buffer N) (SpecOutput.Buffer N) :=
  Mode3.mkWorker (Examples.parent0 (SetOf N) queue)
    (Some (SpecInput.mkSlice 0%N 100%N [5%N]))
    (SpecOutput.mkBuffer 100%N 0%N [30%N] [Examples.heartbeat 50%N 60%N] 50%N) 0%N.

(** Scenario S1 of the specification, with a first send that times out. *)
Definition s1 : list (option (SetOf N)) :=
  [Some (Examples.payload 0%N 100%N [5%N]);
   Some (Examples.payload 0%N 100%N [30%N]);
   Some (Examples.payload 100%N 200%N [105%N]);
   Some (Examples.payload 200%N 300%N [210%N]);
   Some (Examples.heartbeat 400%N 500%N)].

End Examples3.

(** Properties of a stretch of a Mode 3 trace, in the shape [Closed] asks
    for. *)
Definition Guarded {X B : Type} (_ : N) (t : list (Event X B (SetOf B))) (_ : N) : Prop :=
  Forall payload_nonempty t.

Definition Forwarding {X B : Type} (_ : N) (t : list (Event X B (SetOf B))) (_ : N)
  : Prop :=
  heartbeats_forwarded t.

Definition Silent {X B OUT : Type} (n : N) (t : list (Event X B OUT)) (n' : N) : Prop :=
  sends t = [] /\ n' = n.

Definition Reported {X B OUT : Type} (_ : N) (t : list (Event X B OUT)) (_ : N) : Prop :=
  reported t = true.

(** The answers of the input channel that are left once a receive has timed
    out, and once [k] receive loops have run. *)
Fixpoint after_timeout {IN : Type} (rx : list (option IN)) : list (option IN) :=
  match rx with
  | [] => []
  | None :: rx' => rx'
  | Some _ :: rx' => after_timeout rx'
  end.

Fixpoint bursts {IN : Type} (k : nat) (rx : list (option IN)) : list (option IN) :=
  match k with
  | O => rx
  | S k' => bursts k' (after_timeout rx)
  end.

(** The [start_time] of the last payload set among [ins], or [prev] when
    there is none: what [m_prev_start_time] holds once [ins] have been
    processed. *)
Definition last_payload_start {A : Type} (prev : timestamp_t) (ins : list (SetOf A))
  : timestamp_t :=
  fold_left (fun acc i => if is_payload i then start_time i else acc) ins prev.

(** [k] rounds of the receive loop, one after the other. *)
Fixpoint receive_loops {W IN M X B OUT : Type} {ops : WorkerOps W IN M X B OUT}
  (fuel k : nat) (rx : list (option IN)) (w : W)
  : option (Signal * W * list (option IN)) :=
  match k with
  | O => Some (Completed, w, rx)
  | S k' =>
      match receive_loop fuel rx w with
      | Some (Completed, w', rx') => receive_loops fuel k' rx' w'
      | other => other
      end
  end.

(** The idle Mode 3 stage of [Examples3] after the inputs [ins]. *)
Definition after_inputs (ins : list (SetOf N))
  : Mode3.Worker nat N N (SpecInput.Buffer N) (SpecOutput.Buffer N) :=
  match receive_loop 10 (map Some ins) (Examples3.idle []) with
  | Some (_, w, _) => w
  | None => Examples3.idle []
  end.

(** Whatever [f] returns, on whatever fuel, has [P]. *)
Definition Returns {R : Type} (f : nat -> option R) (P : R -> Prop) : Prop :=
  forall fuel r, f fuel = Some r -> P r.

(** [f] returns, from some amount of fuel on. *)
Definition Settles {R : Type} (f : nat -> option R) : Prop :=
  exists r, SettlesTo f r.

(** A worker contains the failures of its algorithm: a call of [process]
    returns to its caller however the algorithm's calls end, with every call
    that raised reported at once, and the receive loop goes through all the
    inputs that arrive before the next timeout. *)
Definition Contains {W IN M X B OUT : Type} (ops : WorkerOps W IN M X B OUT) : Prop :=
  (forall in_ w,
      Returns (fun fuel => worker_process fuel in_ w)
        (fun r =>
           fst r = Completed
           /\ Step (@Reported X B OUT) (parent w) (parent (snd r))))
  /\ (forall rx w,
         Returns (fun fuel => receive_loop fuel rx w)
           (fun r =>
              fst (fst r) = Completed
              /\ snd r = after_timeout rx
              /\ Step (@Reported X B OUT) (parent w) (parent (snd (fst r))))).

(** [process] and the receive loop of a worker return. *)
Definition Settling {W IN M X B OUT : Type} (ops : WorkerOps W IN M X B OUT) : Prop :=
  (forall in_ w, Settles (fun fuel => worker_process fuel in_ w))
  /\ (forall rx w, Settles (fun fuel => receive_loop fuel rx w)).

(** The inputs the input channel hands over before its next timeout. *)
Fixpoint before_timeout {IN : Type} (rx : list (option IN)) : list IN :=
  match rx with
  | Some in_ :: rx' => in_ :: before_timeout rx'
  | _ => []
  end.

(** One call of [process] for each input of [ins], in their order, each on
    the worker that the call before has left and that [receive] has counted
    the input on.  How a call ended plays no part. *)
Fixpoint process_each {W IN M X B OUT : Type} {ops : WorkerOps W IN M X B OUT}
  (fuel : nat) (ins : list IN) (w : W) : option W :=
  match ins with
  | [] => Some w
  | in_ :: rest =>
      match worker_process fuel in_ (snd (receive (Some in_) w)) with
      | Some (_, w1) => process_each fuel rest w1
      | None => None
      end
  end.

(** The worker goes on after a failure: what the receive loop returns is
    what one call of [process] per input leaves, for all the inputs that
    arrive before the next timeout, those after a call that met a failure of
    the algorithm like the others. *)
Definition Continues {W IN M X B OUT : Type} (ops : WorkerOps W IN M X B OUT) : Prop :=
  forall fuel rx w r,
    receive_loop fuel rx w = Some r ->
    exists w',
      process_each fuel (before_timeout rx) w = Some w'
      /\ r = (Completed, w', after_timeout rx).

(** The calls of the algorithm that raised and the reports of an
    [AlgorithmFatalError], counted. *)
Definition raised_calls {X B OUT : Type} (t : list (Event X B OUT)) : nat :=
  length
    (filter
       (fun e =>
          match e with
          | Invoke _ _ Raised => true
          | InvokeFlush _ _ Raised => true
          | _ => false
          end) t).

Definition fatal_reports {X B OUT : Type} (t : list (Event X B OUT)) : nat :=
  length
    (filter
       (fun e => match e with Ers _ AlgorithmFatalError => true | _ => false end) t).

(** [p'] comes after [p], and in between there are as many reports of an
    [AlgorithmFatalError] as calls of the algorithm that raised. *)
Definition Accounted {M X B OUT : Type} (p p' : Parent M X B OUT) : Prop :=
  exists t, trace p' = trace p ++ t /\ fatal_reports t = raised_calls t.

(** A failure is reported for its own call only: [process] and the receive
    loop make one report of an [AlgorithmFatalError] per call that raised,
    and no other. *)
Definition ReportsOnce {W IN M X B OUT : Type} (ops : WorkerOps W IN M X B OUT) : Prop :=
  (forall in_ w,
      Returns (fun fuel => worker_process fuel in_ w)
        (fun r => Accounted (parent w) (parent (snd r))))
  /\ (forall rx w,
         Returns (fun fuel => receive_loop fuel rx w)
           (fun r => Accounted (parent w) (parent (snd (fst r))))).

(** ** Further readings of a trace *)

Section MoreTraces.

Context {X B OUT : Type}.

(** [m_sent_count] moves by one [++] for each send the channel took. *)
Definition Counted (n : N) (t : list (Event X B OUT)) (n' : N) : Prop :=
  n' = Nat.iter (length (delivered t)) size_t_incr n.

(** What the emission loops leave in the trace: pops, send attempts and the
    two reports of a send that timed out. *)
Definition emission (e : Event X B OUT) : Prop :=
  match e with
  | Popped _ => True
  | Send _ _ => True
  | Ers Warning TimeoutExpired => True
  | Ers Error AlgorithmFailedToSend => True
  | _ => False
  end.

(** Every send that timed out is followed at once by the warning of [send]
    and the error of its caller. *)
Fixpoint timeouts_reported (t : list (Event X B OUT)) : bool :=
  match t with
  | [] => true
  | Send _ false :: rest =>
      match rest with
      | Ers Warning TimeoutExpired :: Ers Error AlgorithmFailedToSend :: _ =>
          timeouts_reported rest
      | _ => false
      end
  | _ :: rest => timeouts_reported rest
  end.

Definition TimeoutsReported (_ : N) (t : list (Event X B OUT)) (_ : N) : Prop :=
  timeouts_reported t = true.

Definition order_warning (e : Event X B OUT) : bool :=
  match e with
  | Ers Warning (OutOfOrderSets _ _) => true
  | _ => false
  end.

(** The answers of the input channel that carry an input. *)
Definition inputs {IN : Type} (rx : list (option IN)) : nat :=
  length (filter (fun a => match a with Some _ => true | None => false end) rx).

Context {M : Type}.

(** What [process] and [drain] never write: the count of received inputs
    and the configuration. *)
Definition Untouched (p p' : Parent M X B OUT) : Prop :=
  m_received_count p' = m_received_count p
  /\ m_sourceid p' = m_sourceid p
  /\ m_buffer_time p' = m_buffer_time p
  /\ m_window_time p' = m_window_time p.

End MoreTraces.

(** A Mode 3 send attempt carries the origin [(kTrigger, sid)]. *)
Definition sent_from {X B : Type} (sid : N) (e : Event X B (SetOf B)) : Prop :=
  match e with
  | Send o _ => origin o = mkSourceID kTrigger sid
  | _ => True
  end.

Definition Popping {X B OUT : Type} (Q : N -> list (Event X B OUT) -> N -> Prop) : Prop :=
  forall n o, Q n [Popped o] n.

(** After a run that [do_start] began, the counter of sent outputs is the
    number of outputs the channel took, at the width of [size_t]. *)
Definition CountsDeliveries {W IN M X B OUT : Type} (ops : WorkerOps W IN M X B OUT)
  : Prop :=
  forall (fresh : M) (w0 : W) (running_flag : list bool) (rx : list (option IN)),
    Returns (fun fuel => do_work fuel running_flag rx (do_start fresh w0))
      (fun r =>
         exists t,
           trace (parent (snd (fst r))) = trace (parent w0) ++ t
           /\ m_sent_count (parent (snd (fst r)))
              = (N.of_nat (length (delivered t)) mod size_t_modulus)%N).

(** And the counter of received inputs is the number of inputs pulled from
    the input channel. *)
Definition CountsInputs {W IN M X B OUT : Type} (ops : WorkerOps W IN M X B OUT)
  : Prop :=
  forall (fresh : M) (w0 : W) (running_flag : list bool) (rx : list (option IN)),
    Returns (fun fuel => do_work fuel running_flag rx (do_start fresh w0))
      (fun r =>
         exists pulled,
           rx = pulled ++ snd r
           /\ m_received_count (parent (snd (fst r)))
              = (N.of_nat (inputs pulled) mod size_t_modulus)%N).

(** The whole of a run has [Q]. *)
Definition RunsWith {W IN M X B OUT : Type} (ops : WorkerOps W IN M X B OUT)
  (Q : N -> list (Event X B OUT) -> N -> Prop) : Prop :=
  forall (running_flag : list bool) (rx : list (option IN)) (w : W),
    Returns (fun fuel => do_work fuel running_flag rx w)
      (fun r => fst (fst r) = Completed /\ Step Q (parent w) (parent (snd (fst r)))).

(** Every round of the receive loop has [Q]. *)
Definition ReceivesWith {W IN M X B OUT : Type} (ops : WorkerOps W IN M X B OUT)
  (Q : N -> list (Event X B OUT) -> N -> Prop) : Prop :=
  forall (rx : list (option IN)) (w : W),
    Returns (fun fuel => receive_loop fuel rx w)
      (fun r => fst (fst r) = Completed /\ Step Q (parent w) (parent (snd (fst r)))).

(** [do_work] returns, whatever the flag and the input channel do. *)
Definition RunSettles {W IN M X B OUT : Type} (ops : WorkerOps W IN M X B OUT) : Prop :=
  forall (running_flag : list bool) (rx : list (option IN)) (w : W),
    Settles (fun fuel => do_work fuel running_flag rx w).

(** ** Relations a stretch of work carries *)

Section Carrying.

Context {M X B OUT : Type} {maker : Maker M X B}.

(** The stage once the [catch] around a call of the algorithm has run. *)
Definition caught (r : Signal * (list B * Parent M X B OUT)) : Parent M X B OUT :=
  match fst r with
  | Raised => ers Fatal AlgorithmFatalError (snd (snd r))
  | Completed => snd (snd r)
  end.

(** A relation between the stage before and after that holds across the
    reports the workers make on their own account (every issue but that of a
    failed call of the algorithm) and across the guarded calls of the
    algorithm, and composes. *)
Record Carried (R : Parent M X B OUT -> Parent M X B OUT -> Prop) : Prop := {
  carried_refl : forall p, R p p;
  carried_trans : forall p1 p2 p3, R p1 p2 -> R p2 p3 -> R p1 p3;
  carried_ers : forall p sev i, i <> AlgorithmFatalError -> R p (ers sev i p);
  carried_apply : forall p x ov, R p (caught (invoke_apply x ov p));
  carried_flush : forall p t ov, R p (caught (invoke_flush t ov p))
}.

Definition Forwards (R : Parent M X B OUT -> Parent M X B OUT -> Prop) : Prop :=
  forall o p, R p (forward o p).

(** The algorithm as [process_slice] leaves it. *)
Fixpoint after_slice (m : M) (xs : list X) : M :=
  match xs with
  | [] => m
  | x :: rest =>
      let r := maker_apply m x in
      match signal r with
      | Raised => after r
      | Completed => after_slice (after r) rest
      end
  end.

End Carrying.

(** In a Mode 3 stage: the source identifier stays, and every set handed
    to [send] since carries it as its origin. *)
Definition FromStage {M X B : Type} (p p' : Parent M X B (SetOf B)) : Prop :=
  m_sourceid p' = m_sourceid p
  /\ exists t, trace p' = trace p ++ t /\ Forall (sent_from (m_sourceid p)) t.

(** ** Loops whose condition has effects *)

(** [while (cond) body] where evaluating [cond] changes the state (a load
    of an atomic flag that a script answers) and [body] may itself run out
    of fuel. *)
Fixpoint while_do {S} (fuel : nat) (cond : S -> bool * S) (body : S -> option S)
  (s : S) : option S :=
  match fuel with
  | O => None
  | Datatypes.S fuel' =>
      let (c, s1) := cond s in
      if c then
        match body s1 with
        | Some s2 => while_do fuel' cond body s2
        | None => None
        end
      else Some s1
  end.

(** The reads of a flag that are left once it has read [false]. *)
Fixpoint after_stop (flag : list bool) : list bool :=
  match flag with
  | [] => []
  | true :: later => after_stop later
  | false :: later => later
  end.

(** ** [TriggerPrimitiveMaker]: the stage that replays primitives of a file *)

Module TriggerPrimitiveMaker.

(** The eight fields of [triggeralgs::TriggerPrimitive] that [do_configure]
    reads, in the order it reads them. *)
Record TriggerPrimitive : Type := mkTriggerPrimitive {
  tp_time_start : N;
  tp_time_over_threshold : N;
  tp_time_peak : N;
  tp_channel : N;
  tp_adc_integral : N;
  tp_adc_peak : N;
  tp_detid : N;
  tp_type : N
}.

(** A field of the file as the extraction of a number meets it: text that
    converts to the number [v] of the type asked for, or text that does not,
    with the value the failed conversion stores (zero, or the limit of the
    type when the text is a number out of range). *)
Inductive Field : Type :=
  | Number (v : N)
  | Unreadable (stored : N).

(** [std::ifstream]: the fields still to be read and the failure flag that
    [while (file)] tests. *)
Record ifstream : Type := mkStream {
  fields : list Field;
  failed : bool
}.

(** [std::ifstream file(filename)]: [None] is a file that cannot be
    opened. *)
Definition open (content : option (list Field)) : ifstream :=
  match content with
  | Some l => mkStream l false
  | None => mkStream [] true
  end.

(** [file >> x]: a stream that has failed reads nothing; at the end of the
    file the read fails and leaves [x]; text that does not convert makes the
    read fail. *)
Definition extract (x : N) (f : ifstream) : N * ifstream :=
  if failed f then (x, f)
  else
    match fields f with
    | [] => (x, mkStream [] true)
    | Number v :: rest => (v, mkStream rest false)
    | Unreadable stored :: rest => (stored, mkStream rest true)
    end.

(** [TriggerPrimitive tp; file >> tp.time_start >> ... >> tp.type;] where
    [fresh] is a default-constructed primitive. *)
Definition read_row (fresh : TriggerPrimitive) (f : ifstream)
  : TriggerPrimitive * ifstream :=
  let (a, f1) := extract (tp_time_start fresh) f in
  let (b, f2) := extract (tp_time_over_threshold fresh) f1 in
  let (c, f3) := extract (tp_time_peak fresh) f2 in
  let (d, f4) := extract (tp_channel fresh) f3 in
  let (e, f5) := extract (tp_adc_integral fresh) f4 in
  let (g, f6) := extract (tp_adc_peak fresh) f5 in
  let (h, f7) := extract (tp_detid fresh) f6 in
  let (i, f8) := extract (tp_type fresh) f7 in
  (mkTriggerPrimitive a b c d e g h i, f8).

(** The members [do_configure] and [do_work] use.  Their declarations are in
    [TriggerPrimitiveMaker.hpp], which is not among the sources: the two
    numbers are taken as natural numbers. *)
Record State : Type := mkState {
  m_number_of_loops : N;
  m_number_of_rows : N;
  m_tpset : SetOf TriggerPrimitive
}.

(** [m_tpset.objects.push_back(tp)]. *)
Definition push_back (tp : TriggerPrimitive) (s : SetOf TriggerPrimitive)
  : SetOf TriggerPrimitive :=
  mkSet (type s) (start_time s) (end_time s) (origin s) (seqno s) (objects s ++ [tp]).

(** One iteration of [while (file)]. *)
Definition read_step (fresh : TriggerPrimitive) (s : ifstream * State)
  : ifstream * State :=
  let (tp, f) := read_row fresh (fst s) in
  (f,
   mkState (m_number_of_loops (snd s)) (m_number_of_rows (snd s) + 1)%N
     (push_back tp (m_tpset (snd s)))).

(** [do_configure]: [number_of_loops] and [content] are what the
    configuration object gives as [number_of_loops] and as the content of
    the file it names. *)
Definition do_configure (fuel : nat) (number_of_loops : N)
  (content : option (list Field)) (fresh : TriggerPrimitive) (st : State)
  : option State :=
  let st0 := mkState number_of_loops 0%N (m_tpset st) in
  match while_loop fuel (fun s => negb (failed (fst s))) (read_step fresh)
          (open content, st0) with
  | Some (_, st') => Some st'
  | None => None
  end.

(** How much a stream can still give: nothing once it has failed. *)
Definition unread (f : ifstream) : nat :=
  if failed f then 0 else S (length (fields f)).

(** The text of a file that holds the rows [rows] and nothing else. *)
Definition row_fields (tp : TriggerPrimitive) : list Field :=
  map Number
    [tp_time_start tp; tp_time_over_threshold tp; tp_time_peak tp; tp_channel tp;
     tp_adc_integral tp; tp_adc_peak tp; tp_detid tp; tp_type tp].

Definition file_of (rows : list TriggerPrimitive) : list Field :=
  flat_map row_fields rows.

(** The locals of [do_work], with the two collaborators it talks to:
    [running_flag] lists what the coming [running_flag.load()] see (a script
    used up reads [false]), [m_tpset_sink] the outcome of the coming pushes
    ([false]: [QueueTimeoutExpired]; a script used up accepts), and
    [attempts] logs the pushes made, each with its outcome. *)
Record Work : Type := mkWork {
  running_flag : list bool;
  m_tpset_sink : list bool;
  attempts : list (SetOf TriggerPrimitive * bool);
  generatedCount : N;
  sentCount : N;
  currentIteration : N;
  successfullyWasSent : bool
}.

(** [running_flag.load()]. *)
Definition load (s : Work) : bool * Work :=
  match running_flag s with
  | [] => (false, s)
  | b :: later =>
      (b,
       mkWork later (m_tpset_sink s) (attempts s) (generatedCount s) (sentCount s)
         (currentIteration s) (successfullyWasSent s))
  end.

(** [m_tpset_sink->push(m_tpset, queueTimeout_)]: whether it returned. *)
Definition push (tpset : SetOf TriggerPrimitive) (s : Work) : bool * Work :=
  let (ok, q) :=
    match m_tpset_sink s with
    | [] => (true, [])
    | b :: q => (b, q)
    end in
  (ok,
   mkWork (running_flag s) q (attempts s ++ [(tpset, ok)]) (generatedCount s)
     (sentCount s) (currentIteration s) (successfullyWasSent s)).

(** [!successfullyWasSent && running_flag.load()]: the flag is not loaded
    once the set has been sent. *)
Definition may_retry (s : Work) : bool * Work :=
  if successfullyWasSent s then (false, s) else load s.

(** The body of the inner loop: the push in its [try], the [catch] that
    swallows the timeout, and [currentIteration++]. *)
Definition attempt (st : State) (s : Work) : Work :=
  let (ok, s1) := push (m_tpset st) s in
  let s2 :=
    if ok
    then mkWork (running_flag s1) (m_tpset_sink s1) (attempts s1) (generatedCount s1)
           (size_t_incr (sentCount s1)) (currentIteration s1) true
    else s1 in
  mkWork (running_flag s2) (m_tpset_sink s2) (attempts s2) (generatedCount s2)
    (sentCount s2) (size_t_incr (currentIteration s2)) (successfullyWasSent s2).

(** [running_flag.load() && currentIteration < m_number_of_loops]. *)
Definition may_loop (st : State) (s : Work) : bool * Work :=
  let (running, s1) := load s in
  (running && (currentIteration s1 <? m_number_of_loops st)%N, s1).

(** The body of the outer loop; the sleep of one second and the log lines
    leave no trace here. *)
Definition iteration (fuel : nat) (st : State) (s : Work) : option Work :=
  if (m_number_of_rows st =? 0)%N then Some s (* continue *)
  else
    let s1 :=
      mkWork (running_flag s) (m_tpset_sink s) (attempts s)
        ((generatedCount s + m_number_of_rows st) mod size_t_modulus)%N
        (sentCount s) (currentIteration s) false in
    while_do fuel may_retry (fun s2 => Some (attempt st s2)) s1.

Definition do_work (fuel : nat) (st : State) (flag sink : list bool) : option Work :=
  while_do fuel (may_loop st) (iteration fuel st)
    (mkWork flag sink [] 0%N 0%N 0%N false).

(** The pushes the sink took. *)
Definition accepted (s : Work) : nat := length (filter snd (attempts s)).

(** The locals of [do_work] tell what happened, in a run whose flag is read
    at most [reads] times: every push carried [m_tpset], [sentCount] counts
    the pushes the sink took, [currentIteration] counts all the pushes, and
    each push was preceded by a read of the flag. *)
Definition Tallied (st : State) (reads : nat) (s : Work) : Prop :=
  Forall (fun a => fst a = m_tpset st) (attempts s)
  /\ sentCount s = N.of_nat (accepted s)
  /\ currentIteration s = N.of_nat (length (attempts s))
  /\ length (attempts s) + length (running_flag s) <= reads.

End TriggerPrimitiveMaker.

(** A file of two rows to configure the stage with, and the stage before
    its first configuration. *)
Module ExamplesTPM.

Definition tp1 : TriggerPrimitiveMaker.TriggerPrimitive :=
  TriggerPrimitiveMaker.mkTriggerPrimitive 100 4 102 7 900 300 1 0.

Definition tp2 : TriggerPrimitiveMaker.TriggerPrimitive :=
  TriggerPrimitiveMaker.mkTriggerPrimitive 200 5 203 8 950 310 1 0.

Definition fresh : TriggerPrimitiveMaker.TriggerPrimitive :=
  TriggerPrimitiveMaker.mkTriggerPrimitive 0 0 0 0 0 0 0 0.

Definition unconfigured : TriggerPrimitiveMaker.State :=
  TriggerPrimitiveMaker.mkState 0 0 (empty_set TriggerPrimitiveMaker.TriggerPrimitive).

Definition configured (loops : N) : TriggerPrimitiveMaker.State :=
  TriggerPrimitiveMaker.mkState loops 3
    (mkSet kUnknown 0%N 0%N (mkSourceID kUnknownSubsystem 0%N) 0%N [tp1; tp2; fresh]).

End ExamplesTPM.

(** * Properties *)

(** ** Vectors *)

Section Vectors.

Context {T : Type}.

Lemma back_snoc (v : list T) (x : T) : back (v ++ [x]) = Some x.
Proof.
  induction v as [|y v IH]; [reflexivity|].
  simpl. destruct (v ++ [x]) eqn:E; [destruct v; discriminate|exact IH].
Qed.

Lemma pop_back_snoc (v : list T) (x : T) : pop_back (v ++ [x]) = v.
Proof. apply removelast_last. Qed.

Lemma snoc_cases (v : list T) : v = [] \/ exists v' x, v = v' ++ [x].
Proof.
  destruct v as [|y v]; [now left|right].
  destruct (exists_last (l := y :: v)) as (v' & x & E); [discriminate|eauto].
Qed.

Lemma nonempty_snoc (v : list T) (x : T) : nonempty (v ++ [x]) = true.
Proof. destruct v; reflexivity. Qed.

End Vectors.

(** ** Loops *)

Section While.

Context {S : Type} (cond : S -> bool) (body : S -> S).

Lemma while_loop_mono (fuel fuel' : nat) (s s' : S) :
  while_loop fuel cond body s = Some s' -> fuel <= fuel' ->
  while_loop fuel' cond body s = Some s'.
Proof.
  revert fuel' s. induction fuel as [|fuel IH]; intros fuel' s H L; [discriminate|].
  destruct fuel' as [|fuel']; [lia|]. simpl in *.
  destruct (cond s); [apply IH; [exact H|lia]|exact H].
Qed.

(** A loop whose body decreases a measure ends within that many
    iterations. *)
Lemma while_loop_terminates (measure : S -> nat) :
  (forall s, cond s = true -> measure (body s) < measure s) ->
  forall fuel s, measure s < fuel -> exists s', while_loop fuel cond body s = Some s'.
Proof.
  intros D. induction fuel as [|fuel IH]; intros s L; [lia|].
  simpl. destruct (cond s) eqn:C; [|eauto].
  apply IH. specialize (D s C). lia.
Qed.

Lemma while_loop_invariant (I : S -> Prop) :
  (forall s, I s -> cond s = true -> I (body s)) ->
  forall fuel s s', I s -> while_loop fuel cond body s = Some s' ->
                    I s' /\ cond s' = false.
Proof.
  intros P. induction fuel as [|fuel IH]; intros s s' Hs H; [discriminate|].
  simpl in H. destruct (cond s) eqn:C.
  - apply (IH (body s)); auto.
  - injection H as <-. auto.
Qed.

Lemma while_loop_settles (measure : S -> nat) :
  (forall s, cond s = true -> measure (body s) < measure s) ->
  forall s, exists s', SettlesTo (fun fuel => while_loop fuel cond body s) s'.
Proof.
  intros D s.
  destruct (@while_loop_terminates measure D (Datatypes.S (measure s)) s)
    as [s' H]; [lia|].
  exists s', (Datatypes.S (measure s)). intros fuel L.
  eapply while_loop_mono; eassumption.
Qed.

(** A loop whose body keeps the condition true never ends. *)
Lemma while_loop_stuck :
  (forall s, cond s = true -> cond (body s) = true) ->
  forall fuel s, cond s = true -> while_loop fuel cond body s = None.
Proof.
  intros K. induction fuel as [|fuel IH]; intros s C; [reflexivity|].
  simpl. rewrite C. apply IH, K, C.
Qed.

End While.

(** ** Stretches of trace *)

Section Steps.

Context {M X B OUT : Type} {maker : Maker M X B}.

Variable Q : N -> list (Event X B OUT) -> N -> Prop.
Hypothesis HQ : Closed Q.

Lemma Step_refl (p : Parent M X B OUT) : Step Q p p.
Proof. exists []. rewrite app_nil_r. split; [reflexivity|apply HQ]. Qed.

Lemma Step_same (p p' : Parent M X B OUT) :
  trace p' = trace p -> m_sent_count p' = m_sent_count p -> Step Q p p'.
Proof.
  intros Ht Hn. exists []. rewrite app_nil_r, Hn. split; [exact Ht|apply HQ].
Qed.

Lemma Step_trans (p1 p2 p3 : Parent M X B OUT) : Step Q p1 p2 -> Step Q p2 p3 -> Step Q p1 p3.
Proof.
  intros (t1 & E1 & Q1) (t2 & E2 & Q2). exists (t1 ++ t2).
  rewrite E2, E1, app_assoc. split; [reflexivity|].
  eapply closed_app; eauto.
Qed.

Lemma Step_ers (p : Parent M X B OUT) (sev : Severity) (i : Issue) : Step Q p (ers sev i p).
Proof. exists [Ers sev i]. split; [reflexivity|apply HQ]. Qed.

Lemma forward_cases (o : OUT) (p : Parent M X B OUT) :
  (trace (forward o p) = trace p ++ [Send o true]
   /\ m_sent_count (forward o p) = size_t_incr (m_sent_count p))
  \/ (trace (forward o p)
      = trace p ++ [Send o false; Ers Warning TimeoutExpired;
                    Ers Error AlgorithmFailedToSend]
      /\ m_sent_count (forward o p) = m_sent_count p).
Proof.
  unfold forward, send. destruct (output_queue p) as [|[|] q]; simpl.
  - left. auto.
  - left. auto.
  - right. rewrite <- !app_assoc. auto.
Qed.

Lemma Step_forward (o : OUT) (p : Parent M X B OUT) : Sending Q -> Step Q p (forward o p).
Proof.
  intros HS. destruct (HS (m_sent_count p) o) as [Hok Hko].
  destruct (forward_cases o p) as [[Et En]|[Et En]];
    eexists; (split; [exact Et|rewrite En; assumption]).
Qed.

Lemma process_slice_completed (xs : list X) (ov : list B) (p : Parent M X B OUT) :
  fst (process_slice xs ov p) = Completed.
Proof.
  revert ov p. induction xs as [|x xs IH]; intros ov p; [reflexivity|].
  simpl. destruct (signal (maker_apply (m_maker p) x)); [apply IH|reflexivity].
Qed.

Lemma Step_process_slice (xs : list X) (ov : list B) (p : Parent M X B OUT) :
  Step Q p (snd (snd (process_slice xs ov p))).
Proof.
  revert ov p. induction xs as [|x xs IH]; intros ov p; [apply Step_refl|].
  simpl. destruct (signal (maker_apply (m_maker p) x)) eqn:Sg.
  - eapply Step_trans; [|apply IH].
    eexists. split; [reflexivity|]. simpl. apply HQ.
  - eexists. split; [simpl; rewrite <- app_assoc; reflexivity|]. simpl. apply HQ.
Qed.

(** [try { m_maker->flush(t, out_vec) } catch (...) { ers::fatal(...) }]. *)
Lemma Step_flush_guarded (t : timestamp_t) (ov : list B) (p : Parent M X B OUT) :
  Step Q p
    (match fst (invoke_flush t ov p) with
     | Raised => ers Fatal AlgorithmFatalError (snd (snd (invoke_flush t ov p)))
     | Completed => snd (snd (invoke_flush t ov p))
     end).
Proof.
  unfold invoke_flush. simpl.
  destruct (signal (maker_flush (m_maker p) t)) eqn:Sg.
  - eexists. split; [reflexivity|]. simpl. apply HQ.
  - eexists. split; [simpl; rewrite <- app_assoc; reflexivity|]. simpl. apply HQ.
Qed.

(** The loop that empties [out_vec]. *)
Lemma Step_send_loop (fuel : nat) (ov ov' : list OUT) (p p' : Parent M X B OUT) :
  Sending Q ->
  while_loop fuel (fun s => nonempty (fst s)) send_back (ov, p) = Some (ov', p') ->
  Step Q p p'.
Proof.
  intros HS H.
  apply (while_loop_invariant (fun s => nonempty (fst s)) send_back
           (fun s => Step Q p (snd s))) in H; [apply H| |apply Step_refl].
  intros [v q] Hq _. simpl in *. unfold send_back. simpl.
  destruct (back v); simpl; [|exact Hq].
  eapply Step_trans; [exact Hq|apply Step_forward, HS].
Qed.

Lemma send_loop_terminates (ov : list OUT) (p : Parent M X B OUT) (fuel : nat) :
  length ov < fuel ->
  exists p', while_loop fuel (fun s => nonempty (fst s)) send_back (ov, p)
             = Some ([], p').
Proof.
  intros L.
  destruct (while_loop_terminates
              (fun s : list OUT * Parent M X B OUT => nonempty (fst s)) send_back
              (fun s => length (fst s))) with (fuel := fuel) (s := (ov, p))
    as [[v q] H]; [|exact L|].
  - intros [v q] C. simpl in *. unfold send_back. simpl.
    destruct (snoc_cases v) as [->|(v' & x & ->)]; [discriminate|].
    rewrite back_snoc, pop_back_snoc. simpl. rewrite length_app. simpl. lia.
  - exists q. rewrite H. f_equal. f_equal.
    apply (while_loop_invariant (fun s => nonempty (fst s)) send_back
             (fun _ => True)) in H; auto.
    destruct H as [_ H]. simpl in H. destruct v; [reflexivity|discriminate].
Qed.

End Steps.

(** ** Reading a trace: stretches put end to end *)

Section TraceFacts.

Context {X B OUT : Type}.

Lemma sends_app (t1 t2 : list (Event X B OUT)) : sends (t1 ++ t2) = sends t1 ++ sends t2.
Proof. apply flat_map_app. Qed.

Lemma offered_app (t1 t2 : list (Event X B OUT)) :
  offered (t1 ++ t2) = offered t1 ++ offered t2.
Proof. unfold offered. now rewrite sends_app, map_app. Qed.

Lemma delivered_app (t1 t2 : list (Event X B OUT)) :
  delivered (t1 ++ t2) = delivered t1 ++ delivered t2.
Proof. unfold delivered. now rewrite sends_app, filter_app, map_app. Qed.

Lemma invoked_app (t1 t2 : list (Event X B OUT)) :
  invoked (t1 ++ t2) = invoked t1 ++ invoked t2.
Proof. apply flat_map_app. Qed.

Lemma produced_app (t1 t2 : list (Event X B OUT)) :
  produced (t1 ++ t2) = produced t1 ++ produced t2.
Proof. apply flat_map_app. Qed.

Lemma pops_app (t1 t2 : list (Event X B OUT)) : pops (t1 ++ t2) = pops t1 ++ pops t2.
Proof. apply flat_map_app. Qed.

Context {M : Type} {maker : Maker M X B}.

Lemma slice_events_sends (m : M) (xs : list X) :
  sends (slice_events (OUT := OUT) m xs) = [] /\ pops (slice_events (OUT := OUT) m xs) = [].
Proof.
  revert m. induction xs as [|x xs IH]; intros m; [split; reflexivity|].
  simpl. destruct (signal (maker_apply m x)); [apply IH|split; reflexivity].
Qed.

(** The algorithm is applied to the elements of the slice in their order,
    to all of them unless a call raises. *)
Lemma slice_events_invoked (m : M) (xs : list X) :
  exists rest, xs = invoked (slice_events (OUT := OUT) m xs) ++ rest
               /\ (slice_completes m xs = true -> rest = []).
Proof.
  revert m. induction xs as [|x xs IH]; intros m.
  - exists []. split; reflexivity.
  - simpl. destruct (signal (maker_apply m x)).
    + destruct (IH (after (maker_apply m x))) as (rest & E & C).
      exists rest. unfold invoked in *. simpl. split; [now f_equal|exact C].
    + exists xs. split; [reflexivity|discriminate].
Qed.

(** What [process_slice] leaves: the pushed elements behind those already in
    [out_vec], the calls in the trace, nothing else touched. *)
Lemma process_slice_spec (xs : list X) (ov : list B) (p : Parent M X B OUT) :
  exists p',
    process_slice xs ov p
    = (Completed, (ov ++ produced (slice_events (OUT := OUT) (m_maker p) xs), p'))
    /\ trace p' = trace p ++ slice_events (m_maker p) xs
    /\ m_sent_count p' = m_sent_count p
    /\ m_received_count p' = m_received_count p
    /\ output_queue p' = output_queue p
    /\ m_sourceid p' = m_sourceid p.
Proof.
  revert ov p. induction xs as [|x xs IH]; intros ov p.
  - exists p. simpl. rewrite !app_nil_r. repeat split; reflexivity.
  - simpl. destruct (signal (maker_apply (m_maker p) x)) eqn:Sg.
    + destruct (IH (ov ++ pushed (maker_apply (m_maker p) x))
                  (log (Invoke x (pushed (maker_apply (m_maker p) x)) Completed)
                     (set_maker (after (maker_apply (m_maker p) x)) p)))
        as (p' & E & Ht & Hn & Hr & Hq & Hs).
      exists p'. rewrite E. simpl in *. unfold produced at 2. simpl.
      fold (produced (slice_events (OUT := OUT) (after (maker_apply (m_maker p) x)) xs)).
      rewrite <- !app_assoc in *. repeat split; assumption.
    + eexists. split.
      * unfold produced. simpl. rewrite app_nil_r. reflexivity.
      * simpl. rewrite <- !app_assoc. repeat split; reflexivity.
Qed.

(** The loop that empties [out_vec] hands its elements to [send] from the
    back. *)
Lemma send_loop_offers (fuel : nat) (ov ov' : list OUT) (p p' : Parent M X B OUT) :
  while_loop fuel (fun s => nonempty (fst s)) send_back (ov, p) = Some (ov', p') ->
  exists t, trace p' = trace p ++ t /\ offered t = rev ov
            /\ invoked t = [] /\ produced t = [].
Proof.
  revert ov p. induction fuel as [|fuel IH]; intros ov p H; [discriminate|].
  simpl in H. destruct (snoc_cases ov) as [->|(v & x & ->)].
  - injection H as _ <-. exists []. rewrite app_nil_r. repeat split; reflexivity.
  - rewrite nonempty_snoc in H. unfold send_back in H at 2. simpl in H.
    rewrite back_snoc, pop_back_snoc in H.
    destruct (IH _ _ H) as (t & Et & Eo & Ei & Ep).
    rewrite rev_unit.
    destruct (forward_cases x p) as [[Ef _]|[Ef _]]; rewrite Ef in Et;
      eexists; (split; [rewrite Et, <- app_assoc; reflexivity|]);
      rewrite offered_app, invoked_app, produced_app, Eo, Ei, Ep;
      repeat split; reflexivity.
Qed.

End TraceFacts.

(** ** Slices come out of the input buffer in time order *)

Section SlicesSorted.

Context {A : Type} {timed : Timed A}.

Lemma insert_by_time_sorted (x : A) (l : list A) :
  Sorted time_le l -> Sorted time_le (insert_by_time x l).
Proof.
induction l as [|y l IH]; intros H; simpl.
- repeat constructor.
- destruct (time_start x <=? time_start y)%N eqn:E.
  + constructor; [exact H|]. constructor. apply N.leb_le, E.
  + inversion H as [|? ? Hs Hh]; subst. constructor; [apply IH, Hs|].
    apply N.leb_gt in E.
    destruct l as [|z l]; simpl.
    * constructor. unfold time_le. lia.
    * inversion Hh; subst.
      destruct (time_start x <=? time_start z)%N; constructor;
        unfold time_le in *; lia.
Qed.

Lemma sort_by_time_sorted (l : list A) : Sorted time_le (sort_by_time l).
Proof.
induction l as [|x l IH]; simpl; [constructor|]. apply insert_by_time_sorted, IH.
Qed.

(** The buffer of the specification hands out its slices sorted by
    [time_start]. *)
Lemma spec_input_slices_sorted (b : SpecInput.Buffer A) (in_ : SetOf A)
  (slice : list A) (s e : timestamp_t) :
  fst (in_buffer in_ b) = Some (slice, s, e) \/ fst (in_flush b) = Some (slice, s, e) ->
  Sorted time_le slice.
Proof.
simpl. unfold SpecInput.buffer, SpecInput.flush.
destruct b as [sl|]; simpl.
- destruct (_ && _); simpl; intros [H|H]; try discriminate;
    injection H as <- _ _; apply sort_by_time_sorted.
- intros [H|H]; discriminate.
Qed.

End SlicesSorted.

(** ** Mode 2 *)

Section Mode2Facts.

Context {M A OUT IB : Type} {maker : Maker M A OUT}
        {ibuf : TimeSliceInputBuffer IB A}.

(** With [drop] set, an iteration of the loop in [drain] changes nothing, so
    the loop does not end once the flushed slice has made the algorithm push
    an element. *)
Lemma drain_drop_stuck (w : Mode2.Worker M A OUT IB) (slice : list A)
  (s e : timestamp_t) (b : IB) :
  in_flush (Mode2.m_in_buffer w) = (Some (slice, s, e), b) ->
  produced (slice_events (OUT := OUT) (m_maker (Mode2.m_parent w)) slice) <> [] ->
  forall fuel, Mode2.drain fuel true w = None.
Proof.
  intros Hf Hp fuel. unfold Mode2.drain. rewrite Hf.
  destruct (process_slice_spec slice [] (Mode2.m_parent w)) as (p' & E & _).
  rewrite E. simpl app.
  rewrite while_loop_stuck; [reflexivity| |].
  - intros s0 C. exact C.
  - simpl. destruct (produced _); [contradiction|reflexivity].
Qed.

(** A payload set that completes a slice: the algorithm is applied to the
    elements of the slice in their order, and what it pushed is then handed
    to [send] from the back. *)
Lemma process_released_slice (in_ : SetOf A) (w w' : Mode2.Worker M A OUT IB)
  (slice : list A) (s e : timestamp_t) (b : IB) (fuel : nat) (sg : Signal) :
  type in_ = kPayload ->
  in_buffer in_ (Mode2.m_in_buffer w) = (Some (slice, s, e), b) ->
  Mode2.process fuel in_ w = Some (sg, w') ->
  sg = Completed
  /\ Mode2.m_in_buffer w' = b
  /\ exists d,
       trace (Mode2.m_parent w') = trace (Mode2.m_parent w) ++ d
       /\ (exists rest, slice = invoked d ++ rest
                        /\ (slice_completes (m_maker (Mode2.m_parent w)) slice = true
                            -> rest = []))
       /\ offered d = rev (produced d).
Proof.
intros Ht Hb. unfold Mode2.process, Mode2.dispatch. rewrite Ht, Hb.
destruct (process_slice_spec slice [] (Mode2.m_parent w))
  as (p' & E & Et & _). rewrite E. simpl app. simpl Mode2.m_parent.
destruct (while_loop _ _ _ _) as [[ov' p'']|] eqn:Hl; [|discriminate].
intros H. injection H as <- <-. simpl.
destruct (send_loop_offers _ _ _ Hl) as (t & Et' & Eo & Ei & Ep).
split; [reflexivity|]. split; [reflexivity|].
exists (slice_events (m_maker (Mode2.m_parent w)) slice ++ t). repeat split.
- rewrite Et', Et, app_assoc. reflexivity.
- rewrite invoked_app, Ei, app_nil_r. apply slice_events_invoked.
- rewrite offered_app, produced_app, Ep, app_nil_r, Eo.
  unfold offered at 1.
  rewrite (proj1 (slice_events_sends (OUT := OUT) _ _)). reflexivity.
Qed.

End Mode2Facts.

(** ** Computations that settle *)

Section Settling.

Lemma settles_const {R} (r : R) : SettlesTo (fun _ => Some r) r.
Proof. exists 0. reflexivity. Qed.

(** Two computations on the same fuel, the second taking the result of the
    first. *)
Lemma settles_bind {R R'} (f : nat -> option R) (g : nat -> R -> option R')
  (k : nat -> option R') (r : R) (r' : R') :
  SettlesTo f r -> SettlesTo (fun fuel => g fuel r) r' ->
  (forall fuel, f fuel = Some r -> k fuel = g fuel r) ->
  SettlesTo k r'.
Proof.
  intros [a Ha] [b Hb] Hk. exists (Nat.max a b). intros fuel L.
  rewrite Hk; [apply Hb; lia|apply Ha; lia].
Qed.

End Settling.

Section StepCases.

Context {M X B OUT : Type} {maker : Maker M X B}.

Variable Q : N -> list (Event X B OUT) -> N -> Prop.
Hypothesis HQ : Closed Q.

Lemma process_slice_cases (xs : list X) (ov : list B) (p : Parent M X B OUT) :
  exists ov' p', process_slice xs ov p = (Completed, (ov', p')) /\ Step Q p p'.
Proof.
  pose proof (process_slice_completed xs ov p) as Hc.
  pose proof (Step_process_slice HQ xs ov p) as Hs.
  destruct (process_slice xs ov p) as [sg [ov' p']]. simpl in *. subst sg. eauto.
Qed.

Lemma invoke_flush_cases (t : timestamp_t) (ov : list B) (p : Parent M X B OUT) :
  exists ov' p',
    (invoke_flush t ov p = (Completed, (ov', p')) /\ Step Q p p')
    \/ (invoke_flush t ov p = (Raised, (ov', p'))
        /\ Step Q p (ers Fatal AlgorithmFatalError p')).
Proof.
  pose proof (Step_flush_guarded HQ t ov p) as Hs.
  destruct (invoke_flush t ov p) as [[|] [ov' p']]; simpl in Hs; eauto.
Qed.

End StepCases.

(** ** Mode 3 *)

Section Mode3Facts.

Context {M A B IB OB : Type} {maker : Maker M A B}
        {ibuf : TimeSliceInputBuffer IB A}
        {obuf : TimeSliceOutputBuffer OB B}.

(** One iteration of the loop of [process]: the set popped, and then
    nothing, an accepted send, or a send that timed out with its two
    reports. *)
Lemma emit_step_cases (w : Mode3.Worker M A B IB OB) :
  let popped := fst (out_flush (Mode3.m_out_buffer w)) in
  let out := Mode3.stamp (Mode3.m_parent w) popped in
  let p := Mode3.m_parent w in
  let p' := Mode3.m_parent (Mode3.emit_step w) in
  Mode3.m_out_buffer (Mode3.emit_step w) = snd (out_flush (Mode3.m_out_buffer w))
  /\ ((sendable out = false /\ trace p' = trace p ++ [Popped popped]
       /\ m_sent_count p' = m_sent_count p)
      \/ (sendable out = true /\ trace p' = trace p ++ [Popped popped; Send out true]
          /\ m_sent_count p' = size_t_incr (m_sent_count p))
      \/ (sendable out = true
          /\ trace p' = trace p ++ [Popped popped; Send out false;
                                    Ers Warning TimeoutExpired;
                                    Ers Error AlgorithmFailedToSend]
          /\ m_sent_count p' = m_sent_count p)).
Proof.
  unfold Mode3.emit_step. destruct (out_flush (Mode3.m_out_buffer w)) as [popped ob].
  cbn [fst snd Mode3.m_parent Mode3.m_out_buffer]. split; [reflexivity|].
  set (p0 := log (Popped popped) (Mode3.m_parent w)).
  change (Mode3.stamp p0 popped) with (Mode3.stamp (Mode3.m_parent w) popped).
  set (out := Mode3.stamp (Mode3.m_parent w) popped).
  assert (Hs : (trace (forward out p0)
                = trace (Mode3.m_parent w) ++ [Popped popped; Send out true]
                /\ m_sent_count (forward out p0)
                   = size_t_incr (m_sent_count (Mode3.m_parent w)))
               \/ (trace (forward out p0)
                   = trace (Mode3.m_parent w)
                       ++ [Popped popped; Send out false; Ers Warning TimeoutExpired;
                           Ers Error AlgorithmFailedToSend]
                   /\ m_sent_count (forward out p0) = m_sent_count (Mode3.m_parent w))).
  { destruct (forward_cases out p0) as [[Et En]|[Et En]];
      [left|right]; rewrite Et, En; unfold p0; simpl;
      rewrite <- app_assoc; split; reflexivity. }
  unfold sendable. destruct (is_heartbeat out) eqn:Hh.
  - destruct Hs as [H|H]; [right; left|right; right]; simpl; tauto.
  - destruct (is_payload out && nonempty (objects out)) eqn:Hp.
    + destruct Hs as [H|H]; [right; left|right; right]; simpl; tauto.
    + left. simpl. auto.
Qed.

(** One iteration of the loop of [drain]: as in [process] when [drop] is
    off, and only the pop when it is on. *)
Lemma drain_step_cases (drop : bool) (w : Mode3.Worker M A B IB OB) :
  let popped := fst (out_flush (Mode3.m_out_buffer w)) in
  let p := Mode3.m_parent w in
  let p' := Mode3.m_parent (Mode3.drain_step drop w) in
  Mode3.m_out_buffer (Mode3.drain_step drop w) = snd (out_flush (Mode3.m_out_buffer w))
  /\ (if drop
      then trace p' = trace p ++ [Popped popped] /\ m_sent_count p' = m_sent_count p
      else Mode3.drain_step drop w = Mode3.emit_step w).
Proof.
  unfold Mode3.drain_step, Mode3.emit_step.
  destruct (out_flush (Mode3.m_out_buffer w)) as [popped ob]. simpl.
  split; [reflexivity|]. destruct drop; simpl.
  - destruct (is_heartbeat _); [auto|].
    destruct (is_payload _ && nonempty _); auto.
  - reflexivity.
Qed.

Section Discipline.

Variable Q : N -> list (Event A B (SetOf B)) -> N -> Prop.
Hypothesis HQ : Closed Q.

Lemma dispatch_Step (in_ : SetOf A) (w : Mode3.Worker M A B IB OB) :
  fst (fst (Mode3.dispatch in_ w)) <> Throw
  /\ Step Q (Mode3.m_parent w) (Mode3.m_parent (snd (Mode3.dispatch in_ w))).
Proof.
  unfold Mode3.dispatch. destruct (type in_).
  - simpl. split; [discriminate|apply Step_ers, HQ].
  - match goal with
    | |- context [if ?c then ?a else Mode3.m_parent w] =>
        set (p0 := if c then a else Mode3.m_parent w)
    end.
    assert (H0 : Step Q (Mode3.m_parent w) p0).
    { unfold p0. destruct (_ && _); [apply Step_ers|apply Step_refl]; exact HQ. }
    destruct (in_buffer in_ (Mode3.m_in_buffer w)) as [[[[slice s] e]|] b].
    + destruct (process_slice_cases HQ slice [] p0) as (ov' & p' & E & Hs).
      rewrite E. simpl. split; [discriminate|].
      eapply Step_trans; eassumption.
    + simpl. split; [discriminate|exact H0].
  - destruct (in_flush (Mode3.m_in_buffer w)) as [[[[slice s] e]|] b].
    + match goal with
      | |- context [if ?c then ?a else Mode3.m_parent w] =>
          set (p0 := if c then a else Mode3.m_parent w)
      end.
      assert (H0 : Step Q (Mode3.m_parent w) p0).
      { unfold p0. destruct (_ <? _)%N; [apply Step_ers|apply Step_refl]; exact HQ. }
      destruct (process_slice_cases HQ slice [] p0) as (ov' & p' & E & Hs).
      rewrite E.
      destruct (invoke_flush_cases HQ (end_time in_) ov' p')
        as (ov'' & p'' & [[E' Hs']|[E' Hs']]); rewrite E'; simpl;
        (split; [discriminate|]);
        (eapply (Step_trans HQ); [exact H0|]);
        (eapply (Step_trans HQ); [exact Hs|exact Hs']).
    + destruct (invoke_flush_cases HQ (end_time in_) [] (Mode3.m_parent w))
        as (ov'' & p'' & [[E' Hs']|[E' Hs']]); rewrite E'; simpl;
        (split; [discriminate|exact Hs']).
Qed.

Hypothesis Q_emit :
  forall w : Mode3.Worker M A B IB OB,
    Step Q (Mode3.m_parent w) (Mode3.m_parent (Mode3.emit_step w)).

Lemma process_Step (fuel : nat) (in_ : SetOf A) (w w' : Mode3.Worker M A B IB OB)
  (sg : Signal) :
  Mode3.process fuel in_ w = Some (sg, w') ->
  sg = Completed /\ Step Q (Mode3.m_parent w) (Mode3.m_parent w').
Proof.
  unfold Mode3.process. destruct (dispatch_Step in_ w) as [Hf Hs].
  destruct (Mode3.dispatch in_ w) as [[[| |] elems] w1]; simpl in *.
  - destruct (while_loop _ _ _ _) as [w3|] eqn:Hl; [|discriminate].
    intros H. injection H as <- <-. split; [reflexivity|].
    apply (while_loop_invariant _ _
             (fun w2 => Step Q (Mode3.m_parent w) (Mode3.m_parent w2))) in Hl;
      [apply Hl| |exact Hs].
    intros w2 H2 _. eapply (Step_trans HQ); [exact H2|apply Q_emit].
  - intros H. injection H as <- <-. auto.
  - contradiction.
Qed.

End Discipline.

Section DrainDiscipline.

Variable Q : N -> list (Event A B (SetOf B)) -> N -> Prop.
Hypothesis HQ : Closed Q.
Variable drop : bool.
Hypothesis Q_drain :
  forall w : Mode3.Worker M A B IB OB,
    Step Q (Mode3.m_parent w) (Mode3.m_parent (Mode3.drain_step drop w)).

Lemma drain_Step (fuel : nat) (w w' : Mode3.Worker M A B IB OB) (sg : Signal) :
  Mode3.drain fuel drop w = Some (sg, w') ->
  sg = Completed /\ Step Q (Mode3.m_parent w) (Mode3.m_parent w')
  /\ out_empty (Mode3.m_out_buffer w') = true.
Proof.
  unfold Mode3.drain.
  assert (H1 : exists w1,
             (let '(sg, w1) :=
                match in_flush (Mode3.m_in_buffer w) with
                | (Some (time_slice, _, _), b) =>
                    match process_slice time_slice [] (Mode3.m_parent w) with
                    | (sg, (elems, p)) =>
                        (sg, Mode3.mkWorker p b
                               (Mode3.buffer_elems elems (Mode3.m_out_buffer w))
                               (Mode3.m_prev_start_time w))
                    end
                | (None, b) =>
                    (Completed, Mode3.mkWorker (Mode3.m_parent w) b
                                  (Mode3.m_out_buffer w) (Mode3.m_prev_start_time w))
                end in (sg, w1)) = (Completed, w1)
             /\ Step Q (Mode3.m_parent w) (Mode3.m_parent w1)).
  { destruct (in_flush (Mode3.m_in_buffer w)) as [[[[slice s] e]|] b].
    - destruct (process_slice_cases HQ slice [] (Mode3.m_parent w))
        as (ov' & p' & E & Hs). rewrite E. eexists. split; [reflexivity|exact Hs].
    - eexists. split; [reflexivity|apply Step_refl, HQ]. }
  destruct H1 as (w1 & E & Hs).
  destruct (match in_flush (Mode3.m_in_buffer w) with
            | (Some _, _) => _ | (None, _) => _ end) as [sg1 w1'].
  injection E as -> ->.
  destruct (while_loop _ _ _ _) as [w2|] eqn:Hl; [|discriminate].
  intros H. injection H as <- <-. split; [reflexivity|].
  apply (while_loop_invariant _ _
           (fun w2 => Step Q (Mode3.m_parent w) (Mode3.m_parent w2))) in Hl;
    [| |exact Hs].
  - destruct Hl as [Hl Hc]. split; [exact Hl|].
    now destruct (out_empty (Mode3.m_out_buffer w2)).
  - intros w3 H3 _. eapply (Step_trans HQ); [exact H3|apply Q_drain].
Qed.

End DrainDiscipline.

End Mode3Facts.

(** ** The output buffer of the specification drains *)

Lemma fold_min_attained (a : N) (l : list N) : In (fold_right N.min a l) (a :: l).
Proof.
induction l as [|b l IH]; [now left|].
simpl fold_right. destruct (N.min_spec b (fold_right N.min a l)) as [[_ ->]|[_ ->]].
- right. now left.
- destruct IH as [IH|IH]; [now left|right; now right].
Qed.

Lemma filter_out_shorter {T} (f : T -> bool) (l : list T) (x : T) :
  In x l -> f x = true -> length (filter (fun y => negb (f y)) l) < length l.
Proof.
induction l as [|y l IH]; intros Hin Hf; [contradiction|].
simpl. destruct Hin as [->|Hin].
- rewrite Hf. simpl. pose proof (filter_length_le (fun y => negb (f y)) l). lia.
- specialize (IH Hin Hf). destruct (negb (f y)); simpl; lia.
Qed.

Lemma spec_output_drains {B : Type} {timed : Timed B} :
  Drains (ob := SpecOutput.ops) (SpecOutput.size (B := B)).
Proof.
split.
- intros b He. simpl in *. unfold SpecOutput.flush, SpecOutput.next_item,
    SpecOutput.earliest_window, SpecOutput.empty, SpecOutput.size in *.
  destruct (SpecOutput.pending b) as [|x l] eqn:Ep.
  + destruct (SpecOutput.heartbeats b) as [|hb hbs] eqn:Eh; [discriminate|].
    simpl. lia.
  + assert (Hw : length
                   (filter (fun y => negb (SpecOutput.in_window b
                              (fold_right N.min (SpecOutput.window_of b x)
                                 (map (SpecOutput.window_of b) l)) y)) (x :: l))
                 < length (x :: l)).
    { destruct (fold_min_attained (SpecOutput.window_of b x)
                  (map (SpecOutput.window_of b) l)) as [H|H].
      - apply filter_out_shorter with (x := x); [now left|].
        unfold SpecOutput.in_window. rewrite <- H. apply N.eqb_refl.
      - apply in_map_iff in H. destruct H as (y & Hy & Hin).
        apply filter_out_shorter with (x := y); [now right|].
        unfold SpecOutput.in_window. rewrite Hy. apply N.eqb_refl. }
    destruct (SpecOutput.heartbeats b) as [|hb hbs] eqn:Eh.
    * simpl in *. lia.
    * destruct (_ <=? _)%N; simpl in *; lia.
- intros b Hr. simpl in *. unfold SpecOutput.ready, SpecOutput.next_item,
    SpecOutput.earliest_window, SpecOutput.empty in *.
  destruct (SpecOutput.pending b); [|reflexivity].
  destruct (SpecOutput.heartbeats b); [discriminate|reflexivity].
Qed.

(** ** Mode 3 settles *)

Section Mode3Settles.

Context {M A B IB OB : Type} {maker : Maker M A B}
        {ibuf : TimeSliceInputBuffer IB A}
        {obuf : TimeSliceOutputBuffer OB B}.

Variable pending : OB -> nat.
Hypothesis D : Drains pending.

Lemma emit_loop_settles (w : Mode3.Worker M A B IB OB) :
  exists w',
    SettlesTo
      (fun fuel =>
         while_loop fuel (fun w2 => out_ready (Mode3.m_out_buffer w2)) Mode3.emit_step w)
      w'.
Proof.
apply (@while_loop_settles _ _ _ (fun w2 => pending (Mode3.m_out_buffer w2))).
intros w2 C. rewrite (proj1 (emit_step_cases w2)).
apply (flush_progress D), (ready_not_empty D), C.
Qed.

Lemma drain_loop_settles (drop : bool) (w : Mode3.Worker M A B IB OB) :
  exists w',
    SettlesTo
      (fun fuel =>
         while_loop fuel (fun w2 => negb (out_empty (Mode3.m_out_buffer w2)))
           (Mode3.drain_step drop) w)
      w'.
Proof.
apply (@while_loop_settles _ _ _ (fun w2 => pending (Mode3.m_out_buffer w2))).
intros w2 C. rewrite (proj1 (drain_step_cases drop w2)).
apply (flush_progress D). now destruct (out_empty (Mode3.m_out_buffer w2)).
Qed.

Lemma process_settles (in_ : SetOf A) (w : Mode3.Worker M A B IB OB) :
  exists w', SettlesTo (fun fuel => Mode3.process fuel in_ w) (Completed, w').
Proof.
unfold Mode3.process.
destruct (dispatch_Step (Q := fun _ _ _ => True)) with (in_ := in_) (w := w)
  as [Hf _]; [split; auto|].
destruct (Mode3.dispatch in_ w) as [[[| |] elems] w1]; simpl in *.
- match goal with
  | |- context [while_loop _ _ _ ?st] =>
      destruct (emit_loop_settles st) as (w3 & f0 & H3)
  end.
  exists w3, f0. intros fuel L. now rewrite (H3 fuel L).
- eexists. apply settles_const.
- contradiction.
Qed.

Lemma drain_settles (drop : bool) (w : Mode3.Worker M A B IB OB) :
  exists w', SettlesTo (fun fuel => Mode3.drain fuel drop w) (Completed, w').
Proof.
unfold Mode3.drain.
destruct (in_flush (Mode3.m_in_buffer w)) as [[[[slice s] e]|] b].
- destruct (process_slice_spec slice [] (Mode3.m_parent w)) as (p' & E & _).
  rewrite E.
  match goal with
  | |- context [while_loop _ _ _ ?st] =>
      destruct (drain_loop_settles drop st) as (w3 & f0 & H3)
  end.
  exists w3, f0. intros fuel L. now rewrite (H3 fuel L).
- match goal with
  | |- context [while_loop _ _ _ ?st] =>
      destruct (drain_loop_settles drop st) as (w3 & f0 & H3)
  end.
  exists w3, f0. intros fuel L. now rewrite (H3 fuel L).
Qed.

End Mode3Settles.

(** ** The worker loop *)

Section LifecycleFacts.

Context {W IN M X B OUT : Type} {ops : WorkerOps W IN M X B OUT}.

Section Settles.

Hypothesis process_settles' :
  forall in_ w, exists w', SettlesTo (fun fuel => worker_process fuel in_ w) (Completed, w').
Hypothesis drain_settles' :
  forall w, exists w', SettlesTo (fun fuel => worker_drain fuel true w) (Completed, w').

Lemma receive_loop_settles (rx : list (option IN)) (w : W) :
  exists w' rx', SettlesTo (fun fuel => receive_loop fuel rx w) (Completed, w', rx').
Proof.
revert w. induction rx as [|[in_|] rx IH]; intros w.
- exists w, []. apply settles_const.
- simpl.
  destruct (process_settles' in_
              (with_parent
                 (set_received_count (size_t_incr (m_received_count (parent w)))
                    (parent w)) w)) as (w2 & H2).
  destruct (IH w2) as (w' & rx' & H').
  exists w', rx'.
  eapply settles_bind with
    (g := fun fuel r =>
            match r with
            | (Completed, w2) => receive_loop fuel rx w2
            | (Raised, w2) => Some (Raised, w2, rx)
            end); [exact H2|exact H'|].
  intros fuel E. now rewrite E.
- exists w, rx. apply settles_const.
Qed.

Lemma exit_work_settles (rx : list (option IN)) (w : W) :
  exists w', SettlesTo (fun fuel => exit_work fuel rx w) (Completed, w', rx).
Proof.
destruct (drain_settles' w) as (w1 & f0 & H1).
exists (worker_reset w1), f0. intros fuel L. unfold exit_work. now rewrite (H1 fuel L).
Qed.

Lemma do_work_settles (running_flag : list bool) (rx : list (option IN)) (w : W) :
  exists w' rx', SettlesTo (fun fuel => do_work fuel running_flag rx w) (Completed, w', rx').
Proof.
revert rx w. induction running_flag as [|[|] later IH]; intros rx w.
- destruct (exit_work_settles rx w) as (w' & H). exists w', rx. exact H.
- destruct (receive_loop_settles rx w) as (w1 & rx1 & H1).
  destruct (IH rx1 w1) as (w' & rx' & H').
  exists w', rx'.
  eapply settles_bind with
    (g := fun fuel r =>
            match r with
            | (Completed, w1, rx1) => do_work fuel later rx1 w1
            | other => Some other
            end); [exact H1|exact H'|].
  intros fuel E. simpl. now rewrite E.
- destruct (exit_work_settles rx w) as (w' & H). exists w', rx. exact H.
Qed.

End Settles.

Section Discipline.

Variable Q : N -> list (Event X B OUT) -> N -> Prop.
Hypothesis HQ : Closed Q.
Hypothesis parent_with_parent : forall p (w : W), parent (with_parent p w) = p.
Hypothesis parent_reset : forall w : W, parent (worker_reset w) = parent w.
Hypothesis process_Q :
  forall fuel in_ (w w' : W) sg,
    worker_process fuel in_ w = Some (sg, w') ->
    sg = Completed /\ Step Q (parent w) (parent w').
Hypothesis drain_Q :
  forall fuel (w w' : W) sg,
    worker_drain fuel true w = Some (sg, w') ->
    sg = Completed /\ Step Q (parent w) (parent w').

Lemma receive_loop_Step (fuel : nat) (rx rx' : list (option IN)) (w w' : W) (sg : Signal) :
  receive_loop fuel rx w = Some (sg, w', rx') ->
  sg = Completed /\ Step Q (parent w) (parent w').
Proof.
revert w. induction rx as [|[in_|] rx IH]; intros w H; simpl in H.
- injection H as <- <- <-. split; [reflexivity|apply Step_refl, HQ].
- destruct (worker_process fuel in_ _) as [[sg1 w1]|] eqn:E; [|discriminate].
  destruct (process_Q _ _ _ E) as [-> Hs].
  destruct (IH _ H) as [-> Hs']. split; [reflexivity|].
  eapply (Step_trans HQ); [|exact Hs'].
  eapply (Step_trans HQ); [|exact Hs].
  apply Step_same; [exact HQ| |]; rewrite parent_with_parent; reflexivity.
- injection H as <- <- <-. split; [reflexivity|apply Step_refl, HQ].
Qed.

Lemma exit_work_Step (fuel : nat) (rx rx' : list (option IN)) (w w' : W) (sg : Signal) :
  exit_work fuel rx w = Some (sg, w', rx') ->
  sg = Completed /\ Step Q (parent w) (parent w').
Proof.
unfold exit_work. destruct (worker_drain fuel true w) as [[sg1 w1]|] eqn:E; [|discriminate].
destruct (drain_Q _ _ E) as [-> Hs]. intros H. injection H as <- <- <-.
rewrite parent_reset. auto.
Qed.

Lemma do_work_Step (fuel : nat) (running_flag : list bool) (rx rx' : list (option IN))
  (w w' : W) (sg : Signal) :
  do_work fuel running_flag rx w = Some (sg, w', rx') ->
  sg = Completed /\ Step Q (parent w) (parent w').
Proof.
revert rx w. induction running_flag as [|[|] later IH]; intros rx w H; simpl in H.
- eapply exit_work_Step, H.
- destruct (receive_loop fuel rx w) as [[[sg1 w1] rx1]|] eqn:E; [|discriminate].
  apply receive_loop_Step in E. destruct E as [-> Hs].
  destruct (IH _ _ H) as [-> Hs']. split; [reflexivity|].
  eapply (Step_trans HQ); eassumption.
- eapply exit_work_Step, H.
Qed.

End Discipline.

End LifecycleFacts.

(** ** Sequence numbers *)

Section Numbering.

Context {X B : Type}.

Lemma size_t_incr_lt (n : N) : (size_t_incr n < size_t_modulus)%N.
Proof. apply N.mod_lt. discriminate. Qed.

Lemma advance_app (n : N) (l1 l2 : list (SetOf B * bool)) :
  advance n (l1 ++ l2) = advance (advance n l1) l2.
Proof.
revert n. induction l1 as [|[o ok] l1 IH]; intros n; [reflexivity|]. simpl. apply IH.
Qed.

Lemma numbered_app (n : N) (l1 l2 : list (SetOf B * bool)) :
  numbered n (l1 ++ l2) <-> numbered n l1 /\ numbered (advance n l1) l2.
Proof.
revert n. induction l1 as [|[o ok] l1 IH]; intros n; simpl; [tauto|].
rewrite IH. tauto.
Qed.

Lemma Numbered_closed : Closed (@Numbered X B).
Proof.
split; unfold Numbered; simpl; auto.
intros n m k t1 t2 [H1 ->] [H2 ->]. rewrite sends_app, advance_app.
split; [apply numbered_app; auto|reflexivity].
Qed.

(** The sets the channel took carry increasing numbers, as long as the
    counter does not wrap. *)
Lemma numbered_sorted (l : list (SetOf B * bool)) (n : N) :
  numbered n l -> (n < size_t_modulus)%N ->
  (n + N.of_nat (length (filter snd l)) <= size_t_modulus)%N ->
  StronglySorted N.lt (map (@seqno B) (map fst (filter snd l)))
  /\ Forall (fun s => (n <= s)%N) (map (@seqno B) (map fst (filter snd l))).
Proof.
revert n. induction l as [|[o [|]] l IH]; intros n Hn Hlt Hlen; simpl in *.
- split; constructor.
- destruct Hn as [Ho Hn]. unfold size_t_incr in Hn.
  destruct (N.eq_dec (n + 1) size_t_modulus) as [E|E].
  + assert (filter snd l = []) as -> by (destruct (filter snd l); [reflexivity|simpl in *; lia]).
    simpl. split; repeat constructor. lia.
  + rewrite N.mod_small in Hn by lia.
    destruct (IH _ Hn) as [Hs Hf]; [lia|lia|].
    split; constructor; try assumption; try lia.
    * eapply Forall_impl; [|exact Hf]. simpl. intros; lia.
    * eapply Forall_impl; [|exact Hf]. simpl. intros; lia.
- destruct Hn as [_ Hn]. apply IH; assumption.
Qed.

(** The set of rank [i] among those the channel took carries the number
    [n + i], up to the width of the counter. *)
Lemma numbered_nth (l : list (SetOf B * bool)) (n : N) (i : nat) (o : SetOf B) :
  numbered n l -> (n < size_t_modulus)%N ->
  nth_error (map fst (filter snd l)) i = Some o ->
  seqno o = ((n + N.of_nat i) mod size_t_modulus)%N.
Proof.
revert n i. induction l as [|[o' [|]] l IH]; intros n i Hn Hlt Hi; simpl in *.
- destruct i; discriminate.
- destruct Hn as [Ho Hn]. destruct i as [|i]; simpl in Hi.
  + injection Hi as <-. rewrite N.add_0_r, N.mod_small; assumption.
  + rewrite (IH _ _ Hn (size_t_incr_lt n) Hi). unfold size_t_incr.
    rewrite N.Div0.add_mod_idemp_l. f_equal. lia.
- destruct Hn as [_ Hn]. eapply IH; eassumption.
Qed.

(** The attempt that follows a send that timed out carries the same
    number. *)
Lemma numbered_after_failure (l1 l2 : list (SetOf B * bool)) (n : N)
  (o1 o2 : SetOf B) (ok : bool) :
  numbered n (l1 ++ (o1, false) :: (o2, ok) :: l2) -> seqno o2 = seqno o1.
Proof.
intros H. apply numbered_app in H. destruct H as [_ H]. simpl in H.
destruct H as [-> [-> _]]. reflexivity.
Qed.

End Numbering.

Section Mode3Numbering.

Context {M A B IB OB : Type} {maker : Maker M A B}
        {ibuf : TimeSliceInputBuffer IB A}
        {obuf : TimeSliceOutputBuffer OB B}.

Lemma Numbered_emit (w : Mode3.Worker M A B IB OB) :
  Step (@Numbered A B) (Mode3.m_parent w) (Mode3.m_parent (Mode3.emit_step w)).
Proof.
destruct (emit_step_cases w) as [_ [(_ & Et & En)|[(_ & Et & En)|(_ & Et & En)]]];
  eexists; (split; [exact Et|]); rewrite En; unfold Numbered; simpl; auto.
Qed.

Lemma Numbered_drain (drop : bool) (w : Mode3.Worker M A B IB OB) :
  Step (@Numbered A B) (Mode3.m_parent w) (Mode3.m_parent (Mode3.drain_step drop w)).
Proof.
destruct (drain_step_cases drop w) as [_ H]. destruct drop.
- destruct H as [Et En]. eexists. split; [exact Et|]. rewrite En.
  unfold Numbered. simpl. auto.
- rewrite H. apply Numbered_emit.
Qed.

(** A whole run numbers its send attempts from the counter it starts
    with. *)
Lemma do_work_Numbered (fuel : nat) (running_flag : list bool)
  (rx rx' : list (option (SetOf A))) (w w' : Mode3.Worker M A B IB OB) (sg : Signal) :
  do_work fuel running_flag rx w = Some (sg, w', rx') ->
  sg = Completed /\ Step (@Numbered A B) (Mode3.m_parent w) (Mode3.m_parent w').
Proof.
apply (do_work_Step (ops := Mode3_ops) Numbered_closed); try reflexivity.
- intros f in_ w1 w2 sg1. apply (process_Step Numbered_closed), Numbered_emit.
- intros f w1 w2 sg1 H.
  apply (@drain_Step _ _ _ _ _ _ _ _ _ Numbered_closed true (Numbered_drain true)) in H.
  destruct H as (-> & Hs & _). auto.
Qed.

End Mode3Numbering.

(** ** What Mode 3 hands to [send] *)

Section Mode3Sends.

Context {M A B IB OB : Type} {maker : Maker M A B}
        {ibuf : TimeSliceInputBuffer IB A}
        {obuf : TimeSliceOutputBuffer OB B}.

Lemma heartbeats_forwarded_app (t1 t2 : list (Event A B (SetOf B))) :
  heartbeats_forwarded t1 -> heartbeats_forwarded t2 -> heartbeats_forwarded (t1 ++ t2).
Proof.
intros H1 H2. induction t1 as [|e t1 IH]; [exact H2|].
destruct e; simpl in *; auto.
destruct H1 as [Hh H1]. split; [|auto].
intros Hb. specialize (Hh Hb). destruct t1 as [|[] t1]; simpl; try contradiction.
exact Hh.
Qed.

Lemma Guarded_closed : Closed (@Guarded A B).
Proof.
split; unfold Guarded; intros; try (repeat constructor; fail).
apply Forall_app. auto.
Qed.

Lemma Forwarding_closed : Closed (@Forwarding A B).
Proof.
split; unfold Forwarding; intros; simpl; auto.
apply heartbeats_forwarded_app; assumption.
Qed.

Lemma Silent_closed : Closed (@Silent A B (SetOf B)).
Proof.
split; unfold Silent; intros; simpl; auto.
destruct H as [H1 ->], H0 as [H2 ->]. rewrite sends_app, H1, H2. auto.
Qed.

Lemma sendable_payload (out : SetOf B) :
  sendable out = true -> is_payload out = true -> objects out <> [].
Proof.
unfold sendable, is_heartbeat, is_payload. destruct (type out); simpl; try discriminate.
destruct (objects out); [discriminate|]. intros _ _. discriminate.
Qed.

Lemma Guarded_emit (w : Mode3.Worker M A B IB OB) :
  Step (@Guarded A B) (Mode3.m_parent w) (Mode3.m_parent (Mode3.emit_step w)).
Proof.
destruct (emit_step_cases w) as [_ [(Hs & Et & _)|[(Hs & Et & _)|(Hs & Et & _)]]];
  eexists; (split; [exact Et|]); unfold Guarded.
- repeat constructor.
- constructor; [exact I|]. constructor; [|constructor].
  exact (sendable_payload _ Hs).
- constructor; [exact I|]. constructor; [|repeat constructor].
  exact (sendable_payload _ Hs).
Qed.

Lemma Forwarding_emit (w : Mode3.Worker M A B IB OB) :
  Step (@Forwarding A B) (Mode3.m_parent w) (Mode3.m_parent (Mode3.emit_step w)).
Proof.
destruct (emit_step_cases w) as [_ [(Hs & Et & _)|[(Hs & Et & _)|(Hs & Et & _)]]];
  eexists; (split; [exact Et|]); unfold Forwarding; simpl; (split; [|exact I]).
- intros Hb. unfold sendable, Mode3.stamp, is_heartbeat in *. simpl in Hs.
  rewrite Hb in Hs. discriminate.
- intros _. repeat split.
- intros _. repeat split.
Qed.

Lemma Silent_drain (w : Mode3.Worker M A B IB OB) :
  Step (@Silent A B (SetOf B)) (Mode3.m_parent w)
    (Mode3.m_parent (Mode3.drain_step true w)).
Proof.
destruct (drain_step_cases true w) as [_ [Et En]].
eexists. split; [exact Et|]. split; [reflexivity|exact En].
Qed.

Lemma Guarded_drain (drop : bool) (w : Mode3.Worker M A B IB OB) :
  Step (@Guarded A B) (Mode3.m_parent w) (Mode3.m_parent (Mode3.drain_step drop w)).
Proof.
destruct (drain_step_cases drop w) as [_ H]. destruct drop.
- destruct H as [Et _]. eexists. split; [exact Et|]. repeat constructor.
- rewrite H. apply Guarded_emit.
Qed.

(** A call of [process]: no payload set without objects was handed to
    [send], and every heartbeat popped was. *)
Lemma process_sends (fuel : nat) (in_ : SetOf A) (w w' : Mode3.Worker M A B IB OB)
  (sg : Signal) :
  Mode3.process fuel in_ w = Some (sg, w') ->
  sg = Completed
  /\ exists t,
       trace (Mode3.m_parent w') = trace (Mode3.m_parent w) ++ t
       /\ Forall payload_nonempty t /\ heartbeats_forwarded t.
Proof.
intros H0.
destruct (process_Step Guarded_closed Guarded_emit _ _ _ H0) as [-> (t & Et & Hg)].
destruct (process_Step Forwarding_closed Forwarding_emit _ _ _ H0) as [_ (t' & Et' & Hf)].
rewrite Et in Et'. apply app_inv_head in Et'. subst t'.
split; [reflexivity|]. exists t. auto.
Qed.

Lemma Forwarding_drain (w : Mode3.Worker M A B IB OB) :
  Step (@Forwarding A B) (Mode3.m_parent w) (Mode3.m_parent (Mode3.drain_step false w)).
Proof. rewrite (proj2 (drain_step_cases false w)). apply Forwarding_emit. Qed.

(** [drain(false)] does as [process] does. *)
Lemma drain_keep_sends (fuel : nat) (w w' : Mode3.Worker M A B IB OB) (sg : Signal) :
  Mode3.drain fuel false w = Some (sg, w') ->
  sg = Completed
  /\ exists t,
       trace (Mode3.m_parent w') = trace (Mode3.m_parent w) ++ t
       /\ Forall payload_nonempty t /\ heartbeats_forwarded t.
Proof.
intros H0.
destruct (@drain_Step _ _ _ _ _ _ _ _ _ Guarded_closed false (Guarded_drain false)
            _ _ _ _ H0) as (-> & (t & Et & Hg) & _).
destruct (@drain_Step _ _ _ _ _ _ _ _ _ Forwarding_closed false Forwarding_drain
            _ _ _ _ H0) as (_ & (t' & Et' & Hf) & _).
rewrite Et in Et'. apply app_inv_head in Et'. subst t'.
split; [reflexivity|]. exists t. auto.
Qed.

(** [drain(true)] leaves the output buffer empty, with nothing handed to
    [send] and [m_sent_count] as it was. *)
Lemma drain_drop_silent (fuel : nat) (w w' : Mode3.Worker M A B IB OB) (sg : Signal) :
  Mode3.drain fuel true w = Some (sg, w') ->
  sg = Completed
  /\ (exists t,
         trace (Mode3.m_parent w') = trace (Mode3.m_parent w) ++ t /\ sends t = [])
  /\ m_sent_count (Mode3.m_parent w') = m_sent_count (Mode3.m_parent w)
  /\ out_empty (Mode3.m_out_buffer w') = true.
Proof.
intros H0.
destruct (@drain_Step _ _ _ _ _ _ _ _ _ Silent_closed true Silent_drain
            _ _ _ _ H0) as (-> & (t & Et & Hs & Hn) & He).
split; [reflexivity|]. split; [exists t; auto|]. auto.
Qed.

End Mode3Sends.

(** ** Failures of the algorithm *)

Section Reporting.

Context {X B OUT : Type}.

Lemma reported_app (t1 t2 : list (Event X B OUT)) :
  reported t1 = true -> reported (t1 ++ t2) = reported t2.
Proof.
induction t1 as [|e t1 IH]; intros H; [reflexivity|].
destruct e as [sev i|x outs [|]|t outs [|]|o|o ok]; simpl in *; auto;
  destruct t1 as [|[[| |] [| | | |]| | | |] t1]; try discriminate; simpl in *; auto.
Qed.

Lemma Reported_closed : Closed (@Reported X B OUT).
Proof.
split; unfold Reported; intros; try reflexivity.
rewrite reported_app; assumption.
Qed.

Lemma Reported_sending : Sending (@Reported X B OUT).
Proof. intros n o. split; reflexivity. Qed.

End Reporting.

Lemma send_loop_settles {M X B OUT : Type} (ov : list OUT) (p : Parent M X B OUT) :
  exists p',
    SettlesTo
      (fun fuel => while_loop fuel (fun s => nonempty (fst s)) send_back (ov, p))
      ([], p').
Proof.
destruct (send_loop_terminates ov p (fuel := S (length ov))) as [p' H]; [lia|].
exists p', (S (length ov)). intros fuel L.
eapply while_loop_mono; eassumption.
Qed.

Section Mode1Facts.

Context {M IN OUT : Type} {maker : Maker M IN OUT}.

Variable Q : N -> list (Event IN OUT OUT) -> N -> Prop.
Hypothesis HQ : Closed Q.
Hypothesis HS : Sending Q.

Lemma mode1_process_Step (fuel : nat) (in_ : IN) (w w' : Mode1.Worker M IN OUT)
  (sg : Signal) :
  Mode1.process fuel in_ w = Some (sg, w') ->
  sg = Completed /\ Step Q (Mode1.m_parent w) (Mode1.m_parent w').
Proof.
unfold Mode1.process, invoke_apply.
destruct (signal (maker_apply (m_maker (Mode1.m_parent w)) in_)) eqn:Sg.
- destruct (while_loop _ _ _ _) as [[ov p']|] eqn:Hl; [|discriminate].
  intros H. injection H as <- <-. split; [reflexivity|]. simpl.
  eapply (Step_trans HQ);
    [|eapply Step_send_loop; [exact HQ|exact HS|exact Hl]].
  eexists. split; [reflexivity|]. simpl. apply HQ.
- intros H. injection H as <- <-. split; [reflexivity|]. simpl.
  eexists. split; [simpl; rewrite <- app_assoc; reflexivity|]. simpl. apply HQ.
Qed.

Lemma mode1_process_settles (in_ : IN) (w : Mode1.Worker M IN OUT) :
  exists w', SettlesTo (fun fuel => Mode1.process fuel in_ w) (Completed, w').
Proof.
unfold Mode1.process.
destruct (invoke_apply in_ [] (Mode1.m_parent w)) as [[|] [ov p]].
- destruct (send_loop_settles ov p) as (p' & f0 & H).
  exists (Mode1.mkWorker p'), f0. intros fuel L. now rewrite (H fuel L).
- eexists. apply settles_const.
Qed.

End Mode1Facts.

Section Mode2Steps.

Context {M A OUT IB : Type} {maker : Maker M A OUT}
        {ibuf : TimeSliceInputBuffer IB A}.

Variable Q : N -> list (Event A OUT OUT) -> N -> Prop.
Hypothesis HQ : Closed Q.
Hypothesis HS : Sending Q.

Lemma mode2_dispatch_Step (in_ : SetOf A) (w : Mode2.Worker M A OUT IB) :
  fst (fst (Mode2.dispatch in_ w)) <> Throw
  /\ Step Q (Mode2.m_parent w) (Mode2.m_parent (snd (Mode2.dispatch in_ w))).
Proof.
unfold Mode2.dispatch. destruct (type in_).
- simpl. split; [discriminate|apply Step_ers, HQ].
- destruct (in_buffer in_ (Mode2.m_in_buffer w)) as [[[[slice s] e]|] b].
  + destruct (process_slice_cases HQ slice [] (Mode2.m_parent w))
      as (ov' & p' & E & Hs).
    rewrite E. simpl. split; [discriminate|exact Hs].
  + simpl. split; [discriminate|apply Step_refl, HQ].
- destruct (in_flush (Mode2.m_in_buffer w)) as [[[[slice s] e]|] b].
  + match goal with
    | |- context [if ?c then ?a else Mode2.m_parent w] =>
        set (p0 := if c then a else Mode2.m_parent w)
    end.
    assert (H0 : Step Q (Mode2.m_parent w) p0).
    { unfold p0. destruct (_ <? _)%N; [apply Step_ers|apply Step_refl]; exact HQ. }
    destruct (process_slice_cases HQ slice [] p0) as (ov' & p' & E & Hs).
    rewrite E.
    destruct (invoke_flush_cases HQ (end_time in_) ov' p')
      as (ov'' & p'' & [[E' Hs']|[E' Hs']]); rewrite E'; simpl;
      (split; [discriminate|]);
      (eapply (Step_trans HQ); [exact H0|]);
      (eapply (Step_trans HQ); [exact Hs|exact Hs']).
  + destruct (invoke_flush_cases HQ (end_time in_) [] (Mode2.m_parent w))
      as (ov'' & p'' & [[E' Hs']|[E' Hs']]); rewrite E'; simpl;
      (split; [discriminate|exact Hs']).
Qed.

Lemma mode2_process_Step (fuel : nat) (in_ : SetOf A) (w w' : Mode2.Worker M A OUT IB)
  (sg : Signal) :
  Mode2.process fuel in_ w = Some (sg, w') ->
  sg = Completed /\ Step Q (Mode2.m_parent w) (Mode2.m_parent w').
Proof.
unfold Mode2.process. destruct (mode2_dispatch_Step in_ w) as [Hf Hs].
destruct (Mode2.dispatch in_ w) as [[[| |] ov] w1]; simpl in *.
- destruct (while_loop _ _ _ _) as [[ov' p']|] eqn:Hl; [|discriminate].
  intros H. injection H as <- <-. split; [reflexivity|]. simpl.
  eapply (Step_trans HQ);
    [exact Hs|eapply Step_send_loop; [exact HQ|exact HS|exact Hl]].
- intros H. injection H as <- <-. auto.
- contradiction.
Qed.

Lemma mode2_process_settles (in_ : SetOf A) (w : Mode2.Worker M A OUT IB) :
  exists w', SettlesTo (fun fuel => Mode2.process fuel in_ w) (Completed, w').
Proof.
unfold Mode2.process. destruct (mode2_dispatch_Step in_ w) as [Hf _].
destruct (Mode2.dispatch in_ w) as [[[| |] ov] w1]; simpl in *.
- destruct (send_loop_settles ov (Mode2.m_parent w1)) as (p' & f0 & H).
  eexists. exists f0. intros fuel L. now rewrite (H fuel L).
- eexists. apply settles_const.
- contradiction.
Qed.

End Mode2Steps.

Section Mode3Reporting.

Context {M A B IB OB : Type} {maker : Maker M A B}
        {ibuf : TimeSliceInputBuffer IB A}
        {obuf : TimeSliceOutputBuffer OB B}.

Lemma Reported_emit (w : Mode3.Worker M A B IB OB) :
  Step (@Reported A B (SetOf B)) (Mode3.m_parent w) (Mode3.m_parent (Mode3.emit_step w)).
Proof.
destruct (emit_step_cases w) as [_ [(_ & Et & _)|[(_ & Et & _)|(_ & Et & _)]]];
  eexists; (split; [exact Et|reflexivity]).
Qed.

End Mode3Reporting.

Section Containing.

Context {W IN M X B OUT : Type} {ops : WorkerOps W IN M X B OUT}.

Lemma receive_loop_rest (fuel : nat) (rx rx' : list (option IN)) (w w' : W) :
  receive_loop fuel rx w = Some (Completed, w', rx') -> rx' = after_timeout rx.
Proof.
revert w. induction rx as [|[in_|] rx IH]; intros w H; simpl in *.
- now injection H as _ <-.
- destruct (worker_process fuel in_ _) as [[[|] w1]|]; try discriminate.
  eapply IH, H.
- now injection H as _ <-.
Qed.

Hypothesis parent_with_parent : forall p (w : W), parent (with_parent p w) = p.
Hypothesis process_reported :
  forall fuel in_ (w w' : W) sg,
    worker_process fuel in_ w = Some (sg, w') ->
    sg = Completed /\ Step (@Reported X B OUT) (parent w) (parent w').

Lemma contains_of_steps : Contains ops.
Proof.
split.
- intros in_ w fuel [sg w'] H. apply process_reported in H. exact H.
- intros rx w fuel [[sg w'] rx'] H. simpl.
  destruct (receive_loop_Step Reported_closed parent_with_parent process_reported
              _ _ _ H) as [-> Hs].
  split; [reflexivity|]. split; [eapply receive_loop_rest, H|exact Hs].
Qed.

Lemma continues_of_steps : Continues ops.
Proof.
intros fuel rx. induction rx as [|[in_|] rx IH]; intros w r H; simpl in *.
- injection H as <-. exists w. auto.
- destruct (worker_process fuel in_ _) as [[[|] w1]|] eqn:Hp; try discriminate.
  + apply IH, H.
  + apply process_reported in Hp. destruct Hp as [Hp _]. discriminate.
- injection H as <-. exists w. auto.
Qed.

Hypothesis process_settles' :
  forall in_ w, exists w', SettlesTo (fun fuel => worker_process fuel in_ w) (Completed, w').

Lemma settling_of_process : Settling ops.
Proof.
split.
- intros in_ w. destruct (process_settles' in_ w) as (w' & H). eexists. exact H.
- intros rx w. destruct (receive_loop_settles process_settles' rx w) as (w' & rx' & H).
  eexists. exact H.
Qed.

End Containing.

(** ** What a call of [process] leaves behind *)

Section Mode3Process.

Context {M A B IB OB : Type} {maker : Maker M A B}
        {ibuf : TimeSliceInputBuffer IB A}
        {obuf : TimeSliceOutputBuffer OB B}.

(** The loop of [process] adds to the trace and leaves the input buffer and
    [m_prev_start_time] as the [switch] left them. *)
Lemma process_after_dispatch (fuel : nat) (in_ : SetOf A)
  (w w' : Mode3.Worker M A B IB OB) (sg : Signal) :
  Mode3.process fuel in_ w = Some (sg, w') ->
  exists t,
    trace (Mode3.m_parent w') = trace (Mode3.m_parent (snd (Mode3.dispatch in_ w))) ++ t
    /\ Mode3.m_in_buffer w' = Mode3.m_in_buffer (snd (Mode3.dispatch in_ w))
    /\ Mode3.m_prev_start_time w'
       = Mode3.m_prev_start_time (snd (Mode3.dispatch in_ w)).
Proof.
unfold Mode3.process.
destruct (Mode3.dispatch in_ w) as [[[| |] elems] w1]; simpl.
- destruct (while_loop _ _ _ _) as [w3|] eqn:Hl; [|discriminate].
  intros H. injection H as _ <-.
  apply (while_loop_invariant _ _
           (fun w2 =>
              exists t,
                trace (Mode3.m_parent w2) = trace (Mode3.m_parent w1) ++ t
                /\ Mode3.m_in_buffer w2 = Mode3.m_in_buffer w1
                /\ Mode3.m_prev_start_time w2 = Mode3.m_prev_start_time w1)) in Hl.
  + apply Hl.
  + intros w2 (t & Et & Eb & Ep) _.
    assert (Hk : Mode3.m_in_buffer (Mode3.emit_step w2) = Mode3.m_in_buffer w2
                 /\ Mode3.m_prev_start_time (Mode3.emit_step w2)
                    = Mode3.m_prev_start_time w2).
    { unfold Mode3.emit_step. destruct (out_flush _). split; reflexivity. }
    destruct Hk as [-> ->].
    destruct (emit_step_cases w2) as [_ [(_ & E & _)|[(_ & E & _)|(_ & E & _)]]];
      rewrite E, Et, <- app_assoc; eauto.
  + exists []. rewrite app_nil_r. auto.
- intros H. injection H as _ <-. exists []. rewrite app_nil_r. auto.
- intros H. injection H as _ <-. exists []. rewrite app_nil_r. auto.
Qed.

(** The [switch] on a payload set that comes before the previous one: the
    warning, then the set goes to the input buffer, and a slice that this
    completes goes to the algorithm. *)
Lemma dispatch_late_payload (in_ : SetOf A) (w : Mode3.Worker M A B IB OB) :
  type in_ = kPayload ->
  (start_time in_ < Mode3.m_prev_start_time w)%N ->
  let w1 := snd (Mode3.dispatch in_ w) in
  Mode3.m_in_buffer w1 = snd (in_buffer in_ (Mode3.m_in_buffer w))
  /\ Mode3.m_prev_start_time w1 = start_time in_
  /\ exists t,
       trace (Mode3.m_parent w1)
       = trace (Mode3.m_parent w)
           ++ Ers Warning (OutOfOrderSets (Mode3.m_prev_start_time w) (start_time in_)) :: t
       /\ forall slice s e,
            fst (in_buffer in_ (Mode3.m_in_buffer w)) = Some (slice, s, e) ->
            t = slice_events (m_maker (Mode3.m_parent w)) slice.
Proof.
intros Ht Hlt. unfold Mode3.dispatch. rewrite Ht.
assert (Hc : negb (Mode3.m_prev_start_time w =? 0)%N
             && (start_time in_ <? Mode3.m_prev_start_time w)%N = true).
{ apply andb_true_intro. split.
  - apply negb_true_iff, N.eqb_neq. lia.
  - apply N.ltb_lt, Hlt. }
rewrite Hc.
destruct (in_buffer in_ (Mode3.m_in_buffer w)) as [[[[slice s] e]|] b]; simpl.
- destruct (process_slice_spec slice []
              (ers Warning (OutOfOrderSets (Mode3.m_prev_start_time w) (start_time in_))
                 (Mode3.m_parent w))) as (p' & E & Et & _).
  rewrite E. simpl. repeat split.
  eexists. split.
  + rewrite Et. simpl. rewrite <- app_assoc. reflexivity.
  + intros slice' s' e' H. injection H as <- _ _. reflexivity.
- repeat split. exists []. split; [reflexivity|]. discriminate.
Qed.

(** The [switch] on any set: what [m_prev_start_time] becomes. *)
Lemma dispatch_prev_start_time (in_ : SetOf A) (w : Mode3.Worker M A B IB OB) :
  Mode3.m_prev_start_time (snd (Mode3.dispatch in_ w))
  = if is_payload in_ then start_time in_ else Mode3.m_prev_start_time w.
Proof.
unfold Mode3.dispatch, is_payload. destruct (type in_); simpl.
- reflexivity.
- destruct (in_buffer in_ (Mode3.m_in_buffer w)) as [[[[slice s] e]|] b]; simpl;
    [|reflexivity].
  destruct (process_slice _ _ _) as [[|] [ov p]]; reflexivity.
- destruct (in_flush (Mode3.m_in_buffer w)) as [[[[slice s] e]|] b];
    [destruct (process_slice _ _ _) as [[|] [ov p]]|]; simpl;
    try destruct (signal _); reflexivity.
Qed.

Lemma receive_loop_prev_start_time (fuel : nat) (ins : list (SetOf A))
  (w w' : Mode3.Worker M A B IB OB) (sg : Signal) (rx' : list (option (SetOf A))) :
  receive_loop fuel (map Some ins) w = Some (sg, w', rx') ->
  sg = Completed ->
  Mode3.m_prev_start_time w' = last_payload_start (Mode3.m_prev_start_time w) ins.
Proof.
revert w. induction ins as [|in_ ins IH]; intros w H Hsg; simpl in H.
- injection H as _ <- _. reflexivity.
- destruct (Mode3.process fuel in_ _) as [[[|] w1]|] eqn:E; try discriminate.
  + rewrite (IH _ H Hsg). unfold last_payload_start. simpl. f_equal.
    destruct (process_after_dispatch _ _ _ E) as (_ & _ & _ & ->).
    rewrite dispatch_prev_start_time. reflexivity.
  + injection H as <- _ _. discriminate.
Qed.

(** The [switch] on a heartbeat that comes before the end of the slice it
    flushes: the fatal report, then the slice goes to the algorithm. *)
Lemma dispatch_early_heartbeat (in_ : SetOf A) (w : Mode3.Worker M A B IB OB)
  (slice : list A) (s e : timestamp_t) (b : IB) :
  type in_ = kHeartbeat ->
  in_flush (Mode3.m_in_buffer w) = (Some (slice, s, e), b) ->
  (start_time in_ < e)%N ->
  let w1 := snd (Mode3.dispatch in_ w) in
  Mode3.m_in_buffer w1 = b
  /\ exists t,
       trace (Mode3.m_parent w1)
       = trace (Mode3.m_parent w)
           ++ Ers Fatal (OutOfOrderSets e (start_time in_))
           :: slice_events (m_maker (Mode3.m_parent w)) slice ++ t.
Proof.
intros Ht Hf Hlt. unfold Mode3.dispatch. rewrite Ht, Hf.
apply N.ltb_lt in Hlt. rewrite Hlt.
destruct (process_slice_spec slice []
            (ers Fatal (OutOfOrderSets e (start_time in_)) (Mode3.m_parent w)))
  as (p' & E & Et & _).
rewrite E. simpl app.
destruct (invoke_flush (end_time in_) _ p') as [[|] [ov p'']] eqn:Ef;
  unfold invoke_flush in Ef; injection Ef as _ _ <-; simpl;
  (split; [reflexivity|]); rewrite Et; simpl; rewrite <- !app_assoc; simpl;
  eexists; reflexivity.
Qed.

End Mode3Process.

Section Mode2Process.

Context {M A OUT IB : Type} {maker : Maker M A OUT}
        {ibuf : TimeSliceInputBuffer IB A}.

Lemma mode2_process_after_dispatch (fuel : nat) (in_ : SetOf A)
  (w w' : Mode2.Worker M A OUT IB) (sg : Signal) :
  Mode2.process fuel in_ w = Some (sg, w') ->
  exists t,
    trace (Mode2.m_parent w') = trace (Mode2.m_parent (snd (Mode2.dispatch in_ w))) ++ t
    /\ Mode2.m_in_buffer w' = Mode2.m_in_buffer (snd (Mode2.dispatch in_ w)).
Proof.
unfold Mode2.process.
destruct (Mode2.dispatch in_ w) as [[[| |] ov] w1]; simpl.
- destruct (while_loop _ _ _ _) as [[ov' p']|] eqn:Hl; [|discriminate].
  intros H. injection H as _ <-. simpl.
  destruct (send_loop_offers _ _ _ Hl) as (t & Et & _). eauto.
- intros H. injection H as _ <-. exists []. rewrite app_nil_r. auto.
- intros H. injection H as _ <-. exists []. rewrite app_nil_r. auto.
Qed.

Lemma mode2_dispatch_heartbeat (in_ : SetOf A) (w : Mode2.Worker M A OUT IB) :
  type in_ = kHeartbeat ->
  let w1 := snd (Mode2.dispatch in_ w) in
  Mode2.m_in_buffer w1 = snd (in_flush (Mode2.m_in_buffer w))
  /\ forall slice s e,
       fst (in_flush (Mode2.m_in_buffer w)) = Some (slice, s, e) ->
       (start_time in_ < e)%N ->
       exists t,
         trace (Mode2.m_parent w1)
         = trace (Mode2.m_parent w)
             ++ Ers Fatal (OutOfOrderSets e (start_time in_))
             :: slice_events (m_maker (Mode2.m_parent w)) slice ++ t.
Proof.
intros Ht. unfold Mode2.dispatch. rewrite Ht.
destruct (in_flush (Mode2.m_in_buffer w)) as [[[[slice s] e]|] b].
- destruct (start_time in_ <? e)%N eqn:Hlt.
  + destruct (process_slice_spec slice []
                (ers Fatal (OutOfOrderSets e (start_time in_)) (Mode2.m_parent w)))
      as (p' & E & Et & _).
    rewrite E. simpl app.
    destruct (invoke_flush (end_time in_) _ p') as [[|] [ov p'']] eqn:Ef;
      unfold invoke_flush in Ef; injection Ef as _ _ <-; simpl;
      (split; [reflexivity|]); intros slice' s' e' H _; injection H as <- _ <-;
      rewrite Et; simpl; rewrite <- !app_assoc; simpl; eexists; reflexivity.
  + destruct (process_slice_spec slice [] (Mode2.m_parent w)) as (p' & E & _).
    rewrite E. simpl app.
    destruct (invoke_flush (end_time in_) _ p') as [[|] [ov p'']]; simpl;
      (split; [reflexivity|]); intros slice' s' e' H Hl; injection H as _ _ <-;
      apply N.ltb_lt in Hl; congruence.
- destruct (invoke_flush (end_time in_) [] (Mode2.m_parent w)) as [[|] [ov p'']]; simpl;
    (split; [reflexivity|]); discriminate.
Qed.

End Mode2Process.

Section Mode3Heartbeat.

Context {M A B IB OB : Type} {maker : Maker M A B}
        {ibuf : TimeSliceInputBuffer IB A}
        {obuf : TimeSliceOutputBuffer OB B}.

Lemma dispatch_heartbeat (in_ : SetOf A) (w : Mode3.Worker M A B IB OB) :
  type in_ = kHeartbeat ->
  let w1 := snd (Mode3.dispatch in_ w) in
  Mode3.m_in_buffer w1 = snd (in_flush (Mode3.m_in_buffer w))
  /\ forall slice s e,
       fst (in_flush (Mode3.m_in_buffer w)) = Some (slice, s, e) ->
       (start_time in_ < e)%N ->
       exists t,
         trace (Mode3.m_parent w1)
         = trace (Mode3.m_parent w)
             ++ Ers Fatal (OutOfOrderSets e (start_time in_))
             :: slice_events (m_maker (Mode3.m_parent w)) slice ++ t.
Proof.
intros Ht. split.
- unfold Mode3.dispatch. rewrite Ht.
  destruct (in_flush (Mode3.m_in_buffer w)) as [[[[slice s] e]|] b].
  + destruct (process_slice _ _ _) as [[|] [ov p]]; [|reflexivity].
    destruct (invoke_flush _ _ _) as [[|] [ov' p']]; reflexivity.
  + destruct (invoke_flush _ _ _) as [[|] [ov' p']]; reflexivity.
- intros slice s e Hf Hlt.
  destruct (in_flush (Mode3.m_in_buffer w)) as [o b] eqn:E. simpl in Hf. subst o.
  apply (dispatch_early_heartbeat in_ w Ht E Hlt).
Qed.

End Mode3Heartbeat.

Lemma last_payload_start_others {A : Type} (prev : timestamp_t) (ins : list (SetOf A)) :
  Forall (fun i => is_payload i = false) ins -> last_payload_start prev ins = prev.
Proof.
intros H. revert prev. induction H as [|i ins Hi _ IH]; intros prev; [reflexivity|].
unfold last_payload_start in *. simpl. rewrite Hi. apply IH.
Qed.

(** ** Leaving the receive loop *)

Section Stopping.

Context {W IN M X B OUT : Type} {ops : WorkerOps W IN M X B OUT}.

Lemma do_work_rounds (fuel k : nat) (later : list bool) (rx : list (option IN)) (w : W) :
  do_work fuel (repeat true k ++ false :: later) rx w
  = match receive_loops fuel k rx w with
    | Some (Completed, w1, rx1) => exit_work fuel rx1 w1
    | other => other
    end.
Proof.
revert rx w. induction k as [|k IH]; intros rx w; [reflexivity|].
simpl. destruct (receive_loop fuel rx w) as [[[[|] w1] rx1]|]; [apply IH| |]; reflexivity.
Qed.

Lemma receive_loops_rest (fuel k : nat) (rx rx1 : list (option IN)) (w w1 : W) :
  receive_loops fuel k rx w = Some (Completed, w1, rx1) -> rx1 = bursts k rx.
Proof.
revert rx w. induction k as [|k IH]; intros rx w H; simpl in *.
- now injection H as _ <-.
- destruct (receive_loop fuel rx w) as [[[[|] w2] rx2]|] eqn:E; try discriminate.
  rewrite (IH _ _ H). f_equal. eapply receive_loop_rest, E.
Qed.

Lemma exit_work_rest (fuel : nat) (rx rx' : list (option IN)) (w w' : W) (sg : Signal) :
  exit_work fuel rx w = Some (sg, w', rx') -> rx' = rx.
Proof.
unfold exit_work. destruct (worker_drain fuel true w) as [[[|] w1]|]; try discriminate;
  intros H; now injection H as _ _ <-.
Qed.

End Stopping.


(** ** What a stretch of work carries *)

Section CarryingFacts.

Context {M X B OUT : Type} {maker : Maker M X B}.

Variable R : Parent M X B OUT -> Parent M X B OUT -> Prop.
Hypothesis HR : Carried R.

Lemma carried_process_slice (xs : list X) (ov : list B) (p : Parent M X B OUT) :
  R p (snd (snd (process_slice xs ov p))).
Proof.
  revert ov p. induction xs as [|x xs IH]; intros ov p; simpl.
  - apply (carried_refl HR).
  - pose proof (carried_apply HR p x ov) as Ha.
    unfold caught, invoke_apply in Ha. simpl in Ha.
    destruct (signal (maker_apply (m_maker p) x)).
    + eapply (carried_trans HR); [exact Ha|apply IH].
    + exact Ha.
Qed.

Lemma carried_slice (xs : list X) (ov : list B) (p : Parent M X B OUT) :
  exists ov' p', process_slice xs ov p = (Completed, (ov', p')) /\ R p p'.
Proof.
  pose proof (process_slice_completed xs ov p) as Hc.
  pose proof (carried_process_slice xs ov p) as Hs.
  destruct (process_slice xs ov p) as [sg [ov' p']]. simpl in *. subst sg. eauto.
Qed.

Hypothesis HF : Forwards R.

Lemma carried_send_loop (fuel : nat) (ov ov' : list OUT) (p p' : Parent M X B OUT) :
  while_loop fuel (fun s => nonempty (fst s)) send_back (ov, p) = Some (ov', p') ->
  R p p'.
Proof.
  intros Hl.
  apply (while_loop_invariant _ _ (fun s => R p (snd s))) in Hl.
  - apply Hl.
  - intros [v q] Hq _. unfold send_back. simpl.
    destruct (back v); simpl; [|exact Hq].
    eapply (carried_trans HR); [exact Hq|apply HF].
  - apply (carried_refl HR).
Qed.

End CarryingFacts.

Section Mode1Carries.

Context {M IN OUT : Type} {maker : Maker M IN OUT}.

Variable R : Parent M IN OUT OUT -> Parent M IN OUT OUT -> Prop.
Hypothesis HR : Carried R.
Hypothesis HF : Forwards R.

Lemma mode1_process_carried (fuel : nat) (in_ : IN) (w w' : Mode1.Worker M IN OUT)
  (sg : Signal) :
  Mode1.process fuel in_ w = Some (sg, w') ->
  sg = Completed /\ R (Mode1.m_parent w) (Mode1.m_parent w').
Proof.
  unfold Mode1.process.
  pose proof (carried_apply HR (Mode1.m_parent w) in_ []) as Ha. unfold caught in Ha.
  destruct (invoke_apply in_ [] (Mode1.m_parent w)) as [[|] [ov p]]; simpl in Ha.
  - destruct (while_loop _ _ _ _) as [[ov' p']|] eqn:Hl; [|discriminate].
    intros H. injection H as <- <-. split; [reflexivity|]. simpl.
    eapply (carried_trans HR); [exact Ha|].
    eapply carried_send_loop; [exact HR|exact HF|exact Hl].
  - intros H. injection H as <- <-. split; [reflexivity|exact Ha].
Qed.

Lemma mode1_drain_carried (fuel : nat) (drop : bool) (w w' : Mode1.Worker M IN OUT)
  (sg : Signal) :
  Mode1.drain fuel drop w = Some (sg, w') ->
  sg = Completed /\ R (Mode1.m_parent w) (Mode1.m_parent w').
Proof.
  unfold Mode1.drain. intros H. injection H as <- <-.
  split; [reflexivity|apply (carried_refl HR)].
Qed.

End Mode1Carries.

Section Mode2Carries.

Context {M A OUT IB : Type} {maker : Maker M A OUT}
        {ibuf : TimeSliceInputBuffer IB A}.

Variable R : Parent M A OUT OUT -> Parent M A OUT OUT -> Prop.
Hypothesis HR : Carried R.
Hypothesis HF : Forwards R.

Lemma mode2_dispatch_carried (in_ : SetOf A) (w : Mode2.Worker M A OUT IB) :
  fst (fst (Mode2.dispatch in_ w)) <> Throw
  /\ R (Mode2.m_parent w) (Mode2.m_parent (snd (Mode2.dispatch in_ w))).
Proof.
  unfold Mode2.dispatch. destruct (type in_).
  - simpl. split; [discriminate|apply (carried_ers HR); discriminate].
  - destruct (in_buffer in_ (Mode2.m_in_buffer w)) as [[[[slice s] e]|] b].
    + destruct (carried_slice HR slice [] (Mode2.m_parent w)) as (ov' & p' & E & Hs).
      rewrite E. simpl. split; [discriminate|exact Hs].
    + simpl. split; [discriminate|apply (carried_refl HR)].
  - destruct (in_flush (Mode2.m_in_buffer w)) as [[[[slice s] e]|] b].
    + match goal with
      | |- context [if ?c then ?a else Mode2.m_parent w] =>
          set (p0 := if c then a else Mode2.m_parent w)
      end.
      assert (H0 : R (Mode2.m_parent w) p0).
      { unfold p0. destruct (_ <? _)%N; [apply (carried_ers HR); discriminate|apply (carried_refl HR)]. }
      destruct (carried_slice HR slice [] p0) as (ov' & p' & E & Hs).
      rewrite E.
      pose proof (carried_flush HR p' (end_time in_) ov') as Hfl. unfold caught in Hfl.
      destruct (invoke_flush (end_time in_) ov' p') as [[|] [ov'' p'']]; simpl in *;
        (split; [discriminate|]);
        (eapply (carried_trans HR); [exact H0|]);
        (eapply (carried_trans HR); [exact Hs|exact Hfl]).
    + pose proof (carried_flush HR (Mode2.m_parent w) (end_time in_) []) as Hfl.
      unfold caught in Hfl.
      destruct (invoke_flush (end_time in_) [] (Mode2.m_parent w)) as [[|] [ov'' p'']];
        simpl in *; (split; [discriminate|exact Hfl]).
Qed.

Lemma mode2_process_carried (fuel : nat) (in_ : SetOf A) (w w' : Mode2.Worker M A OUT IB)
  (sg : Signal) :
  Mode2.process fuel in_ w = Some (sg, w') ->
  sg = Completed /\ R (Mode2.m_parent w) (Mode2.m_parent w').
Proof.
  unfold Mode2.process. destruct (mode2_dispatch_carried in_ w) as [Hf Hs].
  destruct (Mode2.dispatch in_ w) as [[[| |] ov] w1]; simpl in *.
  - destruct (while_loop _ _ _ _) as [[ov' p']|] eqn:Hl; [|discriminate].
    intros H. injection H as <- <-. split; [reflexivity|]. simpl.
    eapply (carried_trans HR); [exact Hs|].
    eapply carried_send_loop; [exact HR|exact HF|exact Hl].
  - intros H. injection H as <- <-. auto.
  - contradiction.
Qed.

Lemma mode2_drain_carried (fuel : nat) (drop : bool) (w w' : Mode2.Worker M A OUT IB)
  (sg : Signal) :
  Mode2.drain fuel drop w = Some (sg, w') ->
  sg = Completed /\ R (Mode2.m_parent w) (Mode2.m_parent w').
Proof.
  unfold Mode2.drain.
  destruct (in_flush (Mode2.m_in_buffer w)) as [[[[slice s] e]|] b].
  - destruct (carried_slice HR slice [] (Mode2.m_parent w)) as (ov' & p' & E & Hs).
    rewrite E.
    destruct (while_loop _ _ _ _) as [[ov'' p'']|] eqn:Hl; [|discriminate].
    intros H. injection H as <- <-. split; [reflexivity|]. simpl.
    eapply (carried_trans HR); [exact Hs|].
    apply (while_loop_invariant _ _ (fun s => R p' (snd s))) in Hl.
    + apply Hl.
    + intros [v q] Hq _. unfold Mode2.drain_back, send_back. simpl.
      destruct drop; simpl; [exact Hq|].
      destruct (back v); simpl; [|exact Hq].
      eapply (carried_trans HR); [exact Hq|apply HF].
    + apply (carried_refl HR).
  - intros H. injection H as <- <-. split; [reflexivity|apply (carried_refl HR)].
Qed.

End Mode2Carries.

Section Mode3Carries.

Context {M A B IB OB : Type} {maker : Maker M A B}
        {ibuf : TimeSliceInputBuffer IB A}
        {obuf : TimeSliceOutputBuffer OB B}.

Variable R : Parent M A B (SetOf B) -> Parent M A B (SetOf B) -> Prop.
Hypothesis HR : Carried R.

Lemma mode3_dispatch_carried (in_ : SetOf A) (w : Mode3.Worker M A B IB OB) :
  fst (fst (Mode3.dispatch in_ w)) <> Throw
  /\ R (Mode3.m_parent w) (Mode3.m_parent (snd (Mode3.dispatch in_ w))).
Proof.
  unfold Mode3.dispatch. destruct (type in_).
  - simpl. split; [discriminate|apply (carried_ers HR); discriminate].
  - match goal with
    | |- context [if ?c then ?a else Mode3.m_parent w] =>
        set (p0 := if c then a else Mode3.m_parent w)
    end.
    assert (H0 : R (Mode3.m_parent w) p0).
    { unfold p0. destruct (_ && _); [apply (carried_ers HR); discriminate|apply (carried_refl HR)]. }
    destruct (in_buffer in_ (Mode3.m_in_buffer w)) as [[[[slice s] e]|] b].
    + destruct (carried_slice HR slice [] p0) as (ov' & p' & E & Hs).
      rewrite E. simpl. split; [discriminate|].
      eapply (carried_trans HR); eassumption.
    + simpl. split; [discriminate|exact H0].
  - destruct (in_flush (Mode3.m_in_buffer w)) as [[[[slice s] e]|] b].
    + match goal with
      | |- context [if ?c then ?a else Mode3.m_parent w] =>
          set (p0 := if c then a else Mode3.m_parent w)
      end.
      assert (H0 : R (Mode3.m_parent w) p0).
      { unfold p0. destruct (_ <? _)%N; [apply (carried_ers HR); discriminate|apply (carried_refl HR)]. }
      destruct (carried_slice HR slice [] p0) as (ov' & p' & E & Hs).
      rewrite E.
      pose proof (carried_flush HR p' (end_time in_) ov') as Hfl. unfold caught in Hfl.
      destruct (invoke_flush (end_time in_) ov' p') as [[|] [ov'' p'']]; simpl in *;
        (split; [discriminate|]);
        (eapply (carried_trans HR); [exact H0|]);
        (eapply (carried_trans HR); [exact Hs|exact Hfl]).
    + pose proof (carried_flush HR (Mode3.m_parent w) (end_time in_) []) as Hfl.
      unfold caught in Hfl.
      destruct (invoke_flush (end_time in_) [] (Mode3.m_parent w)) as [[|] [ov'' p'']];
        simpl in *; (split; [discriminate|exact Hfl]).
Qed.

Lemma mode3_process_carried (fuel : nat) (in_ : SetOf A)
  (w w' : Mode3.Worker M A B IB OB) (sg : Signal) :
  (forall w2 : Mode3.Worker M A B IB OB,
      R (Mode3.m_parent w) (Mode3.m_parent w2) ->
      R (Mode3.m_parent w) (Mode3.m_parent (Mode3.emit_step w2))) ->
  Mode3.process fuel in_ w = Some (sg, w') ->
  sg = Completed /\ R (Mode3.m_parent w) (Mode3.m_parent w').
Proof.
  intros He. unfold Mode3.process. destruct (mode3_dispatch_carried in_ w) as [Hf Hs].
  destruct (Mode3.dispatch in_ w) as [[[| |] elems] w1]; simpl in *.
  - destruct (while_loop _ _ _ _) as [w3|] eqn:Hl; [|discriminate].
    intros H. injection H as <- <-. split; [reflexivity|].
    apply (while_loop_invariant _ _
             (fun w2 => R (Mode3.m_parent w) (Mode3.m_parent w2))) in Hl;
      [apply Hl| |exact Hs].
    intros w2 H2 _. apply He, H2.
  - intros H. injection H as <- <-. auto.
  - contradiction.
Qed.

Lemma mode3_drain_carried (fuel : nat) (drop : bool)
  (w w' : Mode3.Worker M A B IB OB) (sg : Signal) :
  (forall w2 : Mode3.Worker M A B IB OB,
      R (Mode3.m_parent w) (Mode3.m_parent w2) ->
      R (Mode3.m_parent w) (Mode3.m_parent (Mode3.drain_step drop w2))) ->
  Mode3.drain fuel drop w = Some (sg, w') ->
  sg = Completed /\ R (Mode3.m_parent w) (Mode3.m_parent w').
Proof.
  intros Hd. unfold Mode3.drain.
  destruct (in_flush (Mode3.m_in_buffer w)) as [[[[slice s] e]|] b].
  - destruct (carried_slice HR slice [] (Mode3.m_parent w)) as (ov' & p' & E & Hs).
    rewrite E.
    destruct (while_loop _ _ _ _) as [w2|] eqn:Hl; [|discriminate].
    intros H. injection H as <- <-. split; [reflexivity|].
    apply (while_loop_invariant _ _
             (fun w2 => R (Mode3.m_parent w) (Mode3.m_parent w2))) in Hl;
      [apply Hl| |exact Hs].
    intros w3 H3 _. apply Hd, H3.
  - destruct (while_loop _ _ _ _) as [w2|] eqn:Hl; [|discriminate].
    intros H. injection H as <- <-. split; [reflexivity|].
    apply (while_loop_invariant _ _
             (fun w2 => R (Mode3.m_parent w) (Mode3.m_parent w2))) in Hl;
      [apply Hl| |apply (carried_refl HR)].
    intros w3 H3 _. apply Hd, H3.
Qed.

End Mode3Carries.

Section StepsCarry.

Context {M X B OUT : Type} {maker : Maker M X B}.

Variable Q : N -> list (Event X B OUT) -> N -> Prop.
Hypothesis HQ : Closed Q.

Lemma Step_carried : Carried (Step (M := M) Q).
Proof.
  split.
  - intros p. apply Step_refl, HQ.
  - intros p1 p2 p3. apply Step_trans, HQ.
  - intros p sev i _. apply Step_ers, HQ.
  - intros p x ov. unfold caught, invoke_apply. simpl.
    destruct (signal (maker_apply (m_maker p) x)).
    + eexists. split; [reflexivity|]. simpl. apply HQ.
    + eexists. split; [simpl; rewrite <- app_assoc; reflexivity|]. simpl. apply HQ.
  - intros p t ov. apply (Step_flush_guarded HQ).
Qed.

Lemma Step_forwards : Sending Q -> Forwards (Step (M := M) Q).
Proof. intros HS o p. apply Step_forward; assumption. Qed.

End StepsCarry.

Section UntouchedFacts.

Context {M X B OUT : Type} {maker : Maker M X B}.

Lemma Untouched_refl (p : Parent M X B OUT) : Untouched p p.
Proof. repeat split. Qed.

Lemma Untouched_trans (p1 p2 p3 : Parent M X B OUT) :
  Untouched p1 p2 -> Untouched p2 p3 -> Untouched p1 p3.
Proof.
  unfold Untouched. intros (a & b & c & d) (a' & b' & c' & d').
  repeat split; congruence.
Qed.

Lemma Untouched_forward (o : OUT) (p : Parent M X B OUT) : Untouched p (forward o p).
Proof.
  unfold forward, send. destruct (output_queue p) as [|[|] q]; repeat split.
Qed.

Lemma Untouched_carried : Carried (Untouched (M := M) (X := X) (B := B) (OUT := OUT)).
Proof.
  split.
  - apply Untouched_refl.
  - apply Untouched_trans.
  - intros. repeat split.
  - intros p x ov. unfold caught, invoke_apply. simpl.
    destruct (signal (maker_apply (m_maker p) x)); repeat split.
  - intros p t ov. unfold caught, invoke_flush. simpl.
    destruct (signal (maker_flush (m_maker p) t)); repeat split.
Qed.

Lemma Untouched_forwards : Forwards (Untouched (M := M) (X := X) (B := B) (OUT := OUT)).
Proof. intros o p. apply Untouched_forward. Qed.

End UntouchedFacts.

Section Mode3Steps.

Context {M A B IB OB : Type} {maker : Maker M A B}
        {ibuf : TimeSliceInputBuffer IB A}
        {obuf : TimeSliceOutputBuffer OB B}.

Lemma Untouched_emit (w : Mode3.Worker M A B IB OB) :
  Untouched (Mode3.m_parent w) (Mode3.m_parent (Mode3.emit_step w)).
Proof.
  unfold Mode3.emit_step. destruct (out_flush (Mode3.m_out_buffer w)) as [popped ob].
  cbn [Mode3.m_parent].
  set (p0 := log (Popped popped) (Mode3.m_parent w)).
  assert (H0 : Untouched (Mode3.m_parent w) p0) by (repeat split).
  assert (H1 : Untouched (Mode3.m_parent w) (forward (Mode3.stamp p0 popped) p0)).
  { eapply Untouched_trans; [exact H0|apply Untouched_forward]. }
  destruct (is_heartbeat _); [exact H1|].
  destruct (is_payload _ && nonempty _); [exact H1|exact H0].
Qed.

Lemma Untouched_drain_step (drop : bool) (w : Mode3.Worker M A B IB OB) :
  Untouched (Mode3.m_parent w) (Mode3.m_parent (Mode3.drain_step drop w)).
Proof.
  destruct (drain_step_cases drop w) as [_ H]. destruct drop.
  - unfold Mode3.drain_step.
    destruct (out_flush (Mode3.m_out_buffer w)) as [popped ob]. cbn [Mode3.m_parent].
    destruct (is_heartbeat _); [repeat split|].
    destruct (is_payload _ && nonempty _); repeat split.
  - rewrite H. apply Untouched_emit.
Qed.

Variable Q : N -> list (Event A B (SetOf B)) -> N -> Prop.
Hypothesis HQ : Closed Q.
Hypothesis HS : Sending Q.
Hypothesis HP : Popping Q.

Lemma Step_emit (w : Mode3.Worker M A B IB OB) :
  Step Q (Mode3.m_parent w) (Mode3.m_parent (Mode3.emit_step w)).
Proof.
  destruct (emit_step_cases w) as [_ [(_ & Et & En)|[(_ & Et & En)|(_ & Et & En)]]];
    eexists; (split; [exact Et|]); rewrite En.
  - apply HP.
  - match goal with
    | |- Q ?n (?a :: ?rest) _ => change (a :: rest) with ([a] ++ rest)
    end.
    eapply (closed_app HQ); [apply HP|apply HS].
  - match goal with
    | |- Q ?n (?a :: ?rest) ?n => change (a :: rest) with ([a] ++ rest)
    end.
    eapply (closed_app HQ); [apply HP|apply HS].
Qed.

Lemma Step_drain_step (drop : bool) (w : Mode3.Worker M A B IB OB) :
  Step Q (Mode3.m_parent w) (Mode3.m_parent (Mode3.drain_step drop w)).
Proof.
  destruct (drain_step_cases drop w) as [_ H]. destruct drop.
  - destruct H as [Et En]. eexists. split; [exact Et|]. rewrite En. apply HP.
  - rewrite H. apply Step_emit.
Qed.

End Mode3Steps.

(** ** Whole runs *)

Section RunFacts.

Context {W IN M X B OUT : Type} {ops : WorkerOps W IN M X B OUT}.

Lemma do_work_ends (fuel : nat) (running_flag : list bool) (rx : list (option IN))
  (w : W) (r : Signal * W * list (option IN)) :
  do_work fuel running_flag rx w = Some r ->
  fst (fst r) = Completed ->
  exists w1 rx1, exit_work fuel rx1 w1 = Some r.
Proof.
  revert rx w. induction running_flag as [|[|] later IH]; intros rx w; simpl.
  - eauto.
  - destruct (receive_loop fuel rx w) as [[[[|] w1] rx1]|]; [apply IH| |discriminate].
    intros H. injection H as <-. discriminate.
  - eauto.
Qed.

Variable R : Parent M X B OUT -> Parent M X B OUT -> Prop.
Hypothesis R_refl : forall p, R p p.
Hypothesis R_trans : forall p1 p2 p3, R p1 p2 -> R p2 p3 -> R p1 p3.
Hypothesis R_received : forall n p, R p (set_received_count n p).
Hypothesis parent_with_parent : forall p (w : W), parent (with_parent p w) = p.
Hypothesis parent_reset : forall w : W, parent (worker_reset w) = parent w.
Hypothesis process_R :
  forall fuel in_ (w w' : W) sg,
    worker_process fuel in_ w = Some (sg, w') ->
    sg = Completed /\ R (parent w) (parent w').
Hypothesis drain_R :
  forall fuel (w w' : W) sg,
    worker_drain fuel true w = Some (sg, w') ->
    sg = Completed /\ R (parent w) (parent w').

Lemma receive_loop_carried (fuel : nat) (rx rx' : list (option IN)) (w w' : W)
  (sg : Signal) :
  receive_loop fuel rx w = Some (sg, w', rx') ->
  sg = Completed /\ R (parent w) (parent w').
Proof.
  revert w. induction rx as [|[in_|] rx IH]; intros w; simpl.
  - intros H. injection H as <- <- <-. auto.
  - destruct (worker_process _ _ _) as [[[|] w2]|] eqn:Hp; [| |discriminate].
    + intros H. apply IH in H. destruct H as [-> H]. split; [reflexivity|].
      apply process_R in Hp. destruct Hp as [_ Hp].
      rewrite parent_with_parent in Hp.
      eapply R_trans; [apply R_received|]. eapply R_trans; [exact Hp|exact H].
    + apply process_R in Hp. destruct Hp as [Hp _]. discriminate.
  - intros H. injection H as <- <- <-. auto.
Qed.

Lemma exit_work_carried (fuel : nat) (rx rx' : list (option IN)) (w w' : W)
  (sg : Signal) :
  exit_work fuel rx w = Some (sg, w', rx') ->
  sg = Completed /\ R (parent w) (parent w').
Proof.
  unfold exit_work. destruct (worker_drain _ _ _) as [[[|] w2]|] eqn:Hd; [| |discriminate].
  - intros H. injection H as <- <- <-. rewrite parent_reset.
    apply drain_R in Hd. tauto.
  - apply drain_R in Hd. destruct Hd as [Hd _]. discriminate.
Qed.

Lemma do_work_carried (fuel : nat) (running_flag : list bool)
  (rx rx' : list (option IN)) (w w' : W) (sg : Signal) :
  do_work fuel running_flag rx w = Some (sg, w', rx') ->
  sg = Completed /\ R (parent w) (parent w').
Proof.
  revert rx w. induction running_flag as [|[|] later IH]; intros rx w; simpl.
  - apply exit_work_carried.
  - destruct (receive_loop fuel rx w) as [[[[|] w1] rx1]|] eqn:Hr; [| |discriminate].
    + intros H. apply IH in H. destruct H as [-> H]. split; [reflexivity|].
      apply receive_loop_carried in Hr. destruct Hr as [_ Hr].
      eapply R_trans; eassumption.
    + apply receive_loop_carried in Hr. destruct Hr as [Hr _]. discriminate.
  - apply exit_work_carried.
Qed.

End RunFacts.

Section Counting.

Context {X B OUT : Type}.

Lemma size_t_incr_iter (k : nat) :
  Nat.iter k size_t_incr 0%N = (N.of_nat k mod size_t_modulus)%N.
Proof.
  induction k as [|k IH].
  - reflexivity.
  - rewrite Nat.iter_succ, IH. unfold size_t_incr.
    rewrite N.Div0.add_mod_idemp_l. f_equal. lia.
Qed.

Lemma Counted_closed : Closed (@Counted X B OUT).
Proof.
  split; unfold Counted; intros; try reflexivity.
  subst. rewrite delivered_app, length_app, Nat.add_comm. symmetry. apply Nat.iter_add.
Qed.

Lemma Counted_sending : Sending (@Counted X B OUT).
Proof. intros n o. split; reflexivity. Qed.

Lemma Counted_popping : Popping (@Counted X B OUT).
Proof. intros n o. reflexivity. Qed.

Lemma timeouts_reported_app (t1 t2 : list (Event X B OUT)) :
  timeouts_reported t1 = true -> timeouts_reported (t1 ++ t2) = timeouts_reported t2.
Proof.
  induction t1 as [|e t1 IH]; [reflexivity|].
  destruct e as [sev i|x outs sg|t outs sg|o|o [|]]; simpl; try exact IH.
  destruct t1 as [|[[| |] [| | | |]| | | |] [|[[| |] [| | | |]| | | |] t1]];
    simpl; try discriminate.
  intros H. apply IH in H. simpl in H. exact H.
Qed.

Lemma TimeoutsReported_closed : Closed (@TimeoutsReported X B OUT).
Proof.
  split; unfold TimeoutsReported; intros; try reflexivity.
  rewrite timeouts_reported_app; assumption.
Qed.

Lemma TimeoutsReported_sending : Sending (@TimeoutsReported X B OUT).
Proof. intros n o. split; reflexivity. Qed.

Lemma TimeoutsReported_popping : Popping (@TimeoutsReported X B OUT).
Proof. intros n o. reflexivity. Qed.

Lemma inputs_app {IN : Type} (l1 l2 : list (option IN)) :
  inputs (l1 ++ l2) = inputs l1 + inputs l2.
Proof. unfold inputs. rewrite filter_app, length_app. reflexivity. Qed.

End Counting.

Section RunsOfTheModes.

Lemma mode1_runs_with {M IN OUT : Type} {maker : Maker M IN OUT}
  (Q : N -> list (Event IN OUT OUT) -> N -> Prop) :
  Closed Q -> Sending Q -> RunsWith (Mode1_ops (maker := maker)) Q.
Proof.
  intros HQ HS running_flag rx w fuel [[sg w'] rx'] H.
  refine (@do_work_carried _ _ _ _ _ _ (Mode1_ops (maker := maker)) (Step Q) _ _ _ _ _ _ _
            fuel running_flag rx rx' w w' sg H).
  - apply Step_refl, HQ.
  - apply Step_trans, HQ.
  - intros n p. apply Step_same; [exact HQ|reflexivity|reflexivity].
  - reflexivity.
  - reflexivity.
  - intros f in_ w1 w2 sg1. apply mode1_process_carried.
    + apply Step_carried, HQ.
    + apply Step_forwards; assumption.
  - intros f w1 w2 sg1. apply mode1_drain_carried. apply Step_carried, HQ.
Qed.

Lemma mode2_runs_with {M A OUT IB : Type} {maker : Maker M A OUT}
  {ibuf : TimeSliceInputBuffer IB A}
  (Q : N -> list (Event A OUT OUT) -> N -> Prop) :
  Closed Q -> Sending Q -> RunsWith (Mode2_ops (maker := maker) (ibuf := ibuf)) Q.
Proof.
  intros HQ HS running_flag rx w fuel [[sg w'] rx'] H.
  refine (@do_work_carried _ _ _ _ _ _ (Mode2_ops (maker := maker) (ibuf := ibuf)) (Step Q) _ _ _ _ _ _ _
            fuel running_flag rx rx' w w' sg H).
  - apply Step_refl, HQ.
  - apply Step_trans, HQ.
  - intros n p. apply Step_same; [exact HQ|reflexivity|reflexivity].
  - reflexivity.
  - reflexivity.
  - intros f in_ w1 w2 sg1. apply mode2_process_carried.
    + apply Step_carried, HQ.
    + apply Step_forwards; assumption.
  - intros f w1 w2 sg1. apply mode2_drain_carried.
    + apply Step_carried, HQ.
    + apply Step_forwards; assumption.
Qed.

Lemma mode3_runs_with {M A B IB OB : Type} {maker : Maker M A B}
  {ibuf : TimeSliceInputBuffer IB A} {obuf : TimeSliceOutputBuffer OB B}
  (Q : N -> list (Event A B (SetOf B)) -> N -> Prop) :
  Closed Q -> Sending Q -> Popping Q ->
  RunsWith (Mode3_ops (maker := maker) (ibuf := ibuf) (obuf := obuf)) Q.
Proof.
  intros HQ HS HP running_flag rx w fuel [[sg w'] rx'] H.
  refine (@do_work_carried _ _ _ _ _ _ (Mode3_ops (maker := maker) (ibuf := ibuf) (obuf := obuf)) (Step Q) _ _ _ _ _ _ _
            fuel running_flag rx rx' w w' sg H).
  - apply Step_refl, HQ.
  - apply Step_trans, HQ.
  - intros n p. apply Step_same; [exact HQ|reflexivity|reflexivity].
  - reflexivity.
  - reflexivity.
  - intros f in_ w1 w2 sg1. apply mode3_process_carried.
    + apply Step_carried, HQ.
    + intros w3 H3. eapply (Step_trans HQ); [exact H3|].
      apply Step_emit; assumption.
  - intros f w1 w2 sg1. apply mode3_drain_carried.
    + apply Step_carried, HQ.
    + intros w3 H3. eapply (Step_trans HQ); [exact H3|].
      apply Step_drain_step; assumption.
Qed.

Lemma mode1_receives_with {M IN OUT : Type} {maker : Maker M IN OUT}
  (Q : N -> list (Event IN OUT OUT) -> N -> Prop) :
  Closed Q -> Sending Q -> ReceivesWith (Mode1_ops (maker := maker)) Q.
Proof.
  intros HQ HS rx w fuel [[sg w'] rx'] H.
  refine (@receive_loop_carried _ _ _ _ _ _ (Mode1_ops (maker := maker)) (Step Q) _ _ _ _ _
            fuel rx rx' w w' sg H).
  - apply Step_refl, HQ.
  - apply Step_trans, HQ.
  - intros n p. apply Step_same; [exact HQ|reflexivity|reflexivity].
  - reflexivity.
  - intros f in_ w1 w2 sg1. apply mode1_process_carried.
    + apply Step_carried, HQ.
    + apply Step_forwards; assumption.
Qed.

Lemma mode2_receives_with {M A OUT IB : Type} {maker : Maker M A OUT}
  {ibuf : TimeSliceInputBuffer IB A}
  (Q : N -> list (Event A OUT OUT) -> N -> Prop) :
  Closed Q -> Sending Q -> ReceivesWith (Mode2_ops (maker := maker) (ibuf := ibuf)) Q.
Proof.
  intros HQ HS rx w fuel [[sg w'] rx'] H.
  refine (@receive_loop_carried _ _ _ _ _ _ (Mode2_ops (maker := maker) (ibuf := ibuf))
            (Step Q) _ _ _ _ _ fuel rx rx' w w' sg H).
  - apply Step_refl, HQ.
  - apply Step_trans, HQ.
  - intros n p. apply Step_same; [exact HQ|reflexivity|reflexivity].
  - reflexivity.
  - intros f in_ w1 w2 sg1. apply mode2_process_carried.
    + apply Step_carried, HQ.
    + apply Step_forwards; assumption.
Qed.

Lemma mode3_receives_with {M A B IB OB : Type} {maker : Maker M A B}
  {ibuf : TimeSliceInputBuffer IB A} {obuf : TimeSliceOutputBuffer OB B}
  (Q : N -> list (Event A B (SetOf B)) -> N -> Prop) :
  Closed Q -> Sending Q -> Popping Q ->
  ReceivesWith (Mode3_ops (maker := maker) (ibuf := ibuf) (obuf := obuf)) Q.
Proof.
  intros HQ HS HP rx w fuel [[sg w'] rx'] H.
  refine (@receive_loop_carried _ _ _ _ _ _
            (Mode3_ops (maker := maker) (ibuf := ibuf) (obuf := obuf))
            (Step Q) _ _ _ _ _ fuel rx rx' w w' sg H).
  - apply Step_refl, HQ.
  - apply Step_trans, HQ.
  - intros n p. apply Step_same; [exact HQ|reflexivity|reflexivity].
  - reflexivity.
  - intros f in_ w1 w2 sg1. apply mode3_process_carried.
    + apply Step_carried, HQ.
    + intros w3 H3. eapply (Step_trans HQ); [exact H3|].
      apply Step_emit; assumption.
Qed.

Lemma mode1_run_settles {M IN OUT : Type} {maker : Maker M IN OUT} :
  RunSettles (Mode1_ops (maker := maker)).
Proof.
  intros running_flag rx w.
  destruct (@do_work_settles _ _ _ _ _ _ (Mode1_ops (maker := maker))
              (@mode1_process_settles _ _ _ maker)
              (fun w1 => ex_intro _ w1 (settles_const (Completed, w1)))
              running_flag rx w) as (w' & rx' & H).
  eexists. exact H.
Qed.

Lemma mode3_run_settles_when_draining {M A B IB OB : Type} {maker : Maker M A B}
  {ibuf : TimeSliceInputBuffer IB A} {obuf : TimeSliceOutputBuffer OB B}
  (pending : OB -> nat) :
  Drains pending ->
  RunSettles (Mode3_ops (maker := maker) (ibuf := ibuf) (obuf := obuf)).
Proof.
  intros D running_flag rx w.
  destruct (@do_work_settles _ _ _ _ _ _
              (Mode3_ops (maker := maker) (ibuf := ibuf) (obuf := obuf))
              (process_settles D) (drain_settles D true)
              running_flag rx w) as (w' & rx' & H).
  eexists. exact H.
Qed.

End RunsOfTheModes.

Section CountingRuns.

Context {W IN M X B OUT : Type} {ops : WorkerOps W IN M X B OUT}.

Hypothesis parent_with_parent : forall p (w : W), parent (with_parent p w) = p.
Hypothesis parent_reconfigure : forall w : W, parent (worker_reconfigure w) = parent w.

Lemma counts_deliveries_of_run : RunsWith ops (@Counted X B OUT) -> CountsDeliveries ops.
Proof.
  intros HR fresh w0 running_flag rx fuel r H.
  apply HR in H. destruct H as [_ (t & Et & Ec)].
  unfold do_start in Et, Ec. rewrite parent_reconfigure, parent_with_parent in Et, Ec.
  simpl in Et, Ec. exists t. split; [exact Et|].
  rewrite Ec. apply size_t_incr_iter.
Qed.

Hypothesis parent_reset : forall w : W, parent (worker_reset w) = parent w.
Hypothesis process_untouched :
  forall fuel in_ (w w' : W) sg,
    worker_process fuel in_ w = Some (sg, w') ->
    sg = Completed /\ Untouched (parent w) (parent w').
Hypothesis drain_untouched :
  forall fuel (w w' : W) sg,
    worker_drain fuel true w = Some (sg, w') ->
    sg = Completed /\ Untouched (parent w) (parent w').

Lemma receive_loop_counts (fuel : nat) (rx rx' : list (option IN)) (w w' : W)
  (sg : Signal) :
  receive_loop fuel rx w = Some (sg, w', rx') ->
  sg = Completed
  /\ exists pulled,
       rx = pulled ++ rx'
       /\ m_received_count (parent w')
          = Nat.iter (inputs pulled) size_t_incr (m_received_count (parent w)).
Proof.
  revert w. induction rx as [|[in_|] rx IH]; intros w; simpl.
  - intros H. injection H as <- <- <-. split; [reflexivity|]. exists []. auto.
  - destruct (worker_process _ _ _) as [[[|] w2]|] eqn:Hp; [| |discriminate].
    + intros H. apply IH in H. destruct H as [-> (pulled & -> & Ec)].
      split; [reflexivity|]. exists (Some in_ :: pulled). split; [reflexivity|].
      apply process_untouched in Hp. destruct Hp as [_ (Hc & _)].
      rewrite parent_with_parent in Hc. simpl in Hc.
      rewrite Ec, Hc.
      change (inputs (Some in_ :: pulled)) with (S (inputs pulled)).
      rewrite Nat.iter_succ_r. reflexivity.
    + apply process_untouched in Hp. destruct Hp as [Hp _]. discriminate.
  - intros H. injection H as <- <- <-. split; [reflexivity|].
    exists [None]. auto.
Qed.

Lemma do_work_counts (fuel : nat) (running_flag : list bool)
  (rx rx' : list (option IN)) (w w' : W) (sg : Signal) :
  do_work fuel running_flag rx w = Some (sg, w', rx') ->
  exists pulled,
    rx = pulled ++ rx'
    /\ m_received_count (parent w')
       = Nat.iter (inputs pulled) size_t_incr (m_received_count (parent w)).
Proof.
  assert (He : forall rx w,
             exit_work fuel rx w = Some (sg, w', rx') ->
             exists pulled,
               rx = pulled ++ rx'
               /\ m_received_count (parent w')
                  = Nat.iter (inputs pulled) size_t_incr (m_received_count (parent w))).
  { intros rx0 w0. unfold exit_work.
    destruct (worker_drain _ _ _) as [[[|] w2]|] eqn:Hd; [| |discriminate].
    - intros H. injection H as <- <- <-. exists []. split; [reflexivity|].
      rewrite parent_reset. apply drain_untouched in Hd.
      destruct Hd as [_ (Hc & _)]. exact Hc.
    - apply drain_untouched in Hd. destruct Hd as [Hd _]. discriminate. }
  revert rx w. induction running_flag as [|[|] later IH]; intros rx w; simpl.
  - apply He.
  - destruct (receive_loop fuel rx w) as [[[[|] w1] rx1]|] eqn:Hr; [| |discriminate].
    + intros H. apply IH in H. destruct H as (pulled2 & -> & Ec2).
      apply receive_loop_counts in Hr. destruct Hr as [_ (pulled1 & -> & Ec1)].
      exists (pulled1 ++ pulled2). split; [apply app_assoc|].
      rewrite Ec2, Ec1, inputs_app, Nat.add_comm. symmetry. apply Nat.iter_add.
    + apply receive_loop_counts in Hr. destruct Hr as [Hr _]. discriminate.
  - apply He.
Qed.

Lemma counts_inputs_of_run : CountsInputs ops.
Proof.
  intros fresh w0 running_flag rx fuel [[sg w'] rx'] H.
  apply do_work_counts in H. destruct H as (pulled & E & Ec).
  exists pulled. split; [exact E|]. simpl.
  rewrite Ec. unfold do_start. rewrite parent_reconfigure, parent_with_parent.
  simpl. apply size_t_incr_iter.
Qed.

End CountingRuns.

(** ** One report for each call that raised *)

Section Accounting.

Context {M X B OUT : Type} {maker : Maker M X B}.

Lemma fatal_reports_app (t1 t2 : list (Event X B OUT)) :
  fatal_reports (t1 ++ t2) = fatal_reports t1 + fatal_reports t2.
Proof. unfold fatal_reports. rewrite filter_app, length_app. reflexivity. Qed.

Lemma raised_calls_app (t1 t2 : list (Event X B OUT)) :
  raised_calls (t1 ++ t2) = raised_calls t1 + raised_calls t2.
Proof. unfold raised_calls. rewrite filter_app, length_app. reflexivity. Qed.

Lemma Accounted_refl (p : Parent M X B OUT) : Accounted p p.
Proof. exists []. split; [symmetry; apply app_nil_r|reflexivity]. Qed.

Lemma Accounted_trans (p1 p2 p3 : Parent M X B OUT) :
  Accounted p1 p2 -> Accounted p2 p3 -> Accounted p1 p3.
Proof.
  intros (t1 & E1 & C1) (t2 & E2 & C2). exists (t1 ++ t2). split.
  - rewrite E2, E1, app_assoc. reflexivity.
  - rewrite fatal_reports_app, raised_calls_app. congruence.
Qed.

Lemma Accounted_same (p p' : Parent M X B OUT) : trace p' = trace p -> Accounted p p'.
Proof. intros E. exists []. split; [rewrite E; symmetry; apply app_nil_r|reflexivity]. Qed.

Lemma Accounted_carried : Carried (@Accounted M X B OUT).
Proof.
  split.
  - apply Accounted_refl.
  - apply Accounted_trans.
  - intros p sev i Hi. exists [Ers sev i]. split; [reflexivity|].
    destruct i; try reflexivity. contradiction.
  - intros p x ov. unfold caught, invoke_apply. simpl.
    destruct (signal (maker_apply (m_maker p) x)).
    + eexists. split; [reflexivity|]. reflexivity.
    + eexists. split; [simpl; rewrite <- app_assoc; reflexivity|].
      reflexivity.
  - intros p t ov. unfold caught, invoke_flush. simpl.
    destruct (signal (maker_flush (m_maker p) t)).
    + eexists. split; [reflexivity|]. reflexivity.
    + eexists. split; [simpl; rewrite <- app_assoc; reflexivity|].
      reflexivity.
Qed.

Lemma Accounted_forwards : Forwards (@Accounted M X B OUT).
Proof.
  intros o p. destruct (forward_cases o p) as [[Et _]|[Et _]];
    eexists; (split; [exact Et|reflexivity]).
Qed.

End Accounting.

Lemma Accounted_emit {M A B IB OB : Type} {maker : Maker M A B}
  {ibuf : TimeSliceInputBuffer IB A} {obuf : TimeSliceOutputBuffer OB B}
  (w : Mode3.Worker M A B IB OB) :
  Accounted (Mode3.m_parent w) (Mode3.m_parent (Mode3.emit_step w)).
Proof.
  destruct (emit_step_cases w) as [_ [(_ & Et & _)|[(_ & Et & _)|(_ & Et & _)]]];
    eexists; (split; [exact Et|reflexivity]).
Qed.

Section ReportingOnce.

Context {W IN M X B OUT : Type} {ops : WorkerOps W IN M X B OUT}.

Hypothesis parent_with_parent : forall p (w : W), parent (with_parent p w) = p.
Hypothesis process_accounted :
  forall fuel in_ (w w' : W) sg,
    worker_process fuel in_ w = Some (sg, w') ->
    sg = Completed /\ Accounted (parent w) (parent w').

Lemma reports_once_of_steps : ReportsOnce ops.
Proof.
  split.
  - intros in_ w fuel [sg w'] H. apply process_accounted in H. apply H.
  - intros rx w fuel [[sg w'] rx'] H.
    refine (proj2 (@receive_loop_carried _ _ _ _ _ _ ops (@Accounted M X B OUT)
                     _ _ _ parent_with_parent process_accounted
                     fuel rx rx' w w' sg H)).
    + apply Accounted_refl.
    + apply Accounted_trans.
    + intros n p. apply Accounted_same. reflexivity.
Qed.

End ReportingOnce.

(** * The claims *)

(** A Mode 3 run, from [do_start] to the end of [do_work], numbers its send
    attempts from zero. *)
Lemma mode3_run_numbered
  (M A B IB OB : Type) (maker : Maker M A B) (ibuf : TimeSliceInputBuffer IB A)
  (obuf : TimeSliceOutputBuffer OB B) (fresh : M) (w0 w' : Mode3.Worker M A B IB OB)
  (running_flag : list bool) (rx rx' : list (option (SetOf A))) (fuel : nat)
  (sg : Signal) :
  do_work fuel running_flag rx (do_start fresh w0) = Some (sg, w', rx') ->
  exists t,
    trace (Mode3.m_parent w') = trace (Mode3.m_parent w0) ++ t
    /\ numbered 0%N (sends t).
Proof.
intros H. destruct (do_work_Numbered _ _ _ _ H) as [_ (t & Et & Hn & _)].
exists t. split; [exact Et|exact Hn].
Qed.

(** A Mode 3 run returns when the output buffer drains. *)
Lemma mode3_run_settles
  (M A B IB OB : Type) (maker : Maker M A B) (ibuf : TimeSliceInputBuffer IB A)
  (obuf : TimeSliceOutputBuffer OB B) (pending : OB -> nat)
  (w : Mode3.Worker M A B IB OB) (running_flag : list bool)
  (rx : list (option (SetOf A))) :
  Drains pending -> Settles (fun fuel => do_work fuel running_flag rx w).
Proof.
intros D.
destruct (do_work_settles (ops := Mode3_ops) (process_settles D) (drain_settles D true)
            running_flag rx w) as (w' & rx' & H).
eexists. exact H.
Qed.

(** C1, on the code as it is: the drain at worker exit does not complete in
    Mode 2.  A stage started on [Echo] that has received one payload set and
    is then stopped flushes the set, the algorithm pushes its outputs, and
    the loop of [drain(true)] over them never ends, however much fuel it is
    given: [do_work] does not return, and neither does [drain(true)] on a
    stage that holds a slice. *)
Theorem mode2_drain_on_exit_never_returns :
  forall fuel,
    do_work fuel [true; false] [Some (Examples.payload 0%N 100%N [5%N])]
      (do_start 0 Examples.idle2) = None
    /\ Mode2.drain fuel true Examples.loaded2 = None.
Proof.
intros fuel. split.
- simpl. unfold exit_work. simpl worker_drain.
  match goal with
  | |- context [Mode2.drain fuel true ?w] =>
      rewrite (@drain_drop_stuck _ _ _ _ _ _ w [5%N] 0%N 100%N None);
      [reflexivity|reflexivity|discriminate]
  end.
- apply (@drain_drop_stuck _ _ _ _ _ _ _ [5%N; 30%N] 0%N 100%N None);
    [reflexivity|discriminate].
Qed.

(** C2 as stated fails: the slice [[0, 100)] holds 5 and 30, [Echo] pushes
    5, 6, 30, 31 in that order, and the stage hands 31, 30, 6, 5 to the
    output channel, which takes them in that order. *)
Lemma mode2_outputs_leave_back_to_front :
  exists w',
    Mode2.process 5 (Examples.payload 100%N 200%N [105%N]) Examples.loaded2
    = Some (Completed, w')
    /\ invoked (trace (Mode2.m_parent w')) = [5; 30]%N
    /\ produced (trace (Mode2.m_parent w')) = [5; 6; 30; 31]%N
    /\ delivered (trace (Mode2.m_parent w')) = [31; 30; 6; 5]%N
    /\ delivered (trace (Mode2.m_parent w')) <> produced (trace (Mode2.m_parent w')).
Proof.
eexists. split; [vm_compute; reflexivity|].
repeat split; try reflexivity. discriminate.
Qed.

(** C2, amended: in Mode 2, when a payload set completes a time slice, the
    algorithm is applied to the elements of the slice in their (time) order, to
    all of them unless a call raises, and every element it pushed is then
    handed to [send] starting from the last one: the sequence offered to the
    output channel is the reverse of the sequence the algorithm produced.
    The call returns. *)
Theorem mode2_slice_outputs_sent_in_reverse :
  forall (M A OUT IB : Type) (maker : Maker M A OUT)
         (ibuf : TimeSliceInputBuffer IB A)
         (in_ : SetOf A) (w : Mode2.Worker M A OUT IB)
         (slice : list A) (s e : timestamp_t) (b : IB),
    type in_ = kPayload ->
    in_buffer in_ (Mode2.m_in_buffer w) = (Some (slice, s, e), b) ->
    Returns (fun fuel => Mode2.process fuel in_ w)
      (fun r =>
         fst r = Completed
         /\ exists d,
              trace (Mode2.m_parent (snd r)) = trace (Mode2.m_parent w) ++ d
              /\ (exists rest,
                     slice = invoked d ++ rest
                     /\ (slice_completes (m_maker (Mode2.m_parent w)) slice = true
                         -> rest = []))
              /\ offered d = rev (produced d))
    /\ Settles (fun fuel => Mode2.process fuel in_ w).
Proof.
intros M A OUT IB maker ibuf in_ w slice s e b Ht Hb. split.
- intros fuel [sg w'] H.
  destruct (@process_released_slice _ _ _ _ _ _ in_ w w' slice s e b fuel sg Ht Hb H)
    as (-> & _ & Hd).
  split; [reflexivity|exact Hd].
- destruct (@mode2_process_settles _ _ _ _ _ _ (@Reported _ _ _) Reported_closed in_ w)
    as (w' & H).
  eexists. exact H.
Qed.

Lemma mode2_slice_outputs_sent_in_reverse_witness :
  exists r,
    Mode2.process 5 (Examples.payload 100%N 200%N [105%N]) Examples.loaded2 = Some r
    /\ (fst r = Completed
        /\ exists d,
             trace (Mode2.m_parent (snd r)) = trace (Mode2.m_parent Examples.loaded2) ++ d
             /\ (exists rest,
                    [5; 30]%N = invoked d ++ rest
                    /\ (slice_completes (m_maker (Mode2.m_parent Examples.loaded2))
                          [5; 30]%N = true
                        -> rest = []))
             /\ offered d = rev (produced d))
    /\ Settles (fun fuel => Mode2.process fuel (Examples.payload 100%N 200%N [105%N])
                              Examples.loaded2).
Proof.
destruct (@mode2_slice_outputs_sent_in_reverse nat N N (SpecInput.Buffer N) _ _
            (Examples.payload 100%N 200%N [105%N]) Examples.loaded2 [5; 30]%N 0%N 100%N
            (Some (SpecInput.mkSlice 100%N 200%N [105%N]))
            ltac:(reflexivity) ltac:(reflexivity)) as [HR HS].
eexists. split; [vm_compute; reflexivity|].
split; [apply (HR 5); vm_compute; reflexivity|exact HS].
Defined.

(** C3: in every run of a Mode 3 stage, the sequence numbers of the sets that
    were sent with success are strictly increasing in the order of emission
    (the counter they come from is 64 bits wide, so this is said of runs
    that send at most [2^64] sets).  The run returns when the output buffer
    drains. *)
Theorem mode3_seqno_strictly_increasing :
  forall (M A B IB OB : Type) (maker : Maker M A B)
         (ibuf : TimeSliceInputBuffer IB A) (obuf : TimeSliceOutputBuffer OB B)
         (fresh : M) (w0 : Mode3.Worker M A B IB OB)
         (running_flag : list bool) (rx : list (option (SetOf A))),
    Returns (fun fuel => do_work fuel running_flag rx (do_start fresh w0))
      (fun r =>
         exists t,
           trace (Mode3.m_parent (snd (fst r))) = trace (Mode3.m_parent w0) ++ t
           /\ ((N.of_nat (length (delivered t)) <= size_t_modulus)%N ->
               StronglySorted N.lt (map (@seqno B) (delivered t))))
    /\ (forall pending : OB -> nat,
           Drains pending ->
           Settles (fun fuel => do_work fuel running_flag rx (do_start fresh w0))).
Proof.
intros M A B IB OB maker ibuf obuf fresh w0 running_flag rx. split.
- intros fuel [[sg w'] rx'] H.
  apply mode3_run_numbered in H. destruct H as (t & Et & Hn).
  exists t. split; [exact Et|].
  intros L. unfold delivered in *.
  apply (numbered_sorted _ Hn); [reflexivity|].
  rewrite length_map in L. exact L.
- intros pending D. eapply mode3_run_settles, D.
Qed.

Lemma mode3_seqno_strictly_increasing_witness :
  exists r,
    do_work 10 [true; false] Examples3.s1 (do_start 0 (Examples3.idle [false])) = Some r
    /\ (exists t,
           trace (Mode3.m_parent (snd (fst r)))
           = trace (Mode3.m_parent (Examples3.idle [false])) ++ t
           /\ ((N.of_nat (length (delivered t)) <= size_t_modulus)%N ->
               StronglySorted N.lt (map (@seqno N) (delivered t))))
    /\ Settles (fun fuel => do_work fuel [true; false] Examples3.s1
                              (do_start 0 (Examples3.idle [false]))).
Proof.
destruct (@mode3_seqno_strictly_increasing nat N N (SpecInput.Buffer N)
            (SpecOutput.Buffer N) _ _ _ 0 (Examples3.idle [false])
            [true; false] Examples3.s1) as [HR HS].
eexists. split; [vm_compute; reflexivity|].
split; [apply (HR 10); vm_compute; reflexivity|].
apply (HS SpecOutput.size), spec_output_drains.
Defined.

(** Scenario S1 with a first send that times out: the window [[0, 100)] is
    dropped with the number 0, and the three sets that follow leave with the
    numbers 0, 1 and 2. *)
Example s1_with_a_timeout :
  exists w' rx',
    do_work 10 [true; false] Examples3.s1 (do_start 0 (Examples3.idle [false]))
    = Some (Completed, w', rx')
    /\ map (fun a => (start_time (fst a), seqno (fst a), snd a))
         (sends (trace (Mode3.m_parent w')))
       = [(0, 0, false); (100, 0, true); (200, 1, true); (400, 2, true)]%N.
Proof. eexists. eexists. split; [vm_compute; reflexivity|reflexivity]. Qed.

(** C4 as stated fails: [drain(true)], the drain of every worker exit, pops
    the heartbeat of tick 50 from the output buffer and hands nothing to
    [send]. *)
Lemma mode3_drain_drops_popped_heartbeat :
  exists w',
    Mode3.drain 10 true (Examples3.loaded []) = Some (Completed, w')
    /\ In (Examples.heartbeat 50%N 60%N) (pops (trace (Mode3.m_parent w')))
    /\ offered (trace (Mode3.m_parent w')) = [].
Proof.
eexists. split; [vm_compute; reflexivity|]. split; [|reflexivity].
right. left. reflexivity.
Qed.

(** C4, amended: in Mode 3 every set of type payload that the stage hands to
    [send] has objects (a popped payload window without objects is skipped),
    and every heartbeat that [process], or [drain] with [drop] off, pops from
    the output buffer is handed to [send] at once, with its sequence number
    and origin written; [drain] with [drop] on pops what the buffer holds and
    hands nothing to [send].  The calls return when the output buffer
    drains. *)
Theorem mode3_payloads_nonempty_heartbeats_offered :
  forall (M A B IB OB : Type) (maker : Maker M A B)
         (ibuf : TimeSliceInputBuffer IB A) (obuf : TimeSliceOutputBuffer OB B)
         (w : Mode3.Worker M A B IB OB),
    (forall in_,
        Returns (fun fuel => Mode3.process fuel in_ w)
          (fun r =>
             exists t,
               trace (Mode3.m_parent (snd r)) = trace (Mode3.m_parent w) ++ t
               /\ Forall payload_nonempty t /\ heartbeats_forwarded t))
    /\ Returns (fun fuel => Mode3.drain fuel false w)
         (fun r =>
            exists t,
              trace (Mode3.m_parent (snd r)) = trace (Mode3.m_parent w) ++ t
              /\ Forall payload_nonempty t /\ heartbeats_forwarded t)
    /\ Returns (fun fuel => Mode3.drain fuel true w)
         (fun r =>
            exists t,
              trace (Mode3.m_parent (snd r)) = trace (Mode3.m_parent w) ++ t
              /\ sends t = [])
    /\ (forall pending : OB -> nat,
           Drains pending ->
           (forall in_, Settles (fun fuel => Mode3.process fuel in_ w))
           /\ (forall drop, Settles (fun fuel => Mode3.drain fuel drop w))).
Proof.
intros M A B IB OB maker ibuf obuf w. split; [|split; [|split]].
- intros in_ fuel [sg w'] H. apply process_sends in H. apply H.
- intros fuel [sg w'] H. apply drain_keep_sends in H. apply H.
- intros fuel [sg w'] H. apply drain_drop_silent in H. apply H.
- intros pending D. split.
  + intros in_. destruct (process_settles D in_ w) as (w' & H). eexists. exact H.
  + intros drop. destruct (drain_settles D drop w) as (w' & H). eexists. exact H.
Qed.

Lemma mode3_payloads_nonempty_heartbeats_offered_witness :
  (exists r,
      Mode3.process 10 (Examples.heartbeat 300%N 400%N) (Examples3.loaded [false]) = Some r
      /\ exists t,
           trace (Mode3.m_parent (snd r))
           = trace (Mode3.m_parent (Examples3.loaded [false])) ++ t
           /\ Forall payload_nonempty t /\ heartbeats_forwarded t)
  /\ (exists r,
         Mode3.drain 10 false (Examples3.loaded [false]) = Some r
         /\ exists t,
              trace (Mode3.m_parent (snd r))
              = trace (Mode3.m_parent (Examples3.loaded [false])) ++ t
              /\ Forall payload_nonempty t /\ heartbeats_forwarded t)
  /\ (exists r,
         Mode3.drain 10 true (Examples3.loaded [false]) = Some r
         /\ exists t,
              trace (Mode3.m_parent (snd r))
              = trace (Mode3.m_parent (Examples3.loaded [false])) ++ t
              /\ sends t = [])
  /\ (forall in_, Settles (fun fuel => Mode3.process fuel in_ (Examples3.loaded [false])))
  /\ (forall drop, Settles (fun fuel => Mode3.drain fuel drop (Examples3.loaded [false]))).
Proof.
destruct (@mode3_payloads_nonempty_heartbeats_offered nat N N (SpecInput.Buffer N)
            (SpecOutput.Buffer N) _ _ _ (Examples3.loaded [false]))
  as (HP & HK & HD & HS).
split; [|split; [|split]].
- eexists. split; [vm_compute; reflexivity|].
  apply (HP (Examples.heartbeat 300%N 400%N) 10). vm_compute. reflexivity.
- eexists. split; [vm_compute; reflexivity|]. apply (HK 10). vm_compute. reflexivity.
- eexists. split; [vm_compute; reflexivity|]. apply (HD 10). vm_compute. reflexivity.
- apply (HS SpecOutput.size), spec_output_drains.
Defined.

(** C5: in Mode 3, a payload set whose [start_time] is strictly less than
    that of the payload set processed before it (heartbeats and unknown sets
    may have come in between) makes the stage emit an [OutOfOrderSets]
    warning, and the set is processed all the same: it goes to the input
    buffer, and a slice that it completes goes to the algorithm.  The call
    returns when the output buffer drains. *)
Theorem mode3_late_payload_warned_and_absorbed :
  forall (M A B IB OB : Type) (maker : Maker M A B)
         (ibuf : TimeSliceInputBuffer IB A) (obuf : TimeSliceOutputBuffer OB B)
         (w0 w : Mode3.Worker M A B IB OB) (prev_in in_ : SetOf A)
         (between : list (SetOf A)) (fuel0 : nat) (rx0 : list (option (SetOf A))),
    type prev_in = kPayload ->
    Forall (fun i => is_payload i = false) between ->
    receive_loop fuel0 (map Some (prev_in :: between)) w0 = Some (Completed, w, rx0) ->
    type in_ = kPayload ->
    (start_time in_ < start_time prev_in)%N ->
    Returns (fun fuel => Mode3.process fuel in_ w)
      (fun r =>
         fst r = Completed
         /\ Mode3.m_in_buffer (snd r) = snd (in_buffer in_ (Mode3.m_in_buffer w))
         /\ exists t,
              trace (Mode3.m_parent (snd r))
              = trace (Mode3.m_parent w)
                  ++ Ers Warning (OutOfOrderSets (start_time prev_in) (start_time in_))
                  :: t
              /\ (forall slice s e,
                     fst (in_buffer in_ (Mode3.m_in_buffer w)) = Some (slice, s, e) ->
                     exists t',
                       t = slice_events (m_maker (Mode3.m_parent w)) slice ++ t'))
    /\ (forall pending : OB -> nat,
           Drains pending -> Settles (fun fuel => Mode3.process fuel in_ w)).
Proof.
intros M A B IB OB maker ibuf obuf w0 w prev_in in_ between fuel0 rx0
       Hp Hb Hrun Ht Hlt.
assert (Hprev : Mode3.m_prev_start_time w = start_time prev_in).
{ rewrite (receive_loop_prev_start_time _ _ _ Hrun eq_refl).
  unfold last_payload_start. simpl. unfold is_payload at 2. rewrite Hp.
  apply (last_payload_start_others _ Hb). }
rewrite <- Hprev in *. split.
- intros fuel [sg w'] H. simpl.
  destruct (process_after_dispatch _ _ _ H) as (t2 & Et2 & Eb & _).
  destruct (dispatch_late_payload in_ w Ht Hlt) as (Eb' & _ & t1 & Et1 & Hs).
  apply (process_Step Reported_closed Reported_emit) in H. destruct H as [-> _].
  split; [reflexivity|]. split; [rewrite Eb; exact Eb'|].
  exists (t1 ++ t2). split.
  + rewrite Et2, Et1, <- app_assoc. reflexivity.
  + intros slice s e Hf. exists t2. f_equal. eapply Hs, Hf.
- intros pending D. destruct (process_settles D in_ w) as (w' & H). eexists. exact H.
Qed.

Lemma mode3_late_payload_warned_and_absorbed_witness :
  exists r,
    Mode3.process 10 (Examples.payload 100%N 200%N [150%N])
      (after_inputs [Examples.payload 200%N 300%N [210%N];
                     Examples.heartbeat 250%N 260%N]) = Some r
    /\ (fst r = Completed
        /\ Mode3.m_in_buffer (snd r) = Some (SpecInput.mkSlice 100%N 200%N [150%N])
        /\ exists t,
             trace (Mode3.m_parent (snd r))
             = trace (Mode3.m_parent
                        (after_inputs [Examples.payload 200%N 300%N [210%N];
                                       Examples.heartbeat 250%N 260%N]))
                 ++ Ers Warning (OutOfOrderSets 200%N 100%N) :: t)
    /\ Settles
         (fun fuel =>
            Mode3.process fuel (Examples.payload 100%N 200%N [150%N])
              (after_inputs [Examples.payload 200%N 300%N [210%N];
                             Examples.heartbeat 250%N 260%N])).
Proof.
destruct (@mode3_late_payload_warned_and_absorbed nat N N (SpecInput.Buffer N)
            (SpecOutput.Buffer N) _ _ _ (Examples3.idle [])
            (after_inputs [Examples.payload 200%N 300%N [210%N];
                           Examples.heartbeat 250%N 260%N])
            (Examples.payload 200%N 300%N [210%N]) (Examples.payload 100%N 200%N [150%N])
            [Examples.heartbeat 250%N 260%N] 10 []
            ltac:(reflexivity) ltac:(repeat constructor)
            ltac:(vm_compute; reflexivity) ltac:(reflexivity) ltac:(reflexivity))
  as [HR HS].
eexists. split; [vm_compute; reflexivity|]. split.
- destruct (HR 10 _ ltac:(vm_compute; reflexivity)) as (Hc & Hb & t & Et & _).
  split; [exact Hc|]. split; [exact Hb|]. exists t. exact Et.
- apply (HS SpecOutput.size), spec_output_drains.
Defined.

(** Scenario S3 of the specification: a payload set of [start_time] 200, then
    one of [start_time] 100.  One warning, and the second set is in the input
    buffer. *)
Example s3_out_of_order :
  exists w' rx',
    receive_loop 10
      [Some (Examples.payload 200%N 300%N [210%N]);
       Some (Examples.payload 100%N 200%N [150%N])] (Examples3.idle [])
    = Some (Completed, w', rx')
    /\ trace (Mode3.m_parent w')
       = [Ers Warning (OutOfOrderSets 200%N 100%N); Invoke 210%N [210; 211]%N Completed]
    /\ Mode3.m_in_buffer w' = Some (SpecInput.mkSlice 100%N 200%N [150%N]).
Proof. eexists. eexists. split; [vm_compute; reflexivity|]. split; reflexivity. Qed.

(** C6: on a heartbeat the input buffer is flushed, and when the flushed
    slice ends strictly after the heartbeat starts, a fatal [OutOfOrderSets]
    is emitted and the flushed slice still goes through the algorithm,
    in Mode 2 and in Mode 3 alike.  The call returns (in Mode 3, when the
    output buffer drains). *)
Theorem heartbeat_before_slice_end_is_fatal_and_slice_processed :
  forall (M A OUT B IB OB : Type) (maker2 : Maker M A OUT) (maker3 : Maker M A B)
         (ibuf : TimeSliceInputBuffer IB A) (obuf : TimeSliceOutputBuffer OB B)
         (in_ : SetOf A),
    type in_ = kHeartbeat ->
    (forall w : Mode2.Worker M A OUT IB,
        Returns (fun fuel => Mode2.process fuel in_ w)
          (fun r =>
             fst r = Completed
             /\ Mode2.m_in_buffer (snd r) = snd (in_flush (Mode2.m_in_buffer w))
             /\ forall slice s e,
                  fst (in_flush (Mode2.m_in_buffer w)) = Some (slice, s, e) ->
                  (start_time in_ < e)%N ->
                  exists t,
                    trace (Mode2.m_parent (snd r))
                    = trace (Mode2.m_parent w)
                        ++ Ers Fatal (OutOfOrderSets e (start_time in_))
                        :: slice_events (m_maker (Mode2.m_parent w)) slice ++ t)
        /\ Settles (fun fuel => Mode2.process fuel in_ w))
    /\ (forall w : Mode3.Worker M A B IB OB,
           Returns (fun fuel => Mode3.process fuel in_ w)
             (fun r =>
                fst r = Completed
                /\ Mode3.m_in_buffer (snd r) = snd (in_flush (Mode3.m_in_buffer w))
                /\ forall slice s e,
                     fst (in_flush (Mode3.m_in_buffer w)) = Some (slice, s, e) ->
                     (start_time in_ < e)%N ->
                     exists t,
                       trace (Mode3.m_parent (snd r))
                       = trace (Mode3.m_parent w)
                           ++ Ers Fatal (OutOfOrderSets e (start_time in_))
                           :: slice_events (m_maker (Mode3.m_parent w)) slice ++ t)
           /\ (forall pending : OB -> nat,
                  Drains pending -> Settles (fun fuel => Mode3.process fuel in_ w))).
Proof.
intros M A OUT B IB OB maker2 maker3 ibuf obuf in_ Ht. split.
- intros w. split.
  + intros fuel [sg w'] H. simpl.
    destruct (mode2_process_after_dispatch _ _ _ H) as (t2 & Et2 & Eb).
    destruct (mode2_dispatch_heartbeat in_ w Ht) as (Eb' & Hs).
    eapply (@mode2_process_Step _ _ _ _ _ _ (@Reported _ _ _)) in H;
      [|apply Reported_closed|apply Reported_sending].
    destruct H as [-> _].
    split; [reflexivity|]. split; [rewrite Eb; exact Eb'|].
    intros slice s e Hf Hlt. destruct (Hs slice s e Hf Hlt) as (t1 & Et1).
    exists (t1 ++ t2). rewrite Et2, Et1, <- !app_assoc. simpl.
    rewrite <- app_assoc. reflexivity.
  + destruct (@mode2_process_settles _ _ _ _ _ _ (@Reported _ _ _) Reported_closed in_ w)
      as (w' & H).
    eexists. exact H.
- intros w. split.
  + intros fuel [sg w'] H. simpl.
    destruct (process_after_dispatch _ _ _ H) as (t2 & Et2 & Eb & _).
    destruct (dispatch_heartbeat in_ w Ht) as (Eb' & Hs).
    apply (process_Step Reported_closed Reported_emit) in H. destruct H as [-> _].
    split; [reflexivity|]. split; [rewrite Eb; exact Eb'|].
    intros slice s e Hf Hlt. destruct (Hs slice s e Hf Hlt) as (t1 & Et1).
    exists (t1 ++ t2). rewrite Et2, Et1, <- !app_assoc. simpl.
    rewrite <- app_assoc. reflexivity.
  + intros pending D. destruct (process_settles D in_ w) as (w' & H). eexists. exact H.
Qed.

Lemma heartbeat_before_slice_end_is_fatal_and_slice_processed_witness :
  (exists r t,
      Mode2.process 10 (Examples.heartbeat 20%N 30%N) Examples.loaded2 = Some r
      /\ fst r = Completed
      /\ Mode2.m_in_buffer (snd r) = None
      /\ trace (Mode2.m_parent (snd r))
         = Ers Fatal (OutOfOrderSets 100%N 20%N)
           :: [Invoke 5%N [5; 6]%N Completed; Invoke 30%N [30; 31]%N Completed] ++ t)
  /\ (exists r t,
         Mode3.process 10 (Examples.heartbeat 20%N 30%N) (Examples3.loaded []) = Some r
         /\ fst r = Completed
         /\ Mode3.m_in_buffer (snd r) = None
         /\ trace (Mode3.m_parent (snd r))
            = Ers Fatal (OutOfOrderSets 100%N 20%N)
              :: [Invoke 5%N [5; 6]%N Completed] ++ t)
  /\ Settles (fun fuel => Mode2.process fuel (Examples.heartbeat 20%N 30%N)
                            Examples.loaded2)
  /\ Settles (fun fuel => Mode3.process fuel (Examples.heartbeat 20%N 30%N)
                            (Examples3.loaded [])).
Proof.
destruct (@heartbeat_before_slice_end_is_fatal_and_slice_processed nat N N N
            (SpecInput.Buffer N) (SpecOutput.Buffer N) _ _ _ _
            (Examples.heartbeat 20%N 30%N) eq_refl) as [H2 H3].
destruct (H2 Examples.loaded2) as [HR2 HS2].
destruct (H3 (Examples3.loaded [])) as [HR3 HS3].
split; [|split; [|split]].
- destruct (HR2 10 _ ltac:(vm_compute; reflexivity)) as (Hc & Hb & Ht).
  destruct (Ht [5; 30]%N 0%N 100%N eq_refl eq_refl) as (t & Et).
  eexists. exists t. split; [vm_compute; reflexivity|].
  split; [exact Hc|]. split; [exact Hb|exact Et].
- destruct (HR3 10 _ ltac:(vm_compute; reflexivity)) as (Hc & Hb & Ht).
  destruct (Ht [5%N] 0%N 100%N eq_refl eq_refl) as (t & Et).
  eexists. exists t. split; [vm_compute; reflexivity|].
  split; [exact Hc|]. split; [exact Hb|exact Et].
- exact HS2.
- apply (HS3 SpecOutput.size), spec_output_drains.
Defined.

(** C7: a failure raised by the algorithm's [apply] or [flush] is caught
    inside the stage and reported at once as an [AlgorithmFatalError], once
    for the call that raised and for no other; it never leaves [process], in
    any of the three modes, and the worker goes on: the receive loop calls
    [process] once for every input that arrives before the next timeout, in
    order, each call on the worker the call before has left, so the input
    that follows a failure is processed like any other.  [process] and the
    receive loop return (in Mode 3, when the output buffer drains). *)
Theorem algorithm_failures_are_contained :
  forall (M IN A OUT B IB OB : Type)
         (maker1 : Maker M IN OUT) (maker2 : Maker M A OUT) (maker3 : Maker M A B)
         (ibuf : TimeSliceInputBuffer IB A) (obuf : TimeSliceOutputBuffer OB B),
    (Contains (Mode1_ops (maker := maker1))
     /\ ReportsOnce (Mode1_ops (maker := maker1))
     /\ Continues (Mode1_ops (maker := maker1))
     /\ Settling (Mode1_ops (maker := maker1)))
    /\ (Contains (Mode2_ops (maker := maker2) (ibuf := ibuf))
        /\ ReportsOnce (Mode2_ops (maker := maker2) (ibuf := ibuf))
        /\ Continues (Mode2_ops (maker := maker2) (ibuf := ibuf))
        /\ Settling (Mode2_ops (maker := maker2) (ibuf := ibuf)))
    /\ (Contains (Mode3_ops (maker := maker3) (ibuf := ibuf) (obuf := obuf))
        /\ ReportsOnce (Mode3_ops (maker := maker3) (ibuf := ibuf) (obuf := obuf))
        /\ Continues (Mode3_ops (maker := maker3) (ibuf := ibuf) (obuf := obuf))
        /\ (forall pending : OB -> nat,
               Drains pending ->
               Settling (Mode3_ops (maker := maker3) (ibuf := ibuf) (obuf := obuf)))).
Proof.
intros M IN A OUT B IB OB maker1 maker2 maker3 ibuf obuf.
assert (H1 : forall fuel in_ (w w' : Mode1.Worker M IN OUT) sg,
           Mode1.process fuel in_ w = Some (sg, w') ->
           sg = Completed
           /\ Step (@Reported IN OUT OUT) (Mode1.m_parent w) (Mode1.m_parent w')).
{ intros fuel in_ w w' sg H.
  eapply (@mode1_process_Step _ _ _ _ (@Reported _ _ _));
    [apply Reported_closed|apply Reported_sending|exact H]. }
assert (H2 : forall fuel in_ (w w' : Mode2.Worker M A OUT IB) sg,
           Mode2.process fuel in_ w = Some (sg, w') ->
           sg = Completed
           /\ Step (@Reported A OUT OUT) (Mode2.m_parent w) (Mode2.m_parent w')).
{ intros fuel in_ w w' sg H.
  eapply (@mode2_process_Step _ _ _ _ _ _ (@Reported _ _ _));
    [apply Reported_closed|apply Reported_sending|exact H]. }
assert (H3 : forall fuel in_ (w w' : Mode3.Worker M A B IB OB) sg,
           Mode3.process fuel in_ w = Some (sg, w') ->
           sg = Completed
           /\ Step (@Reported A B (SetOf B)) (Mode3.m_parent w) (Mode3.m_parent w')).
{ intros fuel in_ w w' sg H.
  eapply (@process_Step _ _ _ _ _ _ _ _ (@Reported _ _ _));
    [apply Reported_closed|apply Reported_emit|exact H]. }
split; [|split]; (split; [|split; [|split]]).
- apply (contains_of_steps (ops := Mode1_ops)); [reflexivity|exact H1].
- apply (reports_once_of_steps (ops := Mode1_ops)); [reflexivity|].
  intros fuel in_ w w' sg. apply mode1_process_carried.
  + apply Accounted_carried.
  + apply Accounted_forwards.
- apply (continues_of_steps (ops := Mode1_ops)). exact H1.
- apply (settling_of_process (ops := Mode1_ops)), mode1_process_settles.
- apply (contains_of_steps (ops := Mode2_ops)); [reflexivity|exact H2].
- apply (reports_once_of_steps (ops := Mode2_ops)); [reflexivity|].
  intros fuel in_ w w' sg. apply mode2_process_carried.
  + apply Accounted_carried.
  + apply Accounted_forwards.
- apply (continues_of_steps (ops := Mode2_ops)). exact H2.
- apply (settling_of_process (ops := Mode2_ops)).
  apply (@mode2_process_settles _ _ _ _ _ _ (@Reported _ _ _) Reported_closed).
- apply (contains_of_steps (ops := Mode3_ops)); [reflexivity|exact H3].
- apply (reports_once_of_steps (ops := Mode3_ops)); [reflexivity|].
  intros fuel in_ w w' sg. apply mode3_process_carried.
  + apply Accounted_carried.
  + intros w2 Hw2. eapply Accounted_trans; [exact Hw2|apply Accounted_emit].
- apply (continues_of_steps (ops := Mode3_ops)). exact H3.
- intros pending D. apply (settling_of_process (ops := Mode3_ops)), (process_settles D).
Qed.

Lemma algorithm_failures_are_contained_witness :
  exists w',
    receive_loop 10 [Some 13%N; Some 20%N; None; Some 7%N]
      (Mode1.mkWorker (Examples.parent0 N [])) = Some (Completed, w', [Some 7%N])
    /\ process_each 10 [13%N; 20%N] (Mode1.mkWorker (Examples.parent0 N [])) = Some w'
    /\ trace (Mode1.m_parent w')
       = [Invoke 13%N [13%N] Raised; Ers Fatal AlgorithmFatalError;
          Invoke 20%N [20; 21]%N Completed; Send 21%N true; Send 20%N true]
    /\ fatal_reports (trace (Mode1.m_parent w')) = 1
    /\ Settles (fun fuel =>
                  receive_loop fuel [Some 13%N; Some 20%N; None; Some 7%N]
                    (Mode1.mkWorker (Examples.parent0 N []))).
Proof.
destruct (@algorithm_failures_are_contained nat N N N N (SpecInput.Buffer N)
            (SpecOutput.Buffer N) _ _ _ _ _) as ((_ & _ & Hc & _ & Hs) & _).
eexists. split; [vm_compute; reflexivity|].
split; [|split; [reflexivity|split; [reflexivity|apply Hs]]].
match goal with
| |- process_each _ _ _ = Some ?w =>
    destruct (Hc 10 [Some 13%N; Some 20%N; None; Some 7%N]
                (Mode1.mkWorker (Examples.parent0 N [])) (Completed, w, [Some 7%N])
                ltac:(vm_compute; reflexivity)) as (w1 & Hp & Er)
end.
injection Er as <-. exact Hp.
Defined.

(** [Echo] raises on the element 13 and on the flush at tick 13: each failure
    is reported and the inputs that follow are handled. *)
Example failures_in_a_run :
  exists w' rx',
    do_work 10 [true; false]
      [Some (Examples.payload 0%N 100%N [13%N; 20%N]);
       Some (Examples.heartbeat 13%N 13%N);
       Some (Examples.payload 100%N 200%N [150%N]);
       Some (Examples.heartbeat 300%N 400%N)]
      (do_start 0 (Examples3.idle []))
    = Some (Completed, w', rx')
    /\ m_received_count (Mode3.m_parent w') = 4%N
    /\ filter (fun e => match e with Popped _ | Send _ _ => false | _ => true end)
         (trace (Mode3.m_parent w'))
       = [Ers Fatal (OutOfOrderSets 100%N 13%N);
          Invoke 13%N [13%N] Raised; Ers Fatal AlgorithmFatalError;
          InvokeFlush 13%N [] Raised; Ers Fatal AlgorithmFatalError;
          Invoke 150%N [150; 151]%N Completed; InvokeFlush 400%N [] Completed].
Proof. eexists. eexists. split; [vm_compute; reflexivity|]. split; reflexivity. Qed.

(** C8: in Mode 3, [drain] with [drop] on hands nothing to [send] and leaves
    [m_sent_count] as it was, whatever the input and output buffers hold; the
    output buffer is empty afterwards, so the partial windows it held were
    released and not forwarded.  The call returns when the output buffer
    drains. *)
Theorem mode3_drain_drop_sends_nothing :
  forall (M A B IB OB : Type) (maker : Maker M A B)
         (ibuf : TimeSliceInputBuffer IB A) (obuf : TimeSliceOutputBuffer OB B)
         (w : Mode3.Worker M A B IB OB),
    Returns (fun fuel => Mode3.drain fuel true w)
      (fun r =>
         fst r = Completed
         /\ (exists t,
                trace (Mode3.m_parent (snd r)) = trace (Mode3.m_parent w) ++ t
                /\ sends t = [])
         /\ m_sent_count (Mode3.m_parent (snd r)) = m_sent_count (Mode3.m_parent w)
         /\ out_empty (Mode3.m_out_buffer (snd r)) = true)
    /\ (forall pending : OB -> nat,
           Drains pending -> Settles (fun fuel => Mode3.drain fuel true w)).
Proof.
intros M A B IB OB maker ibuf obuf w. split.
- intros fuel [sg w'] H. apply drain_drop_silent in H. exact H.
- intros pending D. destruct (drain_settles D true w) as (w' & H). eexists. exact H.
Qed.

Lemma mode3_drain_drop_sends_nothing_witness :
  exists r,
    Mode3.drain 10 true (Examples3.loaded []) = Some r
    /\ (fst r = Completed
        /\ (exists t,
               trace (Mode3.m_parent (snd r))
               = trace (Mode3.m_parent (Examples3.loaded [])) ++ t
               /\ sends t = [])
        /\ m_sent_count (Mode3.m_parent (snd r))
           = m_sent_count (Mode3.m_parent (Examples3.loaded []))
        /\ out_empty (Mode3.m_out_buffer (snd r)) = true)
    /\ Settles (fun fuel => Mode3.drain fuel true (Examples3.loaded [])).
Proof.
destruct (@mode3_drain_drop_sends_nothing nat N N (SpecInput.Buffer N)
            (SpecOutput.Buffer N) _ _ _ (Examples3.loaded [])) as [HR HS].
eexists. split; [vm_compute; reflexivity|].
split; [apply (HR 10); vm_compute; reflexivity|].
apply (HS SpecOutput.size), spec_output_drains.
Defined.

(** C9: once a [running_flag.load()] reads false the worker leaves its
    loop: with the flag read true [k] times and then false, the worker runs
    [k] rounds of the receive loop, each up to a receive that times out, and
    then goes to [drain(true)] and [reset]; it pulls no further input, and the
    answers the channel holds beyond those [k] rounds are left untouched.
    (The bound [queue_timeout] on the pending receive is a matter of real
    time, outside this model.) *)
Theorem do_work_leaves_loop_when_flag_is_false :
  forall (W IN M X B OUT : Type) (ops : WorkerOps W IN M X B OUT)
         (fuel k : nat) (later : list bool) (rx : list (option IN)) (w : W),
    do_work fuel (repeat true k ++ false :: later) rx w
    = match receive_loops fuel k rx w with
      | Some (Completed, w1, rx1) => exit_work fuel rx1 w1
      | other => other
      end
    /\ (forall w1 rx1,
           receive_loops fuel k rx w = Some (Completed, w1, rx1) -> rx1 = bursts k rx)
    /\ (forall w1 rx1 sg w' rx',
           exit_work fuel rx1 w1 = Some (sg, w', rx') -> rx' = rx1).
Proof.
intros W IN M X B OUT ops fuel k later rx w. split; [apply do_work_rounds|]. split.
- intros w1 rx1. apply receive_loops_rest.
- intros w1 rx1 sg w' rx'. apply exit_work_rest.
Qed.

Lemma do_work_leaves_loop_when_flag_is_false_witness :
  exists w',
    do_work 10 [true; false; true]
      (Examples3.s1 ++ [None; Some (Examples.payload 300%N 400%N [310%N])])
      (do_start 0 (Examples3.idle []))
    = Some (Completed, w', [Some (Examples.payload 300%N 400%N [310%N])])
    /\ m_received_count (Mode3.m_parent w') = 5%N.
Proof.
destruct (@do_work_leaves_loop_when_flag_is_false _ _ _ _ _ _
            (Mode3_ops (M := nat) (A := N) (B := N) (IB := SpecInput.Buffer N)
               (OB := SpecOutput.Buffer N))
            10 1 [true]
            (Examples3.s1 ++ [None; Some (Examples.payload 300%N 400%N [310%N])])
            (do_start 0 (Examples3.idle []))) as (H1 & H2 & H3).
change (repeat true 1 ++ false :: [true]) with [true; false; true] in H1.
eexists. split; [rewrite H1; vm_compute; reflexivity|reflexivity].
Defined.

(** C10: a send that fails does not use up a sequence number.  In every run
    of a Mode 3 stage the set of rank [i] (from 0) among those sent with
    success carries the number [i] (for [i] below [2^64], the width of the
    counter), and the set offered after a send that failed carries the number
    that the dropped set carried.  The run returns when the output buffer
    drains. *)
Theorem mode3_failed_send_keeps_seqno :
  forall (M A B IB OB : Type) (maker : Maker M A B)
         (ibuf : TimeSliceInputBuffer IB A) (obuf : TimeSliceOutputBuffer OB B)
         (fresh : M) (w0 : Mode3.Worker M A B IB OB)
         (running_flag : list bool) (rx : list (option (SetOf A))),
    Returns (fun fuel => do_work fuel running_flag rx (do_start fresh w0))
      (fun r =>
         exists t,
           trace (Mode3.m_parent (snd (fst r))) = trace (Mode3.m_parent w0) ++ t
           /\ (forall i o,
                  nth_error (delivered t) i = Some o ->
                  (N.of_nat i < size_t_modulus)%N -> seqno o = N.of_nat i)
           /\ (forall l1 l2 o1 o2 ok,
                  sends t = l1 ++ (o1, false) :: (o2, ok) :: l2 ->
                  seqno o2 = seqno o1))
    /\ (forall pending : OB -> nat,
           Drains pending ->
           Settles (fun fuel => do_work fuel running_flag rx (do_start fresh w0))).
Proof.
intros M A B IB OB maker ibuf obuf fresh w0 running_flag rx. split.
- intros fuel [[sg w'] rx'] H.
  apply mode3_run_numbered in H. destruct H as (t & Et & Hn).
  exists t. split; [exact Et|]. split.
  + intros i o Hi Li. unfold delivered in Hi.
    rewrite (numbered_nth _ _ Hn eq_refl Hi). simpl. apply N.mod_small, Li.
  + intros l1 l2 o1 o2 ok E. rewrite E in Hn. eapply numbered_after_failure, Hn.
- intros pending D. eapply mode3_run_settles, D.
Qed.

Lemma mode3_failed_send_keeps_seqno_witness :
  exists r,
    do_work 10 [true; false] Examples3.s1 (do_start 0 (Examples3.idle [false])) = Some r
    /\ (exists t,
           trace (Mode3.m_parent (snd (fst r)))
           = trace (Mode3.m_parent (Examples3.idle [false])) ++ t
           /\ (forall i o,
                  nth_error (delivered t) i = Some o ->
                  (N.of_nat i < size_t_modulus)%N -> seqno o = N.of_nat i)
           /\ (forall l1 l2 o1 o2 ok,
                  sends t = l1 ++ (o1, false) :: (o2, ok) :: l2 ->
                  seqno o2 = seqno o1))
    /\ Settles (fun fuel => do_work fuel [true; false] Examples3.s1
                              (do_start 0 (Examples3.idle [false]))).
Proof.
destruct (@mode3_failed_send_keeps_seqno nat N N (SpecInput.Buffer N)
            (SpecOutput.Buffer N) _ _ _ 0 (Examples3.idle [false])
            [true; false] Examples3.s1) as [HR HS].
eexists. split; [vm_compute; reflexivity|].
split; [apply (HR 10); vm_compute; reflexivity|].
apply (HS SpecOutput.size), spec_output_drains.
Defined.

(** * Further properties of the stage *)

(** ** The counters and the reports of a run *)

(** X1: in the three kinds of stage, once [do_work] returns from a run that
    [do_start] began, [m_sent_count] is the number of sends the output
    channel accepted during the run (modulo [2^64], the width of the
    counter); sends that timed out are not counted. *)
Theorem sent_count_is_the_number_of_accepted_sends :
  (forall (M IN OUT : Type) (maker : Maker M IN OUT),
      CountsDeliveries (Mode1_ops (maker := maker)))
  /\ (forall (M A OUT IB : Type) (maker : Maker M A OUT)
             (ibuf : TimeSliceInputBuffer IB A),
         CountsDeliveries (Mode2_ops (maker := maker) (ibuf := ibuf)))
  /\ (forall (M A B IB OB : Type) (maker : Maker M A B)
             (ibuf : TimeSliceInputBuffer IB A) (obuf : TimeSliceOutputBuffer OB B),
         CountsDeliveries (Mode3_ops (maker := maker) (ibuf := ibuf) (obuf := obuf))).
Proof.
  split; [|split]; intros.
  - apply counts_deliveries_of_run; [reflexivity|reflexivity|].
    apply mode1_runs_with; [apply Counted_closed|apply Counted_sending].
  - apply counts_deliveries_of_run; [reflexivity|reflexivity|].
    apply mode2_runs_with; [apply Counted_closed|apply Counted_sending].
  - apply counts_deliveries_of_run; [reflexivity|reflexivity|].
    apply mode3_runs_with;
      [apply Counted_closed|apply Counted_sending|apply Counted_popping].
Qed.

(** X2: in the three kinds of stage, once [do_work] returns from a run that
    [do_start] began, [m_received_count] is the number of inputs pulled from
    the input channel (modulo [2^64]): receives that timed out are not
    counted, and neither [process] nor [drain] touches the counter. *)
Theorem received_count_is_the_number_of_inputs_pulled :
  (forall (M IN OUT : Type) (maker : Maker M IN OUT),
      CountsInputs (Mode1_ops (maker := maker)))
  /\ (forall (M A OUT IB : Type) (maker : Maker M A OUT)
             (ibuf : TimeSliceInputBuffer IB A),
         CountsInputs (Mode2_ops (maker := maker) (ibuf := ibuf)))
  /\ (forall (M A B IB OB : Type) (maker : Maker M A B)
             (ibuf : TimeSliceInputBuffer IB A) (obuf : TimeSliceOutputBuffer OB B),
         CountsInputs (Mode3_ops (maker := maker) (ibuf := ibuf) (obuf := obuf))).
Proof.
  split; [|split]; intros.
  - apply counts_inputs_of_run; try reflexivity.
    + intros fuel in_ w w' sg. apply mode1_process_carried.
      * apply Untouched_carried.
      * apply Untouched_forwards.
    + intros fuel w w' sg. apply mode1_drain_carried, Untouched_carried.
  - apply counts_inputs_of_run; try reflexivity.
    + intros fuel in_ w w' sg. apply mode2_process_carried.
      * apply Untouched_carried.
      * apply Untouched_forwards.
    + intros fuel w w' sg. apply mode2_drain_carried.
      * apply Untouched_carried.
      * apply Untouched_forwards.
  - apply counts_inputs_of_run; try reflexivity.
    + intros fuel in_ w w' sg. apply mode3_process_carried.
      * apply Untouched_carried.
      * intros w2 H2. eapply Untouched_trans; [exact H2|apply Untouched_emit].
    + intros fuel w w' sg. apply mode3_drain_carried.
      * apply Untouched_carried.
      * intros w2 H2. eapply Untouched_trans; [exact H2|apply Untouched_drain_step].
Qed.

(** X3: in the three kinds of stage, every send that times out is followed
    at once by the [TimeoutExpired] warning of [send] and the
    [AlgorithmFailedToSend] error of the worker, in the receive loop and in
    whatever [do_work] returns, and the failed send does not stop the
    worker: [process] and the receive loop return and end normally (in
    Mode 3, when the output buffer drains).  [do_work] as a whole returns in
    Mode 1 and, when the output buffer drains, in Mode 3; in Mode 2 its
    [drain(true)] on exit need not return, so there the reports are shown of
    the receive loop, which does return, and of the runs that return. *)
Theorem timed_out_sends_are_reported_at_once :
  (forall (M IN OUT : Type) (maker : Maker M IN OUT),
      ReceivesWith (Mode1_ops (maker := maker)) (@TimeoutsReported IN OUT OUT)
      /\ RunsWith (Mode1_ops (maker := maker)) (@TimeoutsReported IN OUT OUT)
      /\ Settling (Mode1_ops (maker := maker))
      /\ RunSettles (Mode1_ops (maker := maker)))
  /\ (forall (M A OUT IB : Type) (maker : Maker M A OUT)
             (ibuf : TimeSliceInputBuffer IB A),
         ReceivesWith (Mode2_ops (maker := maker) (ibuf := ibuf))
           (@TimeoutsReported A OUT OUT)
         /\ RunsWith (Mode2_ops (maker := maker) (ibuf := ibuf))
              (@TimeoutsReported A OUT OUT)
         /\ Settling (Mode2_ops (maker := maker) (ibuf := ibuf)))
  /\ (forall (M A B IB OB : Type) (maker : Maker M A B)
             (ibuf : TimeSliceInputBuffer IB A) (obuf : TimeSliceOutputBuffer OB B),
         ReceivesWith (Mode3_ops (maker := maker) (ibuf := ibuf) (obuf := obuf))
           (@TimeoutsReported A B (SetOf B))
         /\ RunsWith (Mode3_ops (maker := maker) (ibuf := ibuf) (obuf := obuf))
              (@TimeoutsReported A B (SetOf B))
         /\ (forall pending : OB -> nat,
                Drains pending ->
                Settling (Mode3_ops (maker := maker) (ibuf := ibuf) (obuf := obuf))
                /\ RunSettles (Mode3_ops (maker := maker) (ibuf := ibuf) (obuf := obuf)))).
Proof.
  split; [|split]; intros.
  - split; [|split; [|split]].
    + apply mode1_receives_with;
        [apply TimeoutsReported_closed|apply TimeoutsReported_sending].
    + apply mode1_runs_with;
        [apply TimeoutsReported_closed|apply TimeoutsReported_sending].
    + apply (settling_of_process (ops := Mode1_ops)), mode1_process_settles.
    + apply mode1_run_settles.
  - split; [|split].
    + apply mode2_receives_with;
        [apply TimeoutsReported_closed|apply TimeoutsReported_sending].
    + apply mode2_runs_with;
        [apply TimeoutsReported_closed|apply TimeoutsReported_sending].
    + apply (settling_of_process (ops := Mode2_ops)).
      apply (@mode2_process_settles _ _ _ _ _ _ (@Reported _ _ _) Reported_closed).
  - split; [|split].
    + apply mode3_receives_with;
        [apply TimeoutsReported_closed|apply TimeoutsReported_sending
        |apply TimeoutsReported_popping].
    + apply mode3_runs_with;
        [apply TimeoutsReported_closed|apply TimeoutsReported_sending
        |apply TimeoutsReported_popping].
    + intros pending D. split.
      * apply (settling_of_process (ops := Mode3_ops)), (process_settles D).
      * apply (mode3_run_settles_when_draining D).
Qed.

(** A Mode 2 stage whose first send times out: the receive loop reports the
    failure, sends the other output and returns. *)
Example mode2_timed_out_send_in_a_round :
  exists w',
    receive_loop 10
      [Some (Examples.payload 0%N 100%N [5%N]); Some (Examples.payload 100%N 200%N [150%N])]
      (Mode2.mkWorker (Examples.parent0 N [false]) None)
    = Some (Completed, w', [])
    /\ trace (Mode2.m_parent w')
       = [Invoke 5%N [5; 6]%N Completed;
          Send 6%N false; Ers Warning TimeoutExpired; Ers Error AlgorithmFailedToSend;
          Send 5%N true]
    /\ m_sent_count (Mode2.m_parent w') = 1%N.
Proof. eexists. split; [vm_compute; reflexivity|]. split; reflexivity. Qed.

(** ** The origin of what a Mode 3 stage sends *)

Section Origins.

Context {M A B IB OB : Type} {maker : Maker M A B}
        {ibuf : TimeSliceInputBuffer IB A}
        {obuf : TimeSliceOutputBuffer OB B}.

Lemma FromStage_trans (p1 p2 p3 : Parent M A B (SetOf B)) :
  FromStage p1 p2 -> FromStage p2 p3 -> FromStage p1 p3.
Proof.
  intros (E1 & t1 & Et1 & F1) (E2 & t2 & Et2 & F2). split; [congruence|].
  exists (t1 ++ t2). split.
  - rewrite Et2, Et1, app_assoc. reflexivity.
  - apply Forall_app. split; [exact F1|]. rewrite <- E1. exact F2.
Qed.

Lemma FromStage_log (p : Parent M A B (SetOf B)) (e : Event A B (SetOf B)) :
  sent_from (m_sourceid p) e -> FromStage p (log e p).
Proof.
  intros H. split; [reflexivity|]. exists [e]. split; [reflexivity|].
  constructor; [exact H|constructor].
Qed.

Lemma FromStage_carried : Carried (@FromStage M A B).
Proof.
  split.
  - intros p. split; [reflexivity|]. exists []. split; [symmetry; apply app_nil_r|].
    constructor.
  - apply FromStage_trans.
  - intros p sev i _. apply FromStage_log. exact I.
  - intros p x ov. unfold caught, invoke_apply. simpl.
    destruct (signal (maker_apply (m_maker p) x)).
    + split; [reflexivity|]. eexists. split; [reflexivity|].
      repeat constructor.
    + split; [reflexivity|]. eexists.
      split; [simpl; rewrite <- app_assoc; reflexivity|]. repeat constructor.
  - intros p t ov. unfold caught, invoke_flush. simpl.
    destruct (signal (maker_flush (m_maker p) t)).
    + split; [reflexivity|]. eexists. split; [reflexivity|].
      repeat constructor.
    + split; [reflexivity|]. eexists.
      split; [simpl; rewrite <- app_assoc; reflexivity|]. repeat constructor.
Qed.

Lemma FromStage_emit (w : Mode3.Worker M A B IB OB) :
  FromStage (Mode3.m_parent w) (Mode3.m_parent (Mode3.emit_step w)).
Proof.
  split; [apply (Untouched_emit w)|].
  destruct (emit_step_cases w) as [_ [(_ & Et & _)|[(_ & Et & _)|(_ & Et & _)]]];
    eexists; (split; [exact Et|]); repeat constructor.
Qed.

Lemma FromStage_drain_step (drop : bool) (w : Mode3.Worker M A B IB OB) :
  FromStage (Mode3.m_parent w) (Mode3.m_parent (Mode3.drain_step drop w)).
Proof.
  destruct (drain_step_cases drop w) as [_ H]. destruct drop.
  - split; [apply (Untouched_drain_step true w)|].
    destruct H as [Et _]. eexists. split; [exact Et|]. repeat constructor.
  - rewrite H. apply FromStage_emit.
Qed.

End Origins.

(** X4: whatever a Mode 3 stage hands to [send] during a run, from [process]
    or from [drain], carries the origin [(kTrigger, m_sourceid)] of the
    stage; the source identifier itself is not changed by the run. *)
Theorem mode3_sends_carry_the_origin_of_the_stage
  {M A B IB OB : Type} {maker : Maker M A B}
  {ibuf : TimeSliceInputBuffer IB A} {obuf : TimeSliceOutputBuffer OB B}
  (running_flag : list bool) (rx : list (option (SetOf A)))
  (w : Mode3.Worker M A B IB OB) :
  Returns (fun fuel => do_work fuel running_flag rx w)
    (fun r =>
       m_sourceid (Mode3.m_parent (snd (fst r))) = m_sourceid (Mode3.m_parent w)
       /\ exists t,
            trace (Mode3.m_parent (snd (fst r))) = trace (Mode3.m_parent w) ++ t
            /\ Forall (sent_from (m_sourceid (Mode3.m_parent w))) t).
Proof.
  intros fuel [[sg w'] rx'] H.
  refine (proj2 (@do_work_carried _ _ _ _ _ _
                   (Mode3_ops (maker := maker) (ibuf := ibuf) (obuf := obuf))
                   (@FromStage M A B) _ _ _ _ _ _ _
                   fuel running_flag rx rx' w w' sg H)).
  - apply (carried_refl FromStage_carried).
  - apply FromStage_trans.
  - intros n p. split; [reflexivity|]. exists [].
    split; [symmetry; apply app_nil_r|constructor].
  - reflexivity.
  - reflexivity.
  - intros f in_ w1 w2 sg1. apply mode3_process_carried.
    + apply FromStage_carried.
    + intros w3 H3. eapply FromStage_trans; [exact H3|apply FromStage_emit].
  - intros f w1 w2 sg1. apply mode3_drain_carried.
    + apply FromStage_carried.
    + intros w3 H3. eapply FromStage_trans; [exact H3|apply FromStage_drain_step].
Qed.

(** ** The base worker *)

Section SendLoopFacts.

Context {M X B OUT : Type} {maker : Maker M X B}.

Lemma forward_maker (o : OUT) (p : Parent M X B OUT) : m_maker (forward o p) = m_maker p.
Proof. unfold forward, send. destruct (output_queue p) as [|[|] q]; reflexivity. Qed.

Lemma forward_emission (o : OUT) (p : Parent M X B OUT) :
  exists t, trace (forward o p) = trace p ++ t /\ Forall emission t /\ pops t = [].
Proof.
  destruct (forward_cases o p) as [[Et _]|[Et _]]; eexists;
    (split; [exact Et|]); split; try reflexivity; repeat constructor.
Qed.

Lemma send_loop_maker (fuel : nat) (ov ov' : list OUT) (p p' : Parent M X B OUT) :
  while_loop fuel (fun s => nonempty (fst s)) send_back (ov, p) = Some (ov', p') ->
  m_maker p' = m_maker p.
Proof.
  intros Hl.
  apply (while_loop_invariant _ _ (fun s => m_maker (snd s) = m_maker p)) in Hl.
  - apply Hl.
  - intros [v q] Hq _. unfold send_back. simpl.
    destruct (back v); simpl; [|exact Hq]. rewrite forward_maker. exact Hq.
  - reflexivity.
Qed.

End SendLoopFacts.

(** X5: the base worker applies the algorithm to the input once.  When the
    call completes, what it pushed is handed to [send] from the back of the
    vector to the front, whether or not each send is accepted; when it
    raises, the failure is reported and nothing of what it pushed is sent.
    Either way [process] returns normally. *)
Theorem mode1_process_sends_back_to_front_or_reports
  {M IN OUT : Type} {maker : Maker M IN OUT} (in_ : IN) (w : Mode1.Worker M IN OUT) :
  let call := maker_apply (m_maker (Mode1.m_parent w)) in_ in
  Settles (fun fuel => Mode1.process fuel in_ w)
  /\ Returns (fun fuel => Mode1.process fuel in_ w)
       (fun r =>
          fst r = Completed
          /\ m_maker (Mode1.m_parent (snd r)) = after call
          /\ exists t,
               trace (Mode1.m_parent (snd r))
               = trace (Mode1.m_parent w) ++ Invoke in_ (pushed call) (signal call) :: t
               /\ match signal call with
                  | Completed => offered t = rev (pushed call)
                  | Raised => t = [Ers Fatal AlgorithmFatalError]
                  end).
Proof.
  intros call. split.
  - destruct (mode1_process_settles in_ w) as [w' H]. exists (Completed, w'). exact H.
  - intros fuel [sg w']. unfold Mode1.process, invoke_apply. fold call.
    destruct (signal call) eqn:Sg.
    + destruct (while_loop _ _ _ _) as [[ov' p']|] eqn:Hl; [|discriminate].
      intros H. injection H as <- <-. simpl.
      split; [reflexivity|]. split.
      * apply send_loop_maker in Hl. exact Hl.
      * apply send_loop_offers in Hl. destruct Hl as (t & Et & Eo & _).
        exists t. split; [|exact Eo].
        rewrite Et. simpl. rewrite <- app_assoc. reflexivity.
    + intros H. injection H as <- <-. simpl.
      split; [reflexivity|]. split; [reflexivity|].
      eexists. split; [|reflexivity]. rewrite <- app_assoc. reflexivity.
Qed.

(** ** What a call of [process] leaves in the trace *)

Section SliceFacts.

Context {M X B OUT : Type} {maker : Maker M X B}.

Lemma process_slice_maker (xs : list X) (ov : list B) (p : Parent M X B OUT) :
  m_maker (snd (snd (process_slice xs ov p))) = after_slice (m_maker p) xs.
Proof.
  revert ov p. induction xs as [|x xs IH]; intros ov p; [reflexivity|].
  simpl. destruct (signal (maker_apply (m_maker p) x)); [|reflexivity].
  rewrite IH. reflexivity.
Qed.

Lemma slice_events_no_order_warning (m : M) (xs : list X) :
  existsb order_warning (slice_events (OUT := OUT) m xs) = false.
Proof.
  revert m. induction xs as [|x xs IH]; intros m; [reflexivity|].
  simpl. destruct (signal (maker_apply m x)); [apply IH|reflexivity].
Qed.

Lemma emission_no_order_warning (t : list (Event X B OUT)) :
  Forall emission t -> existsb order_warning t = false.
Proof.
  induction 1 as [|e t He _ IH]; [reflexivity|].
  simpl. rewrite IH. destruct e as [[| |] [| | | |]| | | |]; simpl in *; tauto.
Qed.

End SliceFacts.

Section Mode3Shape.

Context {M A B IB OB : Type} {maker : Maker M A B}
        {ibuf : TimeSliceInputBuffer IB A}
        {obuf : TimeSliceOutputBuffer OB B}.

Lemma emit_step_emission (w : Mode3.Worker M A B IB OB) :
  m_maker (Mode3.m_parent (Mode3.emit_step w)) = m_maker (Mode3.m_parent w)
  /\ exists t,
       trace (Mode3.m_parent (Mode3.emit_step w)) = trace (Mode3.m_parent w) ++ t
       /\ Forall emission t.
Proof.
  split.
  - unfold Mode3.emit_step. destruct (out_flush (Mode3.m_out_buffer w)) as [popped ob].
    cbn [Mode3.m_parent].
    destruct (is_heartbeat _); [rewrite forward_maker; reflexivity|].
    destruct (is_payload _ && nonempty _); [rewrite forward_maker|]; reflexivity.
  - destruct (emit_step_cases w) as [_ [(_ & Et & _)|[(_ & Et & _)|(_ & Et & _)]]];
      eexists; (split; [exact Et|]); repeat constructor.
Qed.

(** The loop that follows the [switch]: only pops, sends and the reports
    of failed sends; the algorithm is not called. *)
Lemma process_emits (fuel : nat) (in_ : SetOf A) (w w' : Mode3.Worker M A B IB OB)
  (sg : Signal) :
  Mode3.process fuel in_ w = Some (sg, w') ->
  let w1 := snd (Mode3.dispatch in_ w) in
  sg = Completed
  /\ m_maker (Mode3.m_parent w') = m_maker (Mode3.m_parent w1)
  /\ Mode3.m_in_buffer w' = Mode3.m_in_buffer w1
  /\ Mode3.m_prev_start_time w' = Mode3.m_prev_start_time w1
  /\ exists t,
       trace (Mode3.m_parent w') = trace (Mode3.m_parent w1) ++ t /\ Forall emission t.
Proof.
  unfold Mode3.process.
  destruct (mode3_dispatch_carried Untouched_carried in_ w) as [Hf _].
  destruct (Mode3.dispatch in_ w) as [[[| |] elems] w1]; simpl in *.
  - destruct (while_loop _ _ _ _) as [w3|] eqn:Hl; [|discriminate].
    intros H. injection H as <- <-. split; [reflexivity|].
    apply (while_loop_invariant _ _
             (fun w2 =>
                m_maker (Mode3.m_parent w2) = m_maker (Mode3.m_parent w1)
                /\ Mode3.m_in_buffer w2 = Mode3.m_in_buffer w1
                /\ Mode3.m_prev_start_time w2 = Mode3.m_prev_start_time w1
                /\ exists t,
                     trace (Mode3.m_parent w2) = trace (Mode3.m_parent w1) ++ t
                     /\ Forall emission t)) in Hl.
    + apply Hl.
    + intros w2 (Em & Eb & Ep & t & Et & Ft) _.
      destruct (emit_step_emission w2) as [Em' (t' & Et' & Ft')].
      split; [congruence|].
      split; [unfold Mode3.emit_step; destruct (out_flush _); exact Eb|].
      split; [unfold Mode3.emit_step; destruct (out_flush _); exact Ep|].
      exists (t ++ t'). split; [rewrite Et', Et, app_assoc; reflexivity|].
      apply Forall_app. split; assumption.
    + simpl. repeat split. exists []. split; [symmetry; apply app_nil_r|constructor].
  - intros H. injection H as <- <-. repeat split.
    exists []. split; [symmetry; apply app_nil_r|constructor].
  - contradiction.
Qed.

End Mode3Shape.

(** ** A payload set that completes no time slice *)

(** X6: when [m_in_buffer.buffer] reports no complete time slice, the Mode 3
    [process] returns at once, on any fuel: the set is kept by the input
    buffer and its [start_time] remembered, the algorithm is not called,
    the output buffer is left as it was (nothing is popped, even from a
    buffer that is ready) and the only possible event is the
    out-of-order warning, which is raised exactly when the set starts
    before the previous one. *)
Theorem mode3_payload_without_a_complete_slice_is_only_buffered
  {M A B IB OB : Type} {maker : Maker M A B}
  {ibuf : TimeSliceInputBuffer IB A} {obuf : TimeSliceOutputBuffer OB B}
  (in_ : SetOf A) (w : Mode3.Worker M A B IB OB) (fuel : nat) :
  type in_ = kPayload ->
  fst (in_buffer in_ (Mode3.m_in_buffer w)) = None ->
  exists w',
    Mode3.process fuel in_ w = Some (Completed, w')
    /\ Mode3.m_in_buffer w' = snd (in_buffer in_ (Mode3.m_in_buffer w))
    /\ Mode3.m_out_buffer w' = Mode3.m_out_buffer w
    /\ Mode3.m_prev_start_time w' = start_time in_
    /\ m_maker (Mode3.m_parent w') = m_maker (Mode3.m_parent w)
    /\ m_sent_count (Mode3.m_parent w') = m_sent_count (Mode3.m_parent w)
    /\ trace (Mode3.m_parent w')
       = trace (Mode3.m_parent w)
           ++ (if (start_time in_ <? Mode3.m_prev_start_time w)%N
               then [Ers Warning
                       (OutOfOrderSets (Mode3.m_prev_start_time w) (start_time in_))]
               else []).
Proof.
  intros Ht Hb. unfold Mode3.process, Mode3.dispatch. rewrite Ht.
  destruct (in_buffer in_ (Mode3.m_in_buffer w)) as [o b]. simpl in Hb. subst o.
  eexists. split; [reflexivity|]. cbn [Mode3.m_in_buffer Mode3.m_out_buffer
    Mode3.m_prev_start_time Mode3.m_parent snd].
  assert (Hg : negb (Mode3.m_prev_start_time w =? 0)%N
               && (start_time in_ <? Mode3.m_prev_start_time w)%N
               = (start_time in_ <? Mode3.m_prev_start_time w)%N).
  { destruct (N.eqb_spec (Mode3.m_prev_start_time w) 0) as [E|_]; [|reflexivity].
    rewrite E. simpl. symmetry. apply N.ltb_ge. lia. }
  rewrite Hg.
  destruct (start_time in_ <? Mode3.m_prev_start_time w)%N; simpl;
    repeat split; try reflexivity.
  symmetry. apply app_nil_r.
Qed.

Lemma mode3_payload_without_a_complete_slice_is_only_buffered_witness :
  exists w',
    Mode3.process 0 (Examples.payload 100%N 200%N [150%N])
      (after_inputs [Examples.payload 200%N 300%N [210%N];
                     Examples.heartbeat 250%N 260%N]) = Some (Completed, w')
    /\ Mode3.m_in_buffer w' = Some (SpecInput.mkSlice 100%N 200%N [150%N])
    /\ Mode3.m_prev_start_time w' = 100%N.
Proof.
destruct (@mode3_payload_without_a_complete_slice_is_only_buffered
            nat N N (SpecInput.Buffer N) (SpecOutput.Buffer N) _ _ _
            (Examples.payload 100%N 200%N [150%N])
            (after_inputs [Examples.payload 200%N 300%N [210%N];
                           Examples.heartbeat 250%N 260%N]) 0
            ltac:(reflexivity) ltac:(vm_compute; reflexivity))
  as (w' & H & Hi & _ & Hp & _).
exists w'. split; [exact H|]. split; [rewrite Hi; vm_compute; reflexivity|exact Hp].
Defined.

(** ** A heartbeat whose flush of the algorithm raises *)

(** X7: in a Mode 3 stage, when the flush of the algorithm that a heartbeat
    triggers raises, the [catch] returns from [process] on any fuel.  The
    heartbeat marker has been put into the output buffer before, but the
    elements that the algorithm made of the flushed time slice, and what the
    flush itself pushed, are discarded: the output buffer receives only the
    marker, and nothing is popped or sent by this call. *)
Theorem mode3_failed_flush_discards_what_the_slice_produced
  {M A B IB OB : Type} {maker : Maker M A B}
  {ibuf : TimeSliceInputBuffer IB A} {obuf : TimeSliceOutputBuffer OB B}
  (in_ : SetOf A) (w : Mode3.Worker M A B IB OB) (fuel : nat) :
  let m := m_maker (Mode3.m_parent w) in
  let slice :=
    match fst (in_flush (Mode3.m_in_buffer w)) with
    | Some (time_slice, _, _) => time_slice
    | None => []
    end in
  let call := maker_flush (after_slice m slice) (end_time in_) in
  type in_ = kHeartbeat ->
  signal call = Raised ->
  exists w',
    Mode3.process fuel in_ w = Some (Completed, w')
    /\ Mode3.m_out_buffer w'
       = out_buffer_heartbeat
           (mkSet kHeartbeat (start_time in_) (end_time in_)
              (mkSourceID kTrigger (m_sourceid (Mode3.m_parent w))) 0%N [])
           (Mode3.m_out_buffer w)
    /\ Mode3.m_in_buffer w' = snd (in_flush (Mode3.m_in_buffer w))
    /\ exists t,
         trace (Mode3.m_parent w')
         = trace (Mode3.m_parent w)
             ++ t ++ [InvokeFlush (end_time in_) (pushed call) Raised;
                      Ers Fatal AlgorithmFatalError]
         /\ produced t = produced (slice_events (OUT := SetOf B) m slice)
         /\ sends t = [] /\ pops t = [].
Proof.
  intros m slice call Ht Hr. unfold Mode3.process, Mode3.dispatch. rewrite Ht.
  subst slice m.
  destruct (in_flush (Mode3.m_in_buffer w)) as [[[[slice s] e]|] b];
    cbn [fst snd] in *.
  - match goal with
    | |- context [if ?c then ?a else Mode3.m_parent w] =>
        set (p0 := if c then a else Mode3.m_parent w)
    end.
    assert (H0 : m_maker p0 = m_maker (Mode3.m_parent w)
                 /\ m_sourceid p0 = m_sourceid (Mode3.m_parent w)
                 /\ exists t0, trace p0 = trace (Mode3.m_parent w) ++ t0
                               /\ produced t0 = [] /\ sends t0 = [] /\ pops t0 = []).
    { unfold p0. destruct (_ <? _)%N.
      - repeat split. eexists. split; [reflexivity|]. repeat split.
      - repeat split. exists []. split; [symmetry; apply app_nil_r|]. repeat split. }
    destruct H0 as (Hm & Hsid & t0 & Et0 & P0 & S0 & Pp0).
    destruct (process_slice_spec slice [] p0) as (p' & E & Et & _ & _ & _ & Hsid').
    pose proof (process_slice_maker slice [] p0) as Hm'. rewrite E in Hm'.
    simpl in Hm'. rewrite Hm in Hm', E, Et. rewrite E.
    unfold invoke_flush. rewrite Hm'. fold call. rewrite Hr. cbn.
    eexists. split; [reflexivity|]. cbn.
    split; [rewrite Hsid', Hsid; reflexivity|]. split; [reflexivity|].
    exists (t0 ++ slice_events (m_maker (Mode3.m_parent w)) slice).
    split.
    + rewrite Et, Et0, <- !app_assoc. reflexivity.
    + rewrite produced_app, sends_app, pops_app, P0, S0, Pp0.
      destruct (slice_events_sends (OUT := SetOf B) (m_maker (Mode3.m_parent w)) slice)
        as [Hs Hp].
      rewrite Hs, Hp. repeat split.
  - unfold invoke_flush. simpl in call. fold call. rewrite Hr. cbn.
    eexists. split; [reflexivity|]. cbn.
    split; [reflexivity|]. split; [reflexivity|].
    exists []. repeat split. rewrite <- app_assoc. reflexivity.
Qed.

Lemma mode3_failed_flush_discards_what_the_slice_produced_witness :
  exists w',
    Mode3.process 0 (Examples.heartbeat 110%N 13%N) (Examples3.loaded []) = Some (Completed, w')
    /\ Mode3.m_out_buffer w'
       = SpecOutput.mkBuffer 100%N 0%N [30%N]
           [Examples.heartbeat 50%N 60%N;
            mkSet kHeartbeat 110%N 13%N (mkSourceID kTrigger 7%N) 0%N []] 110%N
    /\ exists t,
         trace (Mode3.m_parent w')
         = t ++ [InvokeFlush 13%N [] Raised; Ers Fatal AlgorithmFatalError]
         /\ produced t = [5%N; 6%N] /\ sends t = [] /\ pops t = [].
Proof.
destruct (@mode3_failed_flush_discards_what_the_slice_produced
            nat N N (SpecInput.Buffer N) (SpecOutput.Buffer N) _ _ _
            (Examples.heartbeat 110%N 13%N) (Examples3.loaded []) 0
            ltac:(reflexivity) ltac:(reflexivity))
  as (w' & H & Ho & _ & t & Et & Ep & Es & Epp).
exists w'. split; [exact H|]. split; [rewrite Ho; reflexivity|].
exists t. split; [exact Et|]. split; [exact Ep|]. split; assumption.
Defined.

(** X8: in a Mode 2 stage, when the flush of the algorithm that a heartbeat
    triggers raises, [process] returns from its [catch] on any fuel and the
    outputs that the algorithm made of the flushed time slice are never
    sent. *)
Theorem mode2_failed_flush_sends_nothing
  {M A OUT IB : Type} {maker : Maker M A OUT} {ibuf : TimeSliceInputBuffer IB A}
  (in_ : SetOf A) (w : Mode2.Worker M A OUT IB) (fuel : nat) :
  let m := m_maker (Mode2.m_parent w) in
  let slice :=
    match fst (in_flush (Mode2.m_in_buffer w)) with
    | Some (time_slice, _, _) => time_slice
    | None => []
    end in
  let call := maker_flush (after_slice m slice) (end_time in_) in
  type in_ = kHeartbeat ->
  signal call = Raised ->
  exists w',
    Mode2.process fuel in_ w = Some (Completed, w')
    /\ Mode2.m_in_buffer w' = snd (in_flush (Mode2.m_in_buffer w))
    /\ m_sent_count (Mode2.m_parent w') = m_sent_count (Mode2.m_parent w)
    /\ exists t,
         trace (Mode2.m_parent w')
         = trace (Mode2.m_parent w)
             ++ t ++ [InvokeFlush (end_time in_) (pushed call) Raised;
                      Ers Fatal AlgorithmFatalError]
         /\ produced t = produced (slice_events (OUT := OUT) m slice)
         /\ sends t = [].
Proof.
  intros m slice call Ht Hr. unfold Mode2.process, Mode2.dispatch. rewrite Ht.
  subst slice m.
  destruct (in_flush (Mode2.m_in_buffer w)) as [[[[slice s] e]|] b];
    cbn [fst snd] in *.
  - match goal with
    | |- context [if ?c then ?a else Mode2.m_parent w] =>
        set (p0 := if c then a else Mode2.m_parent w)
    end.
    assert (H0 : m_maker p0 = m_maker (Mode2.m_parent w)
                 /\ m_sent_count p0 = m_sent_count (Mode2.m_parent w)
                 /\ exists t0, trace p0 = trace (Mode2.m_parent w) ++ t0
                               /\ produced t0 = [] /\ sends t0 = []).
    { unfold p0. destruct (_ <? _)%N.
      - repeat split. eexists. split; [reflexivity|]. repeat split.
      - repeat split. exists []. split; [symmetry; apply app_nil_r|]. repeat split. }
    destruct H0 as (Hm & Hn & t0 & Et0 & P0 & S0).
    destruct (process_slice_spec slice [] p0) as (p' & E & Et & Hn' & _).
    pose proof (process_slice_maker slice [] p0) as Hm'. rewrite E in Hm'.
    simpl in Hm'. rewrite Hm in Hm', E, Et. rewrite E.
    unfold invoke_flush. rewrite Hm'. fold call. rewrite Hr. cbn.
    eexists. split; [reflexivity|]. cbn.
    split; [reflexivity|]. split; [congruence|].
    exists (t0 ++ slice_events (m_maker (Mode2.m_parent w)) slice).
    split.
    + rewrite Et, Et0, <- !app_assoc. reflexivity.
    + rewrite produced_app, sends_app, P0, S0.
      destruct (slice_events_sends (OUT := OUT) (m_maker (Mode2.m_parent w)) slice)
        as [Hs _].
      rewrite Hs. repeat split.
  - unfold invoke_flush. simpl in call. fold call. rewrite Hr. cbn.
    eexists. split; [reflexivity|]. cbn.
    split; [reflexivity|]. split; [reflexivity|].
    exists []. repeat split. rewrite <- app_assoc. reflexivity.
Qed.

Lemma mode2_failed_flush_sends_nothing_witness :
  exists w',
    Mode2.process 0 (Examples.heartbeat 110%N 13%N) Examples.loaded2 = Some (Completed, w')
    /\ exists t,
         trace (Mode2.m_parent w')
         = t ++ [InvokeFlush 13%N [] Raised; Ers Fatal AlgorithmFatalError]
         /\ produced t = [5%N; 6%N; 30%N; 31%N] /\ sends t = [].
Proof.
destruct (@mode2_failed_flush_sends_nothing nat N N (SpecInput.Buffer N) _ _
            (Examples.heartbeat 110%N 13%N) Examples.loaded2 0
            ltac:(reflexivity) ltac:(reflexivity))
  as (w' & H & _ & _ & t & Et & Ep & Es).
exists w'. split; [exact H|].
exists t. split; [exact Et|]. split; assumption.
Defined.

(** X9: in a Mode 2 stage, a heartbeat whose flush of the algorithm
    completes sends what the flushed time slice made and what the flush
    made, all of it from the back of the vector: the outputs of the flush
    leave first, before those of the slice. *)
Theorem mode2_heartbeat_sends_the_flush_outputs_first
  {M A OUT IB : Type} {maker : Maker M A OUT} {ibuf : TimeSliceInputBuffer IB A}
  (in_ : SetOf A) (w : Mode2.Worker M A OUT IB) :
  let m := m_maker (Mode2.m_parent w) in
  let slice :=
    match fst (in_flush (Mode2.m_in_buffer w)) with
    | Some (time_slice, _, _) => time_slice
    | None => []
    end in
  let call := maker_flush (after_slice m slice) (end_time in_) in
  type in_ = kHeartbeat ->
  signal call = Completed ->
  Settles (fun fuel => Mode2.process fuel in_ w)
  /\ Returns (fun fuel => Mode2.process fuel in_ w)
       (fun r =>
          fst r = Completed
          /\ Mode2.m_in_buffer (snd r) = snd (in_flush (Mode2.m_in_buffer w))
          /\ exists t t',
               trace (Mode2.m_parent (snd r))
               = trace (Mode2.m_parent w)
                   ++ t ++ InvokeFlush (end_time in_) (pushed call) Completed :: t'
               /\ produced t = produced (slice_events (OUT := OUT) m slice)
               /\ sends t = []
               /\ offered t'
                  = rev (pushed call)
                      ++ rev (produced (slice_events (OUT := OUT) m slice))).
Proof.
  intros m slice call Ht Hr. split.
  { destruct (@mode2_process_settles _ _ _ _ _ _ (@Reported _ _ _) Reported_closed in_ w)
      as [w' H]. exists (Completed, w'). exact H. }
  intros fuel r. unfold Mode2.process, Mode2.dispatch. rewrite Ht.
  subst slice m.
  destruct (in_flush (Mode2.m_in_buffer w)) as [[[[slice s] e]|] b];
    cbn [fst snd] in *.
  - match goal with
    | |- context [if ?c then ?a else Mode2.m_parent w] =>
        set (p0 := if c then a else Mode2.m_parent w)
    end.
    assert (H0 : m_maker p0 = m_maker (Mode2.m_parent w)
                 /\ exists t0, trace p0 = trace (Mode2.m_parent w) ++ t0
                               /\ produced t0 = [] /\ sends t0 = []).
    { unfold p0. destruct (_ <? _)%N.
      - repeat split. eexists. split; [reflexivity|]. repeat split.
      - repeat split. exists []. split; [symmetry; apply app_nil_r|]. repeat split. }
    destruct H0 as (Hm & t0 & Et0 & P0 & S0).
    destruct (process_slice_spec slice [] p0) as (p' & E & Et & _).
    pose proof (process_slice_maker slice [] p0) as Hm'. rewrite E in Hm'.
    simpl in Hm'. rewrite Hm in Hm', E, Et. rewrite E.
    unfold invoke_flush. rewrite Hm'. fold call. rewrite Hr. cbn.
    destruct (while_loop _ _ _ _) as [[ov'' p'']|] eqn:Hl; [|discriminate].
    intros H. injection H as <-. cbn.
    split; [reflexivity|]. split; [reflexivity|].
    apply send_loop_offers in Hl. destruct Hl as (t' & Et' & Eo & _).
    exists (t0 ++ slice_events (m_maker (Mode2.m_parent w)) slice), t'.
    split; [|split; [|split]].
    + rewrite Et'. cbn. rewrite Et, Et0, <- !app_assoc. reflexivity.
    + rewrite produced_app, P0. reflexivity.
    + rewrite sends_app, S0.
      destruct (slice_events_sends (OUT := OUT) (m_maker (Mode2.m_parent w)) slice)
        as [Hs _].
      rewrite Hs. reflexivity.
    + rewrite Eo, rev_app_distr. reflexivity.
  - unfold invoke_flush. simpl in call. fold call. rewrite Hr. cbn.
    destruct (while_loop _ _ _ _) as [[ov'' p'']|] eqn:Hl; [|discriminate].
    intros H. injection H as <-. cbn.
    split; [reflexivity|]. split; [reflexivity|].
    apply send_loop_offers in Hl. destruct Hl as (t' & Et' & Eo & _).
    exists [], t'. split; [|split; [|split]]; try reflexivity.
    + rewrite Et'. cbn. rewrite <- app_assoc. reflexivity.
    + rewrite Eo, app_nil_r. reflexivity.
Qed.

Lemma mode2_heartbeat_sends_the_flush_outputs_first_witness :
  exists r,
    Mode2.process 5 (Examples.heartbeat 110%N 120%N) Examples.loaded2 = Some r
    /\ exists t t',
         trace (Mode2.m_parent (snd r)) = t ++ InvokeFlush 120%N [] Completed :: t'
         /\ produced t = [5%N; 6%N; 30%N; 31%N]
         /\ offered t' = [31%N; 30%N; 6%N; 5%N].
Proof.
destruct (@mode2_heartbeat_sends_the_flush_outputs_first nat N N (SpecInput.Buffer N) _ _
            (Examples.heartbeat 110%N 120%N) Examples.loaded2
            ltac:(reflexivity) ltac:(reflexivity)) as [_ HR].
eexists. split; [vm_compute; reflexivity|].
destruct (HR 5 _ ltac:(vm_compute; reflexivity)) as (_ & _ & t & t' & Et & Ep & _ & Eo).
exists t, t'. split; [exact Et|]. split; [exact Ep|exact Eo].
Defined.

(** ** Sets of unknown type, and the out-of-order warning *)

(** X10: a set whose type is neither payload nor heartbeat is reported with
    an [UnknownSetError] and dropped: the algorithm is not called and the
    input buffer is left alone.  A Mode 2 stage does nothing else; a Mode 3
    stage still runs its emission loop, so windows that are ready leave. *)
Theorem unknown_set_is_reported_and_dropped {A : Type} (in_ : SetOf A) :
  type in_ = kUnknown ->
  (forall (M OUT IB : Type) (maker : Maker M A OUT) (ibuf : TimeSliceInputBuffer IB A)
          (w : Mode2.Worker M A OUT IB) (fuel : nat),
      0 < fuel ->
      Mode2.process fuel in_ w
      = Some (Completed,
              Mode2.mkWorker (ers Error UnknownSetError (Mode2.m_parent w))
                (Mode2.m_in_buffer w)))
  /\ (forall (M B IB OB : Type) (maker : Maker M A B) (ibuf : TimeSliceInputBuffer IB A)
             (obuf : TimeSliceOutputBuffer OB B) (w : Mode3.Worker M A B IB OB),
         Returns (fun fuel => Mode3.process fuel in_ w)
           (fun r =>
              fst r = Completed
              /\ Mode3.m_in_buffer (snd r) = Mode3.m_in_buffer w
              /\ Mode3.m_prev_start_time (snd r) = Mode3.m_prev_start_time w
              /\ m_maker (Mode3.m_parent (snd r)) = m_maker (Mode3.m_parent w)
              /\ exists t,
                   trace (Mode3.m_parent (snd r))
                   = trace (Mode3.m_parent w) ++ Ers Error UnknownSetError :: t
                   /\ Forall emission t)).
Proof.
  intros Ht. split.
  - intros M OUT IB maker ibuf w [|fuel] Hf; [lia|].
    unfold Mode2.process, Mode2.dispatch. rewrite Ht. reflexivity.
  - intros M B IB OB maker ibuf obuf w fuel [sg w'] H.
    apply process_emits in H. unfold Mode3.dispatch in H. rewrite Ht in H.
    cbn [snd Mode3.m_parent Mode3.m_in_buffer Mode3.m_prev_start_time] in H.
    destruct H as (-> & Em & Eb & Ep & t & Et & Ft).
    repeat split; try assumption.
    exists t. split; [|exact Ft]. simpl. rewrite Et. simpl.
    rewrite <- app_assoc. reflexivity.
Qed.

Lemma unknown_set_is_reported_and_dropped_witness :
  Mode2.process 1 (mkSet kUnknown 0%N 100%N (mkSourceID kUnknownSubsystem 0%N) 0%N [5%N])
    Examples.loaded2
  = Some (Completed,
          Mode2.mkWorker (ers Error UnknownSetError (Examples.parent0 N []))
            (Some (SpecInput.mkSlice 0%N 100%N [30%N; 5%N]))).
Proof.
exact (proj1 (@unknown_set_is_reported_and_dropped N
                (mkSet kUnknown 0%N 100%N (mkSourceID kUnknownSubsystem 0%N) 0%N [5%N])
                ltac:(reflexivity))
         nat N (SpecInput.Buffer N) _ _ Examples.loaded2 1 ltac:(lia)).
Defined.

Section OrderWarning.

Context {M A B IB OB : Type} {maker : Maker M A B}
        {ibuf : TimeSliceInputBuffer IB A}
        {obuf : TimeSliceOutputBuffer OB B}.

Lemma dispatch_order_warning (in_ : SetOf A) (w : Mode3.Worker M A B IB OB) :
  exists t,
    trace (Mode3.m_parent (snd (Mode3.dispatch in_ w))) = trace (Mode3.m_parent w) ++ t
    /\ existsb order_warning t
       = is_payload in_ && (start_time in_ <? Mode3.m_prev_start_time w)%N.
Proof.
  unfold Mode3.dispatch, is_payload. destruct (type in_).
  - eexists. split; [reflexivity|reflexivity].
  - match goal with
    | |- context [if ?c then ?a else Mode3.m_parent w] =>
        set (p0 := if c then a else Mode3.m_parent w)
    end.
    assert (H0 : m_maker p0 = m_maker (Mode3.m_parent w)
                 /\ exists t0,
                      trace p0 = trace (Mode3.m_parent w) ++ t0
                      /\ existsb order_warning t0
                         = (start_time in_ <? Mode3.m_prev_start_time w)%N).
    { unfold p0.
      destruct (N.eqb_spec (Mode3.m_prev_start_time w) 0) as [E|_]; simpl.
      - split; [reflexivity|]. exists []. split; [symmetry; apply app_nil_r|].
        rewrite E. symmetry. apply N.ltb_ge. lia.
      - destruct (start_time in_ <? Mode3.m_prev_start_time w)%N.
        + split; [reflexivity|]. eexists. split; reflexivity.
        + split; [reflexivity|]. exists []. split; [symmetry; apply app_nil_r|].
          reflexivity. }
    destruct H0 as (Hm & t0 & Et0 & W0).
    destruct (in_buffer in_ (Mode3.m_in_buffer w)) as [[[[slice s] e]|] b].
    + destruct (process_slice_spec slice [] p0) as (p' & E & Et & _).
      rewrite E. cbn [snd Mode3.m_parent].
      exists (t0 ++ slice_events (m_maker p0) slice). split.
      * rewrite Et, Et0, app_assoc. reflexivity.
      * rewrite existsb_app, W0, slice_events_no_order_warning.
        apply orb_false_r.
    + cbn [snd Mode3.m_parent]. exists t0. split; assumption.
  - destruct (in_flush (Mode3.m_in_buffer w)) as [[[[slice s] e]|] b].
    + match goal with
      | |- context [if ?c then ?a else Mode3.m_parent w] =>
          set (p0 := if c then a else Mode3.m_parent w)
      end.
      assert (H0 : exists t0,
                 trace p0 = trace (Mode3.m_parent w) ++ t0
                 /\ existsb order_warning t0 = false).
      { unfold p0. destruct (_ <? _)%N.
        - eexists. split; reflexivity.
        - exists []. split; [symmetry; apply app_nil_r|reflexivity]. }
      destruct H0 as (t0 & Et0 & W0).
      destruct (process_slice_spec slice [] p0) as (p' & E & Et & _).
      rewrite E. unfold invoke_flush.
      destruct (signal (maker_flush (m_maker p') (end_time in_))); cbn;
        eexists; (split; [rewrite Et, Et0, <- !app_assoc; reflexivity|]);
        rewrite !existsb_app, W0, slice_events_no_order_warning; reflexivity.
    + unfold invoke_flush.
      destruct (signal (maker_flush (m_maker (Mode3.m_parent w)) (end_time in_))); cbn;
        eexists; (split; [rewrite <- ?app_assoc; reflexivity|reflexivity]).
Qed.

End OrderWarning.

(** X11: a call of the Mode 3 [process] raises the [OutOfOrderSets] warning
    exactly when its input is a payload set that starts before the payload
    set seen last; heartbeats, sets of unknown type and the first payload of
    a run (when [m_prev_start_time] is still zero) never raise it. *)
Theorem mode3_order_warning_exactly_for_late_payloads
  {M A B IB OB : Type} {maker : Maker M A B}
  {ibuf : TimeSliceInputBuffer IB A} {obuf : TimeSliceOutputBuffer OB B}
  (in_ : SetOf A) (w : Mode3.Worker M A B IB OB) :
  Returns (fun fuel => Mode3.process fuel in_ w)
    (fun r =>
       exists t,
         trace (Mode3.m_parent (snd r)) = trace (Mode3.m_parent w) ++ t
         /\ existsb order_warning t
            = is_payload in_ && (start_time in_ <? Mode3.m_prev_start_time w)%N).
Proof.
  intros fuel [sg w'] H. apply process_emits in H.
  destruct H as (_ & _ & _ & _ & t2 & Et2 & Ft2).
  destruct (dispatch_order_warning in_ w) as (t1 & Et1 & W1).
  exists (t1 ++ t2). split.
  - simpl. rewrite Et2, Et1, app_assoc. reflexivity.
  - rewrite existsb_app, W1, (emission_no_order_warning Ft2). apply orb_false_r.
Qed.

(** ** [drain] *)

(** X12: [drain(false)] of a Mode 2 stage always returns.  It applies the
    algorithm to the time slice the input buffer still holds, hands what
    that made to [send] from the back to the front, and does not flush the
    algorithm. *)
Theorem mode2_drain_sends_what_the_pending_slice_made
  {M A OUT IB : Type} {maker : Maker M A OUT} {ibuf : TimeSliceInputBuffer IB A}
  (w : Mode2.Worker M A OUT IB) :
  let m := m_maker (Mode2.m_parent w) in
  let slice :=
    match fst (in_flush (Mode2.m_in_buffer w)) with
    | Some (time_slice, _, _) => time_slice
    | None => []
    end in
  Settles (fun fuel => Mode2.drain fuel false w)
  /\ Returns (fun fuel => Mode2.drain fuel false w)
       (fun r =>
          fst r = Completed
          /\ Mode2.m_in_buffer (snd r) = snd (in_flush (Mode2.m_in_buffer w))
          /\ exists t,
               trace (Mode2.m_parent (snd r))
               = trace (Mode2.m_parent w) ++ slice_events m slice ++ t
               /\ offered t = rev (produced (slice_events (OUT := OUT) m slice))
               /\ invoked t = [] /\ produced t = []).
Proof.
  intros m slice. subst m slice. unfold Settles, Returns, Mode2.drain.
  change (Mode2.drain_back false) with (@send_back M A OUT OUT).
  destruct (in_flush (Mode2.m_in_buffer w)) as [[[[slice s] e]|] b]; cbn [fst snd].
  - destruct (process_slice_spec slice [] (Mode2.m_parent w)) as (p' & E & Et & _).
    rewrite E. split.
    + destruct (send_loop_settles
                  ([] ++ produced (slice_events (OUT := OUT)
                                     (m_maker (Mode2.m_parent w)) slice)) p')
        as (p'' & fuel0 & H).
      eexists. exists fuel0. intros fuel Hf. rewrite (H fuel Hf). reflexivity.
    + intros fuel r.
      destruct (while_loop _ _ _ _) as [[ov'' p'']|] eqn:Hl; [|discriminate].
      intros H. injection H as <-. simpl.
      split; [reflexivity|]. split; [reflexivity|].
      apply send_loop_offers in Hl. destruct Hl as (t & Et' & Eo & Ei & Ep).
      exists t. split; [rewrite Et', Et, app_assoc; reflexivity|].
      repeat split; assumption.
  - split.
    + eexists. exists 0. intros fuel _. reflexivity.
    + intros fuel r H. injection H as <-. simpl.
      split; [reflexivity|]. split; [reflexivity|].
      exists []. repeat split. symmetry. apply app_nil_r.
Qed.

(** X13: [drain(true)] of a Mode 2 stage, the call [do_work] makes on exit,
    returns exactly when the algorithm makes nothing of the time slice the
    input buffer still holds; it has then sent nothing. *)
Theorem mode2_drain_drop_returns_exactly_when_nothing_was_made
  {M A OUT IB : Type} {maker : Maker M A OUT} {ibuf : TimeSliceInputBuffer IB A}
  (w : Mode2.Worker M A OUT IB) :
  let m := m_maker (Mode2.m_parent w) in
  let slice :=
    match fst (in_flush (Mode2.m_in_buffer w)) with
    | Some (time_slice, _, _) => time_slice
    | None => []
    end in
  (Settles (fun fuel => Mode2.drain fuel true w)
   <-> produced (slice_events (OUT := OUT) m slice) = [])
  /\ Returns (fun fuel => Mode2.drain fuel true w)
       (fun r =>
          fst r = Completed
          /\ trace (Mode2.m_parent (snd r))
             = trace (Mode2.m_parent w) ++ slice_events m slice
          /\ m_sent_count (Mode2.m_parent (snd r)) = m_sent_count (Mode2.m_parent w)).
Proof.
  intros m slice. subst m slice.
  destruct (in_flush (Mode2.m_in_buffer w)) as [[[[slice s] e]|] b] eqn:Ef;
    cbn [fst snd].
  - assert (Hstuck : produced (slice_events (OUT := OUT)
                                 (m_maker (Mode2.m_parent w)) slice) <> [] ->
                     forall fuel, Mode2.drain fuel true w = None).
    { intros Hne. exact (drain_drop_stuck w Ef Hne). }
    destruct (process_slice_spec slice [] (Mode2.m_parent w))
      as (p' & E & Et & En & _).
    destruct (produced (slice_events (OUT := OUT) (m_maker (Mode2.m_parent w)) slice))
      as [|o outs] eqn:Ep.
    + split; [split; [reflexivity|]|].
      * intros _. exists (Completed, Mode2.mkWorker p' b). exists 1.
        intros [|fuel] Hf; [lia|]. unfold Mode2.drain. rewrite Ef, E. reflexivity.
      * intros [|fuel] r; unfold Mode2.drain; rewrite Ef, E; [discriminate|].
        simpl. intros H. injection H as <-. simpl.
        split; [reflexivity|]. split; assumption.
    + split; [split|].
      * intros (r & fuel0 & H). specialize (H fuel0 (le_n _)).
        rewrite Hstuck in H; discriminate.
      * discriminate.
      * intros fuel r H. rewrite Hstuck in H; discriminate.
  - split; [split; [reflexivity|]|].
    + intros _. eexists. exists 0. intros fuel _. unfold Mode2.drain. rewrite Ef.
      reflexivity.
    + intros fuel r. unfold Mode2.drain. rewrite Ef. intros H. injection H as <-.
      simpl. repeat split. symmetry. apply app_nil_r.
Qed.

Section Mode3Drain.

Context {M A B IB OB : Type} {maker : Maker M A B}
        {ibuf : TimeSliceInputBuffer IB A}
        {obuf : TimeSliceOutputBuffer OB B}.

Lemma drain_step_emission (drop : bool) (w : Mode3.Worker M A B IB OB) :
  m_maker (Mode3.m_parent (Mode3.drain_step drop w)) = m_maker (Mode3.m_parent w)
  /\ Mode3.m_in_buffer (Mode3.drain_step drop w) = Mode3.m_in_buffer w
  /\ Mode3.m_prev_start_time (Mode3.drain_step drop w) = Mode3.m_prev_start_time w
  /\ exists t,
       trace (Mode3.m_parent (Mode3.drain_step drop w)) = trace (Mode3.m_parent w) ++ t
       /\ Forall emission t.
Proof.
  destruct (drain_step_cases drop w) as [_ H]. destruct drop.
  - unfold Mode3.drain_step in *.
    destruct (out_flush (Mode3.m_out_buffer w)) as [popped ob].
    cbn [Mode3.m_parent Mode3.m_in_buffer Mode3.m_prev_start_time] in *.
    split; [|split; [reflexivity|split; [reflexivity|]]].
    + destruct (is_heartbeat _); [reflexivity|].
      destruct (is_payload _ && nonempty _); reflexivity.
    + destruct H as [Et _]. eexists. split; [exact Et|]. repeat constructor.
  - rewrite H. destruct (emit_step_emission w) as [Em Ht].
    split; [exact Em|]. split; [|split; [|exact Ht]];
      unfold Mode3.emit_step; destruct (out_flush _); reflexivity.
Qed.

Lemma drain_emits (fuel : nat) (drop : bool) (w w' : Mode3.Worker M A B IB OB)
  (sg : Signal) :
  let m := m_maker (Mode3.m_parent w) in
  let slice :=
    match fst (in_flush (Mode3.m_in_buffer w)) with
    | Some (time_slice, _, _) => time_slice
    | None => []
    end in
  Mode3.drain fuel drop w = Some (sg, w') ->
  sg = Completed
  /\ Mode3.m_in_buffer w' = snd (in_flush (Mode3.m_in_buffer w))
  /\ Mode3.m_prev_start_time w' = Mode3.m_prev_start_time w
  /\ m_maker (Mode3.m_parent w') = after_slice m slice
  /\ out_empty (Mode3.m_out_buffer w') = true
  /\ exists t,
       trace (Mode3.m_parent w') = trace (Mode3.m_parent w) ++ slice_events m slice ++ t
       /\ Forall emission t.
Proof.
  intros m slice. subst m slice. unfold Mode3.drain.
  assert (Hloop :
            forall w1 w2 : Mode3.Worker M A B IB OB,
              while_loop fuel (fun w' => negb (out_empty (Mode3.m_out_buffer w')))
                (Mode3.drain_step drop) w1 = Some w2 ->
              m_maker (Mode3.m_parent w2) = m_maker (Mode3.m_parent w1)
              /\ Mode3.m_in_buffer w2 = Mode3.m_in_buffer w1
              /\ Mode3.m_prev_start_time w2 = Mode3.m_prev_start_time w1
              /\ out_empty (Mode3.m_out_buffer w2) = true
              /\ exists t,
                   trace (Mode3.m_parent w2) = trace (Mode3.m_parent w1) ++ t
                   /\ Forall emission t).
  { intros w1 w2 Hl.
    apply (while_loop_invariant _ _
             (fun w2 =>
                m_maker (Mode3.m_parent w2) = m_maker (Mode3.m_parent w1)
                /\ Mode3.m_in_buffer w2 = Mode3.m_in_buffer w1
                /\ Mode3.m_prev_start_time w2 = Mode3.m_prev_start_time w1
                /\ exists t,
                     trace (Mode3.m_parent w2) = trace (Mode3.m_parent w1) ++ t
                     /\ Forall emission t)) in Hl.
    - destruct Hl as [(Em & Eb & Ep & Ht) Hc]. repeat split; try assumption.
      now destruct (out_empty (Mode3.m_out_buffer w2)).
    - intros w3 (Em & Eb & Ep & t & Et & Ft) _.
      destruct (drain_step_emission drop w3) as (Em' & Eb' & Ep' & t' & Et' & Ft').
      split; [congruence|]. split; [congruence|]. split; [congruence|].
      exists (t ++ t'). split; [rewrite Et', Et, app_assoc; reflexivity|].
      apply Forall_app. split; assumption.
    - repeat split. exists []. split; [symmetry; apply app_nil_r|constructor]. }
  destruct (in_flush (Mode3.m_in_buffer w)) as [[[[slice s] e]|] b]; cbn [fst snd].
  - destruct (process_slice_spec slice [] (Mode3.m_parent w)) as (p' & E & Et & _).
    pose proof (process_slice_maker slice [] (Mode3.m_parent w)) as Hm.
    rewrite E in Hm. simpl in Hm. rewrite E.
    destruct (while_loop _ _ _ _) as [w2|] eqn:Hl; [|discriminate].
    intros H. injection H as <- <-. split; [reflexivity|].
    apply Hloop in Hl. cbn [Mode3.m_parent Mode3.m_in_buffer Mode3.m_prev_start_time] in Hl.
    destruct Hl as (Em & Eb & Ep & He & t & Et' & Ft).
    repeat split; try assumption; try congruence.
    exists t. split; [rewrite Et', Et, app_assoc; reflexivity|exact Ft].
  - destruct (while_loop _ _ _ _) as [w2|] eqn:Hl; [|discriminate].
    intros H. injection H as <- <-. split; [reflexivity|].
    apply Hloop in Hl. cbn [Mode3.m_parent Mode3.m_in_buffer Mode3.m_prev_start_time] in Hl.
    destruct Hl as (Em & Eb & Ep & He & t & Et' & Ft).
    repeat split; try assumption.
    exists t. split; [exact Et'|exact Ft].
Qed.

End Mode3Drain.

(** X14: [drain] of a Mode 3 stage, whatever [drop] is, applies the
    algorithm to the time slice the input buffer still holds and to nothing
    else: the algorithm is not flushed, and after the calls on the slice
    the trace only shows pops, sends and the reports of failed sends.  On
    return the output buffer is empty. *)
Theorem mode3_drain_applies_the_algorithm_to_the_pending_slice_only
  {M A B IB OB : Type} {maker : Maker M A B}
  {ibuf : TimeSliceInputBuffer IB A} {obuf : TimeSliceOutputBuffer OB B}
  (drop : bool) (w : Mode3.Worker M A B IB OB) :
  let m := m_maker (Mode3.m_parent w) in
  let slice :=
    match fst (in_flush (Mode3.m_in_buffer w)) with
    | Some (time_slice, _, _) => time_slice
    | None => []
    end in
  Returns (fun fuel => Mode3.drain fuel drop w)
    (fun r =>
       fst r = Completed
       /\ Mode3.m_in_buffer (snd r) = snd (in_flush (Mode3.m_in_buffer w))
       /\ m_maker (Mode3.m_parent (snd r)) = after_slice m slice
       /\ out_empty (Mode3.m_out_buffer (snd r)) = true
       /\ exists t,
            trace (Mode3.m_parent (snd r))
            = trace (Mode3.m_parent w) ++ slice_events m slice ++ t
            /\ Forall emission t).
Proof.
  intros m slice fuel [sg w'] H. apply drain_emits in H.
  destruct H as (-> & Eb & _ & Em & He & Ht). simpl. auto.
Qed.

(** X15: a run of a Mode 3 stage ends with [drain(true)] and [reset()]:
    when [do_work] returns, the output buffer is the reset of an empty
    buffer and [m_prev_start_time] is zero again, so the first payload of
    the next run raises no out-of-order warning. *)
Theorem mode3_run_leaves_the_worker_reset
  {M A B IB OB : Type} {maker : Maker M A B}
  {ibuf : TimeSliceInputBuffer IB A} {obuf : TimeSliceOutputBuffer OB B}
  (running_flag : list bool) (rx : list (option (SetOf A)))
  (w : Mode3.Worker M A B IB OB) :
  Returns (fun fuel => do_work fuel running_flag rx w)
    (fun r =>
       fst (fst r) = Completed
       /\ Mode3.m_prev_start_time (snd (fst r)) = 0%N
       /\ exists ob,
            out_empty ob = true /\ Mode3.m_out_buffer (snd (fst r)) = out_reset ob).
Proof.
  intros fuel r H.
  assert (Hc : fst (fst r) = Completed).
  { apply (mode3_runs_with (@Counted_closed A B (SetOf B)) (@Counted_sending A B (SetOf B))
             (@Counted_popping A B (SetOf B))) in H. apply H. }
  split; [exact Hc|].
  apply do_work_ends in H; [|exact Hc]. destruct H as (w1 & rx1 & H).
  unfold exit_work in H. simpl in H.
  destruct (Mode3.drain fuel true w1) as [[[|] w2]|] eqn:Hd; try discriminate.
  - injection H as <-. simpl. split; [reflexivity|].
    apply drain_emits in Hd. destruct Hd as (_ & _ & _ & _ & He & _).
    exists (Mode3.m_out_buffer w2). split; [exact He|reflexivity].
  - injection H as <-. discriminate.
Qed.

(** * [TriggerPrimitiveMaker] *)

Section WhileDo.

Context {S : Type} (cond : S -> bool * S) (body : S -> option S).

Lemma while_do_invariant (I : S -> Prop) :
  (forall s s1 s2, I s -> cond s = (true, s1) -> body s1 = Some s2 -> I s2) ->
  forall fuel s s',
    I s -> while_do fuel cond body s = Some s' ->
    exists s0, I s0 /\ cond s0 = (false, s').
Proof.
  intros Hstep. induction fuel as [|fuel IH]; simpl; [discriminate|].
  intros s s' Hi. destruct (cond s) as [[|] s1] eqn:Ec.
  - destruct (body s1) as [s2|] eqn:Eb; [|discriminate].
    apply IH. eapply Hstep; eassumption.
  - intros H. injection H as <-. exists s. auto.
Qed.

Lemma while_do_terminates (measure : S -> nat) (bound : nat) :
  (forall s c s1, cond s = (c, s1) ->
                  measure s1 <= measure s /\ (c = true -> measure s1 < measure s)) ->
  (forall s, measure s < bound ->
             exists s', body s = Some s' /\ measure s' <= measure s) ->
  forall fuel s,
    measure s < fuel -> measure s <= bound ->
    exists s', while_do fuel cond body s = Some s' /\ measure s' <= measure s.
Proof.
  intros Hc Hb. induction fuel as [|fuel IH]; intros s Hf Hm; [lia|].
  simpl. destruct (cond s) as [[|] s1] eqn:Ec.
  - destruct (Hc _ _ _ Ec) as [_ Hlt]. specialize (Hlt eq_refl).
    destruct (Hb s1) as (s2 & Eb & Hle); [lia|]. rewrite Eb.
    destruct (IH s2) as (s' & E & Hle'); [lia|lia|].
    exists s'. split; [exact E|lia].
  - destruct (Hc _ _ _ Ec) as [Hle _]. exists s1. split; [reflexivity|exact Hle].
Qed.

End WhileDo.

Section ReplayFacts.

Import TriggerPrimitiveMaker.

Lemma load_spec (s : Work) :
  fst (load s) = hd false (running_flag s)
  /\ running_flag (snd (load s)) = tl (running_flag s)
  /\ m_tpset_sink (snd (load s)) = m_tpset_sink s
  /\ attempts (snd (load s)) = attempts s
  /\ generatedCount (snd (load s)) = generatedCount s
  /\ sentCount (snd (load s)) = sentCount s
  /\ currentIteration (snd (load s)) = currentIteration s
  /\ successfullyWasSent (snd (load s)) = successfullyWasSent s.
Proof. unfold load. destruct (running_flag s) eqn:E; simpl; rewrite ?E; repeat split. Qed.

Lemma attempt_spec (st : State) (s : Work) :
  let ok := hd true (m_tpset_sink s) in
  running_flag (attempt st s) = running_flag s
  /\ m_tpset_sink (attempt st s) = tl (m_tpset_sink s)
  /\ attempts (attempt st s) = attempts s ++ [(m_tpset st, ok)]
  /\ generatedCount (attempt st s) = generatedCount s
  /\ sentCount (attempt st s) = (if ok then size_t_incr (sentCount s) else sentCount s)
  /\ currentIteration (attempt st s) = size_t_incr (currentIteration s)
  /\ successfullyWasSent (attempt st s) = (if ok then true else successfullyWasSent s).
Proof.
  unfold attempt, push. destruct (m_tpset_sink s) as [|[|] q]; simpl; repeat split.
Qed.

Lemma accepted_snoc (l : list (SetOf TriggerPrimitive * bool))
  (x : SetOf TriggerPrimitive) (ok : bool) :
  length (filter snd (l ++ [(x, ok)])) = length (filter snd l) + (if ok then 1 else 0).
Proof. rewrite filter_app, length_app. destruct ok; reflexivity. Qed.

Lemma size_t_incr_small (k : nat) :
  (N.of_nat (S k) < size_t_modulus)%N -> size_t_incr (N.of_nat k) = N.of_nat (S k).
Proof.
  intros H. unfold size_t_incr. rewrite N.mod_small; lia.
Qed.

Lemma inner_terminates (st : State) (fuel : nat) (s : Work) :
  length (running_flag s) < fuel ->
  exists s',
    while_do fuel may_retry (fun s2 => Some (attempt st s2)) s = Some s'
    /\ length (running_flag s') <= length (running_flag s).
Proof.
  intros Hf.
  apply (@while_do_terminates _ may_retry (fun s2 => Some (attempt st s2))
           (fun s => length (running_flag s)) (S (length (running_flag s)))).
  - intros s0 c s1. unfold may_retry. destruct (successfullyWasSent s0).
    + intros H. injection H as <- <-. split; [lia|discriminate].
    + intros H. destruct (load_spec s0) as (Hc & Hr & _). rewrite H in Hc, Hr.
      simpl in Hc, Hr. rewrite Hr. destruct (running_flag s0); simpl in *.
      * split; [lia|]. intros ->. discriminate.
      * split; lia.
  - intros s0 _. eexists. split; [reflexivity|].
    destruct (attempt_spec st s0) as (Hr & _). rewrite Hr. lia.
  - exact Hf.
  - lia.
Qed.

Lemma do_work_terminates (st : State) (flag sink : list bool) (fuel : nat) :
  length flag < fuel -> exists r, do_work fuel st flag sink = Some r.
Proof.
  intros Hf. unfold do_work.
  assert (H : exists r,
             while_do fuel (may_loop st) (iteration fuel st)
               (mkWork flag sink [] 0%N 0%N 0%N false) = Some r
             /\ length (running_flag r) <= length flag);
    [|destruct H as (r & E & _); exists r; exact E].
  apply (@while_do_terminates _ (may_loop st) (iteration fuel st)
           (fun s => length (running_flag s)) fuel).
  - intros s0 c s1. unfold may_loop.
    destruct (load_spec s0) as (Hc & Hr & _).
    destruct (load s0) as [running s1']. simpl in Hc, Hr.
    intros H. injection H as <- <-. rewrite Hr.
    destruct (running_flag s0); simpl in *.
    + split; [lia|]. subst running. discriminate.
    + split; lia.
  - intros s0 Hm. unfold iteration. destruct (m_number_of_rows st =? 0)%N.
    + exists s0. split; [reflexivity|lia].
    + match goal with
      | |- exists s', while_do _ _ _ ?s1 = _ /\ _ =>
          destruct (inner_terminates st (fuel := fuel) s1) as (s' & E & Hle);
            [exact Hm|]
      end.
      exists s'. split; [exact E|exact Hle].
  - exact Hf.
  - simpl. lia.
Qed.

Lemma tallied_load (st : State) (reads : nat) (s : Work) :
  Tallied st reads s ->
  Tallied st reads (snd (load s))
  /\ accepted (snd (load s)) = accepted s
  /\ (fst (load s) = true -> length (attempts s) < reads).
Proof.
  intros (Hf & Hs & Hc & Hl).
  destruct (load_spec s) as (Eb & Er & _ & Ea & _ & Es & Ec & _).
  unfold Tallied, accepted. rewrite Er, Ea, Es, Ec.
  split; [|split].
  - repeat split; try assumption. destruct (running_flag s); simpl in *; lia.
  - reflexivity.
  - rewrite Eb. destruct (running_flag s) as [|b later]; simpl in *; [discriminate|].
    intros _. lia.
Qed.

Lemma tallied_attempt (st : State) (reads : nat) (s : Work) :
  (N.of_nat reads < size_t_modulus)%N ->
  Tallied st reads s ->
  length (attempts s) < reads ->
  length (running_flag s) < reads - length (attempts s) ->
  let ok := hd true (m_tpset_sink s) in
  Tallied st reads (attempt st s)
  /\ accepted (attempt st s) = accepted s + (if ok then 1 else 0)
  /\ successfullyWasSent (attempt st s) = (if ok then true else successfullyWasSent s).
Proof.
  intros Hr (Hf & Hs & Hc & Hl) Ha Hlen ok.
  destruct (attempt_spec st s) as (Er & _ & Ea & _ & Es & Ec & Ew). fold ok in Ea, Es, Ew.
  assert (Hacc : accepted (attempt st s) = accepted s + (if ok then 1 else 0)).
  { unfold accepted. rewrite Ea. apply accepted_snoc. }
  assert (Hle : accepted s <= length (attempts s)) by apply filter_length_le.
  split; [|split; [exact Hacc|exact Ew]].
  unfold Tallied. rewrite Hacc, Er, Ea, Es, Ec, Hs, Hc, length_app. simpl.
  repeat split.
  - apply Forall_app. split; [exact Hf|]. repeat constructor.
  - destruct ok.
    + rewrite size_t_incr_small; [f_equal; lia|lia].
    + f_equal. lia.
  - rewrite size_t_incr_small; [f_equal; lia|lia].
  - lia.
Qed.

Lemma inner_tallied (st : State) (reads fuel : nat) (s s' : Work) :
  (N.of_nat reads < size_t_modulus)%N ->
  Tallied st reads s ->
  successfullyWasSent s = false ->
  while_do fuel may_retry (fun s2 => Some (attempt st s2)) s = Some s' ->
  Tallied st reads s' /\ accepted s' <= accepted s + 1.
Proof.
  intros Hr Ht Hw Hl.
  apply (while_do_invariant may_retry (fun s2 => Some (attempt st s2))
           (fun s2 =>
              Tallied st reads s2
              /\ accepted s2 = accepted s + (if successfullyWasSent s2 then 1 else 0)))
    in Hl.
  - destruct Hl as (s0 & [Ht0 Ha0] & Ec). unfold may_retry in Ec.
    destruct (successfullyWasSent s0).
    + injection Ec as <-. split; [exact Ht0|lia].
    + destruct (tallied_load Ht0) as (Ht1 & Ha1 & _). rewrite Ec in Ht1, Ha1.
      simpl in Ht1, Ha1. split; [exact Ht1|lia].
  - intros s0 s1 s2 [Ht0 Ha0] Ec Eb. injection Eb as <-.
    unfold may_retry in Ec. destruct (successfullyWasSent s0) eqn:Ew0; [discriminate|].
    destruct (tallied_load Ht0) as (Ht1 & Ha1 & Hlt). rewrite Ec in Ht1, Ha1, Hlt.
    simpl in Ht1, Ha1, Hlt. specialize (Hlt eq_refl).
    destruct (load_spec s0) as (_ & _ & _ & Ea & _ & _ & _ & Ew). rewrite Ec in Ea, Ew.
    simpl in Ea, Ew.
    assert (Hlen : length (running_flag s1) < reads - length (attempts s1)).
    { destruct (load_spec s0) as (Eb & Er & _). rewrite Ec in Eb, Er. simpl in Eb, Er.
      destruct Ht0 as (_ & _ & _ & Hl0). rewrite Er, Ea.
      destruct (running_flag s0); simpl in *; [discriminate|lia]. }
    destruct (@tallied_attempt st reads s1 Hr Ht1) as (Ht2 & Ha2 & Ew2);
      [rewrite Ea; exact Hlt|exact Hlen|].
    split; [exact Ht2|]. rewrite Ha2, Ew2, Ha1, Ha0, Ew, Ew0.
    destruct (hd true (m_tpset_sink s1)); lia.
  - split; [exact Ht|]. rewrite Hw. lia.
Qed.

Lemma may_loop_spec (st : State) (s : Work) :
  may_loop st s
  = (fst (load s) && (currentIteration (snd (load s)) <? m_number_of_loops st)%N,
     snd (load s)).
Proof. unfold may_loop. destruct (load s). reflexivity. Qed.

(** X16: [do_work] of the replay stage returns, whatever the sink does,
    once the flag stops reading [true] (a script of reads is finite, and
    fuel beyond its length is enough).  When it returns, every push it made
    carried [m_tpset], [sentCount] is the number of pushes the sink took and
    [currentIteration] the number of all pushes, and the sink took at most
    [m_number_of_loops] copies. *)
Theorem replay_pushes_at_most_number_of_loops_copies
  (st : TriggerPrimitiveMaker.State) (flag sink : list bool) :
  (N.of_nat (length flag) < size_t_modulus)%N ->
  (forall fuel,
      length flag < fuel ->
      exists r, TriggerPrimitiveMaker.do_work fuel st flag sink = Some r)
  /\ Returns (fun fuel => TriggerPrimitiveMaker.do_work fuel st flag sink)
       (fun r =>
          TriggerPrimitiveMaker.Tallied st (length flag) r
          /\ (N.of_nat (TriggerPrimitiveMaker.accepted r)
              <= TriggerPrimitiveMaker.m_number_of_loops st)%N).
Proof.
  intros Hr. split; [intros fuel; apply do_work_terminates|].
  intros fuel r H. unfold do_work in H.
  apply (while_do_invariant (may_loop st) (iteration fuel st)
           (fun s =>
              Tallied st (length flag) s
              /\ (N.of_nat (accepted s) <= m_number_of_loops st)%N)) in H.
  - destruct H as (s0 & [Ht0 Ha0] & Ec). rewrite may_loop_spec in Ec.
    injection Ec as _ <-. destruct (tallied_load Ht0) as (Ht1 & Ha1 & _).
    split; [exact Ht1|]. rewrite Ha1. exact Ha0.
  - intros s0 s1 s2 [Ht0 Ha0] Ec Eb. rewrite may_loop_spec in Ec.
    injection Ec as Ec <-. apply andb_prop in Ec. destruct Ec as [_ Ec].
    apply N.ltb_lt in Ec.
    destruct (tallied_load Ht0) as (Ht1 & Ha1 & _).
    unfold iteration in Eb. destruct (m_number_of_rows st =? 0)%N.
    + injection Eb as <-. split; [exact Ht1|]. rewrite Ha1. exact Ha0.
    + apply (inner_tallied (st := st) (reads := length flag)) in Eb;
        [|exact Hr|exact Ht1|reflexivity].
      destruct Eb as [Ht2 Ha2]. split; [exact Ht2|].
      change (accepted _ + 1) with (accepted (snd (load s0)) + 1) in Ha2.
      destruct Ht1 as (_ & _ & Hc & _). rewrite Hc in Ec.
      assert (Hle : accepted (snd (load s0)) <= length (attempts (snd (load s0))))
        by apply filter_length_le.
      lia.
  - split.
    + unfold Tallied, accepted. simpl. repeat split; [constructor|lia].
    + unfold accepted. simpl. lia.
Qed.

Lemma replay_pushes_at_most_number_of_loops_copies_witness :
  exists r,
    TriggerPrimitiveMaker.do_work 9 (ExamplesTPM.configured 2)
      [true; true; true; true; true; true; true; true] [false; true; false] = Some r
    /\ TriggerPrimitiveMaker.accepted r = 1
    /\ length (TriggerPrimitiveMaker.attempts r) = 2
    /\ (N.of_nat (TriggerPrimitiveMaker.accepted r) <= 2)%N.
Proof.
destruct (@replay_pushes_at_most_number_of_loops_copies (ExamplesTPM.configured 2)
            [true; true; true; true; true; true; true; true] [false; true; false]
            ltac:(vm_compute; reflexivity)) as [_ HR].
eexists. split; [vm_compute; reflexivity|].
split; [reflexivity|]. split; [reflexivity|].
refine (proj2 (HR 9 _ _)). vm_compute. reflexivity.
Defined.

Lemma willing_sink_run (st : State) (n : nat) (rest sink : list bool) :
  m_number_of_rows st <> 0%N ->
  m_number_of_loops st = N.of_nat n ->
  (N.of_nat n < size_t_modulus)%N ->
  forallb (fun b => b) sink = true ->
  forall fuel r,
    do_work fuel st (repeat true (2 * n) ++ rest) sink = Some r ->
    attempts r = repeat (m_tpset st, true) n
    /\ sentCount r = N.of_nat n
    /\ running_flag r = tl rest
    /\ generatedCount r = ((N.of_nat n * m_number_of_rows st) mod size_t_modulus)%N.
Proof.
  intros Hrows Hloops Hn Hsink.
  intros fuel r H. unfold do_work in H.
  apply (while_do_invariant (may_loop st) (iteration fuel st)
           (fun s =>
              exists c,
                c <= n
                /\ attempts s = repeat (m_tpset st, true) c
                /\ sentCount s = N.of_nat c
                /\ currentIteration s = N.of_nat c
                /\ running_flag s = repeat true (2 * (n - c)) ++ rest
                /\ forallb (fun b => b) (m_tpset_sink s) = true
                /\ generatedCount s
                   = ((N.of_nat c * m_number_of_rows st) mod size_t_modulus)%N)) in H.
  - destruct H as (s0 & (c & Hc & Ea & Es & Ei & Ef & _ & Eg) & Ec).
    rewrite may_loop_spec in Ec. injection Ec as Ec <-.
    destruct (load_spec s0) as (Eb & Er & _ & Ea' & Eg' & Es' & Ei' & _).
    rewrite Ei', Ei, Hloops, Eb, Ef in Ec.
    assert (c = n).
    { destruct (Nat.eq_dec c n) as [E|E]; [exact E|].
      replace (2 * (n - c)) with (S (S (2 * (n - S c)))) in Ec by lia.
      simpl in Ec. apply N.ltb_ge in Ec. lia. }
    subst c. rewrite Ea', Es', Er, Eg', Ef, Nat.sub_diag. simpl. auto.
  - intros s0 s1 s2 (c & Hc & Ea & Es & Ei & Ef & Ek & Eg) Ec Eb.
    rewrite may_loop_spec in Ec. injection Ec as Ec <-.
    apply andb_prop in Ec. destruct Ec as [_ Ec]. apply N.ltb_lt in Ec.
    destruct (load_spec s0) as (_ & _ & _ & _ & _ & _ & Ei' & _).
    rewrite Ei', Ei, Hloops in Ec. clear Ei'.
    assert (Hlt : c < n) by lia.
    replace (2 * (n - c)) with (S (S (2 * (n - S c)))) in Ef by lia.
    cbn [repeat app] in Ef.
    remember (repeat true (2 * (n - S c)) ++ rest) as later eqn:El.
    unfold iteration in Eb.
    destruct (N.eqb_spec (m_number_of_rows st) 0) as [E|_]; [contradiction|].
    destruct s0 as [fl sk at0 g sc ci sw]. cbn in Ea, Es, Ei, Ef, Ek, Eg.
    subst fl at0 sc ci g.
    assert (Hgen : (((N.of_nat c * m_number_of_rows st) mod size_t_modulus
                     + m_number_of_rows st) mod size_t_modulus
                    = (N.of_nat (S c) * m_number_of_rows st) mod size_t_modulus)%N).
    { rewrite N.Div0.add_mod_idemp_l. f_equal. lia. }
    destruct fuel as [|[|fuel]]; [discriminate| |].
    + destruct sk as [|[|] q]; cbn in Eb; discriminate.
    + destruct sk as [|[|] q]; cbn in Ek; try discriminate; cbn in Eb;
        injection Eb as <-; cbn; exists (S c);
        (split; [lia|]);
        (split; [rewrite <- repeat_cons; reflexivity|]);
        (split; [apply size_t_incr_small; lia|]);
        (split; [apply size_t_incr_small; lia|]);
        (split; [rewrite El; reflexivity|]);
        (split; [assumption || reflexivity|exact Hgen]).
  - exists 0. simpl. rewrite Nat.sub_0_r. repeat split; auto. lia.
Qed.

(** X17: when the file gave rows, the sink takes every push and the flag
    keeps reading [true], [do_work] pushes exactly [m_number_of_loops]
    copies of [m_tpset], one per iteration of the outer loop, reading the
    flag twice for each, and then leaves on the next read. *)
Theorem replay_sends_number_of_loops_copies_to_a_willing_sink
  (st : TriggerPrimitiveMaker.State) (n : nat) (rest sink : list bool) :
  TriggerPrimitiveMaker.m_number_of_rows st <> 0%N ->
  TriggerPrimitiveMaker.m_number_of_loops st = N.of_nat n ->
  (N.of_nat n < size_t_modulus)%N ->
  forallb (fun b => b) sink = true ->
  (forall fuel,
      2 * n + length rest < fuel ->
      exists r,
        TriggerPrimitiveMaker.do_work fuel st (repeat true (2 * n) ++ rest) sink = Some r)
  /\ Returns
       (fun fuel =>
          TriggerPrimitiveMaker.do_work fuel st (repeat true (2 * n) ++ rest) sink)
       (fun r =>
          TriggerPrimitiveMaker.attempts r
          = repeat (TriggerPrimitiveMaker.m_tpset st, true) n
          /\ TriggerPrimitiveMaker.sentCount r = N.of_nat n
          /\ TriggerPrimitiveMaker.running_flag r = tl rest
          /\ TriggerPrimitiveMaker.generatedCount r
             = ((N.of_nat n * TriggerPrimitiveMaker.m_number_of_rows st)
                mod size_t_modulus)%N).
Proof.
  intros Hrows Hloops Hn Hsink. split.
  - intros fuel Hf. apply do_work_terminates.
    rewrite length_app, repeat_length. lia.
  - intros fuel r H.
    exact (@willing_sink_run st n rest sink Hrows Hloops Hn Hsink fuel r H).
Qed.

Lemma replay_sends_number_of_loops_copies_to_a_willing_sink_witness :
  exists r,
    TriggerPrimitiveMaker.do_work 9 (ExamplesTPM.configured 3)
      [true; true; true; true; true; true; false] [true; true] = Some r
    /\ TriggerPrimitiveMaker.attempts r
       = repeat (TriggerPrimitiveMaker.m_tpset (ExamplesTPM.configured 3), true) 3
    /\ TriggerPrimitiveMaker.generatedCount r = 9%N.
Proof.
destruct (@replay_sends_number_of_loops_copies_to_a_willing_sink
            (ExamplesTPM.configured 3) 3 [false] [true; true]
            ltac:(discriminate) ltac:(reflexivity) ltac:(vm_compute; reflexivity)
            ltac:(reflexivity)) as [_ HR].
eexists. split; [vm_compute; reflexivity|].
destruct (HR 9 _ ltac:(vm_compute; reflexivity)) as (Ha & _ & _ & Hg).
split; [exact Ha|exact Hg].
Defined.

(** X18: when the configuration left no rows ([m_number_of_rows] is
    zero, which is what a file that cannot be opened gives), [do_work]
    pushes nothing, and since its [continue] skips the only place where
    [currentIteration] advances, [m_number_of_loops] does not end the loop:
    it runs until the flag reads [false]. *)
Theorem replay_without_rows_spins_until_stopped
  (st : TriggerPrimitiveMaker.State) (flag sink : list bool) :
  TriggerPrimitiveMaker.m_number_of_rows st = 0%N ->
  (0 < TriggerPrimitiveMaker.m_number_of_loops st)%N ->
  (forall fuel,
      length flag < fuel ->
      exists r, TriggerPrimitiveMaker.do_work fuel st flag sink = Some r)
  /\ Returns (fun fuel => TriggerPrimitiveMaker.do_work fuel st flag sink)
       (fun r =>
          TriggerPrimitiveMaker.attempts r = []
          /\ TriggerPrimitiveMaker.generatedCount r = 0%N
          /\ TriggerPrimitiveMaker.currentIteration r = 0%N
          /\ TriggerPrimitiveMaker.running_flag r = after_stop flag).
Proof.
  intros Hrows Hloops. split; [intros fuel; apply do_work_terminates|].
  intros fuel r H. unfold do_work in H.
  apply (while_do_invariant (may_loop st) (iteration fuel st)
           (fun s =>
              attempts s = [] /\ generatedCount s = 0%N /\ currentIteration s = 0%N
              /\ after_stop (running_flag s) = after_stop flag)) in H.
  - destruct H as (s0 & (Ea & Eg & Ei & Ef) & Ec).
    rewrite may_loop_spec in Ec. injection Ec as Ec <-.
    destruct (load_spec s0) as (Eb & Er & _ & Ea' & Eg' & _ & Ei' & _).
    rewrite Ea', Eg', Ei', Er. repeat split; try assumption.
    rewrite Ei', Ei, Eb in Ec. apply N.ltb_lt in Hloops. rewrite Hloops in Ec.
    rewrite <- Ef. destruct (running_flag s0) as [|[|] later]; simpl in *;
      [reflexivity|discriminate|reflexivity].
  - intros s0 s1 s2 (Ea & Eg & Ei & Ef) Ec Eb.
    rewrite may_loop_spec in Ec. injection Ec as Ec <-.
    apply andb_prop in Ec. destruct Ec as [Ec _].
    unfold iteration in Eb. rewrite Hrows in Eb. simpl in Eb. injection Eb as <-.
    destruct (load_spec s0) as (Eb & Er & _ & Ea' & Eg' & _ & Ei' & _).
    rewrite Ea', Eg', Ei', Er. repeat split; try assumption.
    rewrite <- Ef. rewrite Eb in Ec.
    destruct (running_flag s0) as [|[|] later]; simpl in *;
      [discriminate|reflexivity|discriminate].
  - repeat split.
Qed.

Lemma replay_without_rows_spins_until_stopped_witness :
  exists r,
    TriggerPrimitiveMaker.do_work 7 (TriggerPrimitiveMaker.mkState 2 0
                                       (empty_set TriggerPrimitiveMaker.TriggerPrimitive))
      [true; true; true; true; true; false; true] [] = Some r
    /\ TriggerPrimitiveMaker.attempts r = []
    /\ TriggerPrimitiveMaker.running_flag r = [true].
Proof.
destruct (@replay_without_rows_spins_until_stopped
            (TriggerPrimitiveMaker.mkState 2 0
               (empty_set TriggerPrimitiveMaker.TriggerPrimitive))
            [true; true; true; true; true; false; true] []
            ltac:(reflexivity) ltac:(reflexivity)) as [_ HR].
eexists. split; [vm_compute; reflexivity|].
destruct (HR 7 _ ltac:(vm_compute; reflexivity)) as (Ha & _ & _ & Hf).
split; [exact Ha|exact Hf].
Defined.

(** X19: [m_number_of_loops] is only looked at between two sets.  While the
    sink times out, the inner loop pushes again for as long as the flag
    reads [true], and every push advances [currentIteration], whatever
    [m_number_of_loops] is: against a sink that refuses [k] pushes and a
    flag that reads [true] for them, [do_work] makes [k] pushes and sends
    nothing. *)
Theorem replay_retries_a_stuck_sink_until_stopped
  (st : TriggerPrimitiveMaker.State) (k : nat) (sink : list bool) :
  TriggerPrimitiveMaker.m_number_of_rows st <> 0%N ->
  (0 < TriggerPrimitiveMaker.m_number_of_loops st)%N ->
  (N.of_nat k < size_t_modulus)%N ->
  (forall fuel,
      S k < fuel ->
      exists r,
        TriggerPrimitiveMaker.do_work fuel st (repeat true (S k)) (repeat false k ++ sink)
        = Some r)
  /\ Returns
       (fun fuel =>
          TriggerPrimitiveMaker.do_work fuel st (repeat true (S k))
            (repeat false k ++ sink))
       (fun r =>
          TriggerPrimitiveMaker.attempts r
          = repeat (TriggerPrimitiveMaker.m_tpset st, false) k
          /\ TriggerPrimitiveMaker.sentCount r = 0%N
          /\ TriggerPrimitiveMaker.currentIteration r = N.of_nat k
          /\ TriggerPrimitiveMaker.m_tpset_sink r = sink).
Proof.
  intros Hrows Hloops Hk. split.
  { intros fuel Hf. apply do_work_terminates. rewrite repeat_length. exact Hf. }
  intros fuel r H. unfold do_work in H.
  remember (iteration fuel st) as body eqn:Ebody.
  destruct fuel as [|fuel']; [discriminate|].
  cbn [while_do] in H.
  assert (Eload : may_loop st
                    (mkWork (repeat true (S k)) (repeat false k ++ sink) [] 0%N 0%N 0%N
                       false)
                  = (true,
                     mkWork (repeat true k) (repeat false k ++ sink) [] 0%N 0%N 0%N
                       false)).
  { unfold may_loop. cbn. apply N.ltb_lt in Hloops. rewrite Hloops. reflexivity. }
  rewrite Eload in H.
  destruct (body (mkWork (repeat true k) (repeat false k ++ sink) [] 0%N 0%N 0%N false))
    as [s2|] eqn:Hi; [|discriminate].
  rewrite Ebody in Hi. unfold iteration in Hi.
  destruct (N.eqb_spec (m_number_of_rows st) 0) as [E|_]; [contradiction|].
  apply (while_do_invariant may_retry (fun s2 => Some (attempt st s2))
           (fun s =>
              exists j,
                j <= k
                /\ attempts s = repeat (m_tpset st, false) j
                /\ sentCount s = 0%N
                /\ currentIteration s = N.of_nat j
                /\ running_flag s = repeat true (k - j)
                /\ m_tpset_sink s = repeat false (k - j) ++ sink
                /\ successfullyWasSent s = false)) in Hi.
  - destruct Hi as (s0 & (j & Hj & Ea & Es & Ei & Ef & Ek & Ew) & Ec).
    unfold may_retry in Ec. rewrite Ew in Ec.
    destruct (load_spec s0) as (Eb & Er & Ek' & Ea' & _ & Es' & Ei' & _).
    rewrite Ec in Eb, Er, Ek', Ea', Es', Ei'. simpl in Eb, Er, Ek', Ea', Es', Ei'.
    rewrite Ef in Eb, Er.
    assert (j = k).
    { destruct (Nat.eq_dec j k) as [E|E]; [exact E|].
      replace (k - j) with (S (k - S j)) in Eb by lia. discriminate. }
    subst j. rewrite Nat.sub_diag in *. simpl in Er, Ek.
    destruct fuel' as [|fuel']; [discriminate|].
    cbn [while_do] in H. rewrite may_loop_spec in H.
    destruct (load_spec s2) as (Eb2 & _ & Ek2 & Ea2 & _ & Es2 & Ei2 & _).
    rewrite Er in Eb2. simpl in Eb2. rewrite Eb2 in H. simpl in H.
    injection H as <-. rewrite Ea2, Es2, Ei2, Ek2, Ea', Es', Ei', Ek'. auto.
  - intros s0 s1 s3 (j & Hj & Ea & Es & Ei & Ef & Ek & Ew) Ec Eb.
    injection Eb as <-. unfold may_retry in Ec. rewrite Ew in Ec.
    destruct (load_spec s0) as (Eb & Er & Ek' & Ea' & _ & Es' & Ei' & Ew').
    rewrite Ec in Eb, Er, Ek', Ea', Es', Ei', Ew'.
    simpl in Eb, Er, Ek', Ea', Es', Ei', Ew'.
    rewrite Ef in Eb, Er.
    assert (Hlt : j < k).
    { destruct (Nat.eq_dec j k) as [E|E]; [|lia].
      subst j. rewrite Nat.sub_diag in Eb. discriminate. }
    replace (k - j) with (S (k - S j)) in Er, Ek by lia. simpl in Er, Ek.
    destruct (attempt_spec st s1) as (Ar & Ak & Aa & _ & As & Ai & Aw).
    rewrite Ek', Ek in Ak, Aa, As, Aw. simpl in Ak, Aa, As, Aw.
    exists (S j). split; [lia|].
    rewrite Aa, As, Ai, Ar, Ak, Aw, Ea', Es', Ei', Ew', Er, Ea, Es, Ei, Ew.
    split; [rewrite <- repeat_cons; reflexivity|].
    split; [reflexivity|].
    split; [apply size_t_incr_small; lia|]. auto.
  - exists 0. rewrite Nat.sub_0_r. cbn. repeat split. lia.
Qed.

Lemma replay_retries_a_stuck_sink_until_stopped_witness :
  exists r,
    TriggerPrimitiveMaker.do_work 6 (ExamplesTPM.configured 1)
      [true; true; true; true] [false; false; false; true] = Some r
    /\ length (TriggerPrimitiveMaker.attempts r) = 3
    /\ TriggerPrimitiveMaker.sentCount r = 0%N
    /\ TriggerPrimitiveMaker.currentIteration r = 3%N.
Proof.
destruct (@replay_retries_a_stuck_sink_until_stopped
            (ExamplesTPM.configured 1) 3 [true]
            ltac:(discriminate) ltac:(reflexivity) ltac:(vm_compute; reflexivity))
  as [_ HR].
eexists. split; [vm_compute; reflexivity|].
destruct (HR 6 _ ltac:(vm_compute; reflexivity)) as (Ha & Hs & Hi & _).
split; [rewrite Ha; reflexivity|]. split; [exact Hs|exact Hi].
Defined.

Lemma extract_unread (x : N) (f : ifstream) :
  unread (snd (extract x f)) <= unread f
  /\ (failed f = false -> unread (snd (extract x f)) < unread f).
Proof.
  unfold extract, unread. destruct (failed f) eqn:Ef; simpl.
  - rewrite Ef. split; [lia|discriminate].
  - destruct (fields f) as [|[v|] rest]; simpl; split; intros; lia.
Qed.

Lemma read_row_unread (fresh : TriggerPrimitive) (f : ifstream) :
  failed f = false -> unread (snd (read_row fresh f)) < unread f.
Proof.
  intros Hf. unfold read_row.
  pose proof (extract_unread (tp_time_start fresh) f) as [_ H1]. specialize (H1 Hf).
  destruct (extract (tp_time_start fresh) f) as [a f1].
  pose proof (extract_unread (tp_time_over_threshold fresh) f1) as [H2 _].
  destruct (extract (tp_time_over_threshold fresh) f1) as [b f2].
  pose proof (extract_unread (tp_time_peak fresh) f2) as [H3 _].
  destruct (extract (tp_time_peak fresh) f2) as [c f3].
  pose proof (extract_unread (tp_channel fresh) f3) as [H4 _].
  destruct (extract (tp_channel fresh) f3) as [d f4].
  pose proof (extract_unread (tp_adc_integral fresh) f4) as [H5 _].
  destruct (extract (tp_adc_integral fresh) f4) as [e f5].
  pose proof (extract_unread (tp_adc_peak fresh) f5) as [H6 _].
  destruct (extract (tp_adc_peak fresh) f5) as [g f6].
  pose proof (extract_unread (tp_detid fresh) f6) as [H7 _].
  destruct (extract (tp_detid fresh) f6) as [h f7].
  pose proof (extract_unread (tp_type fresh) f7) as [H8 _].
  destruct (extract (tp_type fresh) f7) as [i f8].
  simpl in *. lia.
Qed.

Lemma read_row_complete (fresh tp : TriggerPrimitive) (rest : list Field) :
  read_row fresh (mkStream (row_fields tp ++ rest) false) = (tp, mkStream rest false).
Proof. destruct tp. reflexivity. Qed.

Lemma read_row_at_the_end (fresh : TriggerPrimitive) :
  read_row fresh (mkStream [] false) = (fresh, mkStream [] true).
Proof. destruct fresh. reflexivity. Qed.

Lemma read_step_complete (fresh tp : TriggerPrimitive) (rest : list Field)
  (s0 : State) :
  read_step fresh (mkStream (row_fields tp ++ rest) false, s0)
  = (mkStream rest false,
     mkState (m_number_of_loops s0) (m_number_of_rows s0 + 1)%N
       (push_back tp (m_tpset s0))).
Proof. unfold read_step. cbn [fst snd]. rewrite read_row_complete. reflexivity. Qed.

Lemma read_step_at_the_end (fresh : TriggerPrimitive) (s0 : State) :
  read_step fresh (mkStream [] false, s0)
  = (mkStream [] true,
     mkState (m_number_of_loops s0) (m_number_of_rows s0 + 1)%N
       (push_back fresh (m_tpset s0))).
Proof. unfold read_step. cbn [fst snd]. rewrite read_row_at_the_end. reflexivity. Qed.

Lemma read_loop_rows (fresh : TriggerPrimitive) (rows : list TriggerPrimitive) :
  forall fuel s0,
    length rows + 1 < fuel ->
    exists f st',
      while_loop fuel (fun s => negb (failed (fst s))) (read_step fresh)
        (mkStream (file_of rows) false, s0) = Some (f, st')
      /\ m_number_of_loops st' = m_number_of_loops s0
      /\ m_number_of_rows st' = (m_number_of_rows s0 + N.of_nat (length rows) + 1)%N
      /\ objects (m_tpset st') = objects (m_tpset s0) ++ rows ++ [fresh].
Proof.
  induction rows as [|tp rows IH]; intros fuel s0 Hf.
  - destruct fuel as [|[|fuel]]; try (simpl in Hf; lia).
    cbn [while_loop file_of flat_map fst negb failed].
    rewrite read_step_at_the_end. cbn [while_loop fst negb failed].
    eexists. eexists. split; [reflexivity|]. cbn.
    repeat split; lia.
  - destruct fuel as [|fuel]; [lia|].
    cbn [while_loop file_of flat_map fst negb failed].
    rewrite read_step_complete. fold (file_of rows).
    destruct (IH fuel
                (mkState (m_number_of_loops s0) (m_number_of_rows s0 + 1)%N
                   (push_back tp (m_tpset s0)))) as (f & st' & E & El & Er & Eo);
      [simpl in Hf; lia|].
    exists f, st'. split; [exact E|]. cbn in El, Er, Eo.
    split; [exact El|]. split; [rewrite Er; simpl length; lia|].
    rewrite Eo, <- app_assoc. reflexivity.
Qed.

(** X20: [do_configure] on a file that holds [k] complete rows and nothing
    else leaves [m_number_of_rows] at [k + 1] and appends [k + 1] objects to
    [m_tpset]: the loop tests the stream before it reads, so the read that
    meets the end of the file still pushes its primitive, which has the
    values of a default-constructed one.  An empty file gives one row. *)
Theorem configure_counts_one_row_more_than_the_file_holds
  (number_of_loops : N) (rows : list TriggerPrimitiveMaker.TriggerPrimitive)
  (fresh : TriggerPrimitiveMaker.TriggerPrimitive) (st : TriggerPrimitiveMaker.State)
  (fuel : nat) :
  length rows + 1 < fuel ->
  exists st',
    TriggerPrimitiveMaker.do_configure fuel number_of_loops
      (Some (TriggerPrimitiveMaker.file_of rows)) fresh st = Some st'
    /\ TriggerPrimitiveMaker.m_number_of_loops st' = number_of_loops
    /\ TriggerPrimitiveMaker.m_number_of_rows st' = (N.of_nat (length rows) + 1)%N
    /\ objects (TriggerPrimitiveMaker.m_tpset st')
       = objects (TriggerPrimitiveMaker.m_tpset st) ++ rows ++ [fresh].
Proof.
  intros Hf. unfold do_configure. cbn [open].
  destruct (read_loop_rows fresh rows (mkState number_of_loops 0%N (m_tpset st)) Hf)
    as (f & st' & E & El & Er & Eo).
  rewrite E. exists st'. split; [reflexivity|]. cbn in El, Er, Eo. auto.
Qed.

Lemma configure_counts_one_row_more_than_the_file_holds_witness :
  exists st',
    TriggerPrimitiveMaker.do_configure 4 5
      (Some (TriggerPrimitiveMaker.file_of [ExamplesTPM.tp1; ExamplesTPM.tp2]))
      ExamplesTPM.fresh ExamplesTPM.unconfigured = Some st'
    /\ TriggerPrimitiveMaker.m_number_of_rows st' = 3%N
    /\ objects (TriggerPrimitiveMaker.m_tpset st')
       = [ExamplesTPM.tp1; ExamplesTPM.tp2; ExamplesTPM.fresh].
Proof.
destruct (@configure_counts_one_row_more_than_the_file_holds 5
            [ExamplesTPM.tp1; ExamplesTPM.tp2] ExamplesTPM.fresh ExamplesTPM.unconfigured 4
            ltac:(simpl; lia)) as (st' & E & _ & Er & Eo).
exists st'. split; [exact E|]. split; [exact Er|exact Eo].
Defined.

Lemma read_step_spec (fresh : TriggerPrimitive) (s : ifstream * State) :
  fst (read_step fresh s) = snd (read_row fresh (fst s))
  /\ m_number_of_loops (snd (read_step fresh s)) = m_number_of_loops (snd s)
  /\ m_number_of_rows (snd (read_step fresh s)) = (m_number_of_rows (snd s) + 1)%N
  /\ objects (m_tpset (snd (read_step fresh s)))
     = objects (m_tpset (snd s)) ++ [fst (read_row fresh (fst s))].
Proof. unfold read_step. destruct (read_row fresh (fst s)). repeat split. Qed.

(** X21: [do_configure] always returns, and it appends: the objects that
    [m_tpset] held before the call are still there, in front of the ones
    read, so a stage configured twice replays both files, while
    [m_number_of_rows] counts only what the last call appended.  That count
    is zero exactly when the file could not be opened. *)
Theorem configure_appends_to_what_the_set_holds
  (number_of_loops : N) (content : option (list TriggerPrimitiveMaker.Field))
  (fresh : TriggerPrimitiveMaker.TriggerPrimitive) (st : TriggerPrimitiveMaker.State) :
  (forall fuel,
      TriggerPrimitiveMaker.unread (TriggerPrimitiveMaker.open content) < fuel ->
      exists st',
        TriggerPrimitiveMaker.do_configure fuel number_of_loops content fresh st
        = Some st')
  /\ Returns
       (fun fuel =>
          TriggerPrimitiveMaker.do_configure fuel number_of_loops content fresh st)
       (fun st' =>
          TriggerPrimitiveMaker.m_number_of_loops st' = number_of_loops
          /\ exists added,
               objects (TriggerPrimitiveMaker.m_tpset st')
               = objects (TriggerPrimitiveMaker.m_tpset st) ++ added
               /\ TriggerPrimitiveMaker.m_number_of_rows st' = N.of_nat (length added)
               /\ (added = [] <-> content = None)).
Proof.
  split.
  - intros fuel Hf. unfold do_configure.
    destruct (@while_loop_terminates _ (fun s : ifstream * State => negb (failed (fst s)))
                (read_step fresh) (fun s => unread (fst s))) with
      (fuel := fuel) (s := (open content, mkState number_of_loops 0%N (m_tpset st)))
      as [[f st'] E].
    + intros s Hc. destruct (read_step_spec fresh s) as (Ef & _). rewrite Ef.
      apply read_row_unread. now destruct (failed (fst s)).
    + exact Hf.
    + rewrite E. eauto.
  - intros fuel st'. unfold do_configure.
    destruct (while_loop _ _ _ _) as [[f st1]|] eqn:Hl; [|discriminate].
    intros H. injection H as <-.
    apply (while_loop_invariant _ _
             (fun s : ifstream * State =>
                m_number_of_loops (snd s) = number_of_loops
                /\ exists added,
                     objects (m_tpset (snd s)) = objects (m_tpset st) ++ added
                     /\ m_number_of_rows (snd s) = N.of_nat (length added)
                     /\ (content = None -> failed (fst s) = true /\ added = [])
                     /\ (content <> None -> failed (fst s) = true -> added <> [])))
      in Hl.
    + destruct Hl as [(El & added & Eo & Er & Hn & Hs) Hc]. simpl in *.
      split; [exact El|]. exists added. split; [exact Eo|]. split; [exact Er|].
      split.
      * intros Ea. destruct content as [l|]; [|reflexivity].
        exfalso. apply Hs; [discriminate| |exact Ea].
        now destruct (failed f).
      * intros Ec. apply Hn, Ec.
    + intros s (El & added & Eo & Er & Hn & Hs) Hc.
      destruct (read_step_spec fresh s) as (_ & El' & Er' & Eo').
      split; [congruence|].
      exists (added ++ [fst (read_row fresh (fst s))]).
      split; [rewrite Eo', Eo, app_assoc; reflexivity|].
      split; [rewrite Er', Er, length_app; simpl; lia|].
      split.
      * intros Ec. destruct (Hn Ec) as [Hf _]. rewrite Hf in Hc. discriminate.
      * intros _ _ Ha. destruct added; discriminate.
    + simpl. split; [reflexivity|]. exists []. split; [symmetry; apply app_nil_r|].
      split; [reflexivity|]. split.
      * intros ->. auto.
      * destruct content; [discriminate|contradiction].
Qed.

(** X22: configuring on a file of [k] rows and then running against a sink
    that takes every push, with a flag that keeps reading [true]: the sink
    receives [number_of_loops] copies, and each of them holds what the set
    held before, the [k] rows of the file and, last, the default-constructed
    primitive of the read that met the end of the file. *)
Theorem configured_stage_replays_the_file_and_one_row_more
  (rows : list TriggerPrimitiveMaker.TriggerPrimitive)
  (fresh : TriggerPrimitiveMaker.TriggerPrimitive) (st : TriggerPrimitiveMaker.State)
  (n : nat) (rest sink : list bool) (fuel1 fuel2 : nat) :
  length rows + 1 < fuel1 ->
  2 * n + length rest < fuel2 ->
  (N.of_nat n < size_t_modulus)%N ->
  forallb (fun b => b) sink = true ->
  exists st' r,
    TriggerPrimitiveMaker.do_configure fuel1 (N.of_nat n)
      (Some (TriggerPrimitiveMaker.file_of rows)) fresh st = Some st'
    /\ TriggerPrimitiveMaker.do_work fuel2 st' (repeat true (2 * n) ++ rest) sink = Some r
    /\ map (fun a => (objects (fst a), snd a)) (TriggerPrimitiveMaker.attempts r)
       = repeat (objects (TriggerPrimitiveMaker.m_tpset st) ++ rows ++ [fresh], true) n.
Proof.
  intros Hf1 Hf2 Hn Hsink.
  destruct (read_loop_rows fresh rows (mkState (N.of_nat n) 0%N (m_tpset st)) Hf1)
    as (f & st' & E & El & Er & Eo).
  cbn in El, Er, Eo.
  assert (Hrows : m_number_of_rows st' <> 0%N) by lia.
  destruct (@do_work_terminates st' (repeat true (2 * n) ++ rest) sink fuel2)
    as (r & Ew); [rewrite length_app, repeat_length; lia|].
  exists st', r. split; [unfold do_configure; cbn [open]; rewrite E; reflexivity|].
  split; [exact Ew|].
  destruct (@willing_sink_run st' n rest sink Hrows El Hn Hsink fuel2 r Ew) as (Ea & _).
  rewrite Ea, map_repeat. cbn [fst snd].
  rewrite Eo. reflexivity.
Qed.

Lemma configured_stage_replays_the_file_and_one_row_more_witness :
  exists st' r,
    TriggerPrimitiveMaker.do_configure 4 2
      (Some (TriggerPrimitiveMaker.file_of [ExamplesTPM.tp1; ExamplesTPM.tp2]))
      ExamplesTPM.fresh ExamplesTPM.unconfigured = Some st'
    /\ TriggerPrimitiveMaker.do_work 6 st' [true; true; true; true; false] [] = Some r
    /\ map (fun a => (objects (fst a), snd a)) (TriggerPrimitiveMaker.attempts r)
       = [([ExamplesTPM.tp1; ExamplesTPM.tp2; ExamplesTPM.fresh], true);
          ([ExamplesTPM.tp1; ExamplesTPM.tp2; ExamplesTPM.fresh], true)].
Proof.
exact (@configured_stage_replays_the_file_and_one_row_more
         [ExamplesTPM.tp1; ExamplesTPM.tp2] ExamplesTPM.fresh ExamplesTPM.unconfigured
         2 [false] [] 4 6 ltac:(simpl; lia) ltac:(simpl; lia)
         ltac:(vm_compute; reflexivity) ltac:(reflexivity)).
Defined.

End ReplayFacts.
